(** * The LIMS high-speed-vision tracker: camera model, calibration views,
      Kalman set-up and the tracking loop

    A shallow embedding of the C/C++ sources

    - [LEDTracker/tdah/core/dot_coords.cpp]  ([setup_world_frame],
      [pixel2world], [grab_calib_grid], [get_camera_intrinsics]),
    - [LEDTracker/xtal_ball.cpp]            ([prediction], [setup_kalman]),
    - [LEDTracker/TDahMe3Fc.cpp]            ([TDahMe3Fc::getROILoc]),
    - [trunk/TDah/Calibration/views_chessbd.cpp]
                                            ([Calibration::getChessboardViews]),
    - [SimpleTracking/skeleton.cpp]         ([main]).

    Conventions of the embedding.

    - C [int]s are [Z]; the programs only index, count and divide small
      non-negative numbers, and the one place where the width matters (the
      [unsigned int] image tag shifted right by 16) is written out.
    - C [float]s are an abstract [Scalar]: a type with literals, conversion
      from integers and the four operations, and no algebraic law.  What is
      proved for every [Scalar] holds for IEEE single precision in particular.
      Where a value has to be computed the instance [val] is used: a memory
      word that holds a rational (the exact-arithmetic reading of a float,
      without rounding or overflow), a pointer, or garbage.  Values are
      computed at inputs where single precision is exact, and a statement
      over all inputs compares two runs rather than giving a value.
    - Pointers are addresses in [Z], [0] is [NULL]; memory that the programs
      read through raw pointers ([memcpy]) is a word-addressed [heap].
      Arrays of a fixed length (the tracking windows, the per-ROI images, an
      array of filters) are lists, and an index outside the array leaves
      defined behaviour.
    - OpenCV and the frame-grabber SDK are libraries, not part of the
      sources: the OpenCV calls are given their documented meaning
      ([cvGEMM], [cvSub], [cvKalmanPredict], ...), the rest are inputs of
      the model (what a load returned, which key was pressed, ...).
    - A computation that leaves defined behaviour (a null dereference, an
      OpenCV range error) yields [None]. *)

From Stdlib Require Import ZArith QArith Lia String.
From stdpp Require Import base option list.

Open Scope Z_scope.

(** ** Scalars *)

Class Scalar (F : Type) := {
  lit  : Q -> F;          (* a floating literal, [9.8f] *)
  ofZ  : Z -> F;          (* the conversion [(float) n] *)
  sadd : F -> F -> F;
  ssub : F -> F -> F;
  smul : F -> F -> F;
  sdiv : F -> F -> F;
  is_zero : F -> bool     (* the comparison [x == 0] *)
}.

Declare Scope scalar_scope.
Delimit Scope scalar_scope with S.
Infix "⊕" := sadd (at level 50, left associativity) : scalar_scope.
Infix "⊖" := ssub (at level 50, left associativity) : scalar_scope.
Infix "⊗" := smul (at level 40, left associativity) : scalar_scope.
Infix "⊘" := sdiv (at level 40, left associativity) : scalar_scope.

(** Memory words.  A word of the 32-bit target holds a float, a pointer or
    nothing meaningful; arithmetic is defined on floats only. *)
Inductive val :=
  | Vundef
  | Vfloat (x : Q)
  | Vptr (a : Z).

(** Results are kept as reduced fractions. *)
Definition val_lift (f : Q -> Q -> Q) (u v : val) : val :=
  match u, v with
  | Vfloat x, Vfloat y => Vfloat (Qred (f x y))
  | _, _ => Vundef
  end.

#[global] Instance val_scalar : Scalar val := {|
  lit := Vfloat;
  ofZ := fun n => Vfloat (inject_Z n);
  sadd := val_lift Qplus;
  ssub := val_lift Qminus;
  smul := val_lift Qmult;
  sdiv := val_lift Qdiv;
  is_zero := fun v => match v with Vfloat x => Qeq_bool x 0 | _ => false end
|}.

(** ** Dense matrices ([CvMat]) and the OpenCV calls the sources make *)

Record CvMat (E : Type) := mkMat {
  rows : Z;
  cols : Z;
  data : list E            (* row-major, [data.fl] *)
}.
Arguments mkMat {E} _ _ _.
Arguments rows {E} _.
Arguments cols {E} _.
Arguments data {E} _.

Definition with_data {E} (m : CvMat E) (d : list E) : CvMat E :=
  mkMat (rows m) (cols m) d.

Definition same_size {E E'} (a : CvMat E) (b : CvMat E') : bool :=
  (rows a =? rows b) && (cols a =? cols b).

Definition in_range {E} (m : CvMat E) (r c : Z) : bool :=
  (0 <=? r) && (r <? rows m) && (0 <=? c) && (c <? cols m).

Definition has_shape {E} (m : CvMat E) (r c : Z) : Prop :=
  rows m = r /\ cols m = c /\ length (data m) = Z.to_nat (r * c).

(** Raw access through [data.fl[i]]: no header check, only the buffer. *)
Definition fl_get {E} (m : CvMat E) (i : nat) : option E := data m !! i.

Definition fl_set {E} (m : CvMat E) (i : nat) (v : E) : option (CvMat E) :=
  if decide (i < length (data m))%nat then Some (with_data m (<[i:=v]> (data m)))
  else None.

(** [cvmGet] / [cvmSet]: range-checked element access. *)
Definition cvmGet {E} (m : CvMat E) (r c : Z) : option E :=
  if in_range m r c then data m !! Z.to_nat (r * cols m + c) else None.

Definition cvmSet {E} (m : CvMat E) (r c : Z) (v : E) : option (CvMat E) :=
  if in_range m r c then fl_set m (Z.to_nat (r * cols m + c)) v else None.

(** [CV_MAT_ELEM(m, type, r, c)]: address arithmetic on the buffer, no
    range check on the header. *)
Definition raw_get {E} (m : CvMat E) (r c : Z) : option E :=
  if 0 <=? r * cols m + c then fl_get m (Z.to_nat (r * cols m + c)) else None.

Definition raw_set {E} (m : CvMat E) (r c : Z) (v : E) : option (CvMat E) :=
  if 0 <=? r * cols m + c then fl_set m (Z.to_nat (r * cols m + c)) v else None.

Section MatOps.
Context {F : Type} `{Scalar F}.
Local Open Scope scalar_scope.

(** Total read used inside library routines once sizes are checked. *)
Definition mat_at (m : CvMat F) (r c : Z) : F :=
  nth (Z.to_nat (r * cols m + c)) (data m) (lit 0).

Definition build (r c : Z) (f : Z -> Z -> F) : CvMat F :=
  mkMat r c (i ← seqZ 0 r; (fun j => f i j) <$> seqZ 0 c).

Definition cvZero (m : CvMat F) : CvMat F :=
  with_data m ((fun _ => lit 0) <$> data m).

Definition cvSetIdentity (m : CvMat F) (v : F) : CvMat F :=
  build (rows m) (cols m) (fun i j => if decide (i = j) then v else lit 0).

(** [cvSub(a, b, dst)]: [dst = a - b], all of one size. *)
Definition cvSub (a b dst : CvMat F) : option (CvMat F) :=
  if same_size a b && same_size a dst then
    Some (with_data dst (zip_with ssub (data a) (data b)))
  else None.

(** Sum of a row of products, accumulated left to right. *)
Definition sum_list (l : list F) : F :=
  match l with
  | [] => lit 0
  | x :: xs => foldl sadd x xs
  end.

(** Multiplying by [1.0] is exact and is not written; any other factor is. *)
Definition scale (a : Q) (x : F) : F :=
  if Qeq_bool a 1 then x else lit a ⊗ x.

Definition op_rows (t : bool) (m : CvMat F) := if t then cols m else rows m.
Definition op_cols (t : bool) (m : CvMat F) := if t then rows m else cols m.
Definition op_at (t : bool) (m : CvMat F) (i j : Z) :=
  if t then mat_at m j i else mat_at m i j.

(** [cvGEMM(A, B, alpha, C, beta, dst, flags)]:
    [dst = alpha*op(A)*op(B) + beta*C], where [op] transposes when the flag
    [CV_GEMM_A_T] ([tA]) or [CV_GEMM_B_T] ([tB]) is given and the second
    term is absent when [C] is [NULL].  The product is formed before [dst]
    is written, so [dst] may be one of the operands. *)
Definition cvGEMM (A B : CvMat F) (alpha : Q) (C : option (CvMat F))
    (beta : Q) (dst : CvMat F) (tA tB : bool) : option (CvMat F) :=
  let n := op_rows tA A in
  let m := op_cols tB B in
  let inner := op_cols tA A in
  let c_ok := match C with
              | Some c => (rows c =? n) && (cols c =? m)
              | None => true
              end in
  if (inner =? op_rows tB B) && (rows dst =? n) && (cols dst =? m) && c_ok then
    Some (build n m (fun i j =>
      let p := scale alpha
                 (sum_list ((fun k => op_at tA A i k ⊗ op_at tB B k j)
                              <$> seqZ 0 inner)) in
      match C with
      | Some c => p ⊕ scale beta (mat_at c i j)
      | None => p
      end))
  else None.

(** [cvMatMulAdd(A, B, C, D)] is [cvGEMM(A, B, 1, C, 1, D, 0)]. *)
Definition cvMatMulAdd (A B : CvMat F) (C : option (CvMat F)) (D : CvMat F) :=
  cvGEMM A B 1 C 1 D false false.

Definition cvTranspose (m : CvMat F) : CvMat F :=
  build (cols m) (rows m) (fun i j => mat_at m j i).
End MatOps.

(** ** The camera model of [dot_coords.cpp] *)

Definition EBADF : Z := 9.
Definition ENOMEM : Z := 12.
Definition CV_OK : Z := 0.

Record CvPoint := mkPoint { pt_x : Z; pt_y : Z }.

(** The file-scope statics [A, k, R, T, world, distorted, normalized]; each
    is a pointer, [None] while it is [NULL]. *)
Record WorldFrame (F : Type) := mkWorldFrame {
  wf_A : option (CvMat F);
  wf_k : option (CvMat F);
  wf_R : option (CvMat F);
  wf_T : option (CvMat F);
  wf_world : option (CvMat F);
  wf_distorted : option (CvMat F);
  wf_normalized : option (CvMat F)
}.
Arguments mkWorldFrame {F}.
Arguments wf_A {F}.
Arguments wf_k {F}.
Arguments wf_R {F}.
Arguments wf_T {F}.
Arguments wf_world {F}.
Arguments wf_distorted {F}.
Arguments wf_normalized {F}.

(** What the process finds outside itself at start-up: the persisted
    matrices ([cvLoad] gives [NULL] for a missing or corrupt file) and the
    allocator.  Every [cvCreateMat] is an event of its own: the first
    argument tells which call of the routine it is (0 for the first), so
    that one request can succeed and the same request made again fail. *)
Record Storage (F : Type) := mkStorage {
  cvLoad : string -> option (CvMat F);
  cvCreateMat : nat -> Z -> Z -> Z -> option (CvMat F)
                                        (* call, rows, cols, channels *)
}.
Arguments mkStorage {F}.
Arguments cvLoad {F}.
Arguments cvCreateMat {F}.

Section CameraModel.
Context {F : Type} `{Scalar F}.
Local Open Scope scalar_scope.

(** [cvUndistortPoints] for one point: intrinsics, distortion
    coefficients and a pixel give the normalized direction. *)
Variable undistort : CvMat F -> CvMat F -> F -> F -> F * F.

Definition cvUndistortPoints (src dst A k : CvMat F) : option (CvMat F) :=
  x ← fl_get src 0; y ← fl_get src 1;
  let n := undistort A k x y in
  dst ← fl_set dst 0 (fst n);
  fl_set dst 1 (snd n).

(** [setup_world_frame]: the statics are assigned one after the other and
    the first failure returns. *)
Definition setup_world_frame (fs : Storage F) (A_file k_file R_file T_file : string)
    (g : WorldFrame F) : Z * WorldFrame F :=
  let A := cvLoad fs A_file in
  if A is None then
    (- EBADF, mkWorldFrame A (wf_k g) (wf_R g) (wf_T g)
                (wf_world g) (wf_distorted g) (wf_normalized g)) else
  let k := cvLoad fs k_file in
  if k is None then
    (- EBADF, mkWorldFrame A k (wf_R g) (wf_T g)
                (wf_world g) (wf_distorted g) (wf_normalized g)) else
  let R := cvLoad fs R_file in
  if R is None then
    (- EBADF, mkWorldFrame A k R (wf_T g)
                (wf_world g) (wf_distorted g) (wf_normalized g)) else
  let T := cvLoad fs T_file in
  if T is None then
    (- EBADF, mkWorldFrame A k R T
                (wf_world g) (wf_distorted g) (wf_normalized g)) else
  let world := cvCreateMat fs 0%nat 3 1 1 in
  if world is None then
    (- ENOMEM, mkWorldFrame A k R T world (wf_distorted g) (wf_normalized g)) else
  let normalized := cvCreateMat fs 1%nat 1 1 2 in
  if normalized is None then
    (- ENOMEM, mkWorldFrame A k R T world (wf_distorted g) normalized) else
  let distorted := cvCreateMat fs 2%nat 1 1 2 in
  if distorted is None then
    (- ENOMEM, mkWorldFrame A k R T world distorted normalized) else
  (CV_OK, mkWorldFrame A k R T world distorted normalized).

(** The arithmetic shared by [pixel2world] and the loop of [skeleton.cpp]:
    from the filled [distorted] buffer to the world vector.  [z2] is what
    the caller stores in the third component. *)
Definition back_project (A k R T world distorted normalized : CvMat F)
    (z z2 : F) : option (CvMat F * CvMat F) :=
  normalized ← cvUndistortPoints distorted normalized A k;
  n0 ← fl_get normalized 0;
  n1 ← fl_get normalized 1;
  world ← cvmSet world 0 0 (z ⊗ n0);
  world ← cvmSet world 1 0 (z ⊗ n1);
  world ← cvmSet world 2 0 z2;
  world ← cvSub world T world;
  world ← cvGEMM R world 1 None 0 world true false;
  Some (world, normalized).

(** [pixel2world(p, z)] *)
Definition pixel2world (g : WorldFrame F) (p : CvPoint) (z : F)
    : option ((F * F) * WorldFrame F) :=
  A ← wf_A g; k ← wf_k g; R ← wf_R g; T ← wf_T g;
  world ← wf_world g; distorted ← wf_distorted g; normalized ← wf_normalized g;
  distorted ← fl_set distorted 0 (ofZ (pt_x p));
  distorted ← fl_set distorted 1 (ofZ (pt_y p));
  '(world, normalized) ← back_project A k R T world distorted normalized z z;
  x ← fl_get world 0;
  y ← fl_get world 1;
  Some ((x, y), mkWorldFrame (Some A) (Some k) (Some R) (Some T)
                  (Some world) (Some distorted) (Some normalized)).

(** The specification's wording of the same map: undistort, scale by the
    depth, subtract the translation, apply the transposed rotation, keep
    x and y. *)
Definition pixelToWorld_spec (A k R T : CvMat F) (px py z : F) : F * F :=
  let '(nx, ny) := undistort A k px py in
  let c0 := z ⊗ nx in
  let c1 := z ⊗ ny in
  let c2 := z in
  let d0 := c0 ⊖ mat_at T 0 0 in
  let d1 := c1 ⊖ mat_at T 1 0 in
  let d2 := c2 ⊖ mat_at T 2 0 in
  (mat_at R 0 0 ⊗ d0 ⊕ mat_at R 1 0 ⊗ d1 ⊕ mat_at R 2 0 ⊗ d2,
   mat_at R 0 1 ⊗ d0 ⊕ mat_at R 1 1 ⊗ d1 ⊕ mat_at R 2 1 ⊗ d2).

(** The statics as [setup_world_frame] leaves them on success. *)
Definition frame_ready (g : WorldFrame F) (A k R T : CvMat F) : Prop :=
  wf_A g = Some A /\ wf_k g = Some k /\
  wf_R g = Some R /\ has_shape R 3 3 /\
  wf_T g = Some T /\ has_shape T 3 1 /\
  (exists w, wf_world g = Some w /\ has_shape w 3 1) /\
  (exists d, wf_distorted g = Some d /\ length (data d) = 2%nat) /\
  (exists n, wf_normalized g = Some n /\ length (data n) = 2%nat).
End CameraModel.

(** ** Linear systems ([cvSolve]) *)

Section Solve.
Context {F : Type} `{Scalar F}.
Local Open Scope scalar_scope.

Definition row_at (r : list F) (j : nat) : F := nth j r (lit 0).

Definition to_rows (m : CvMat F) : list (list F) :=
  (fun i => (fun j => mat_at m i j) <$> seqZ 0 (cols m)) <$> seqZ 0 (rows m).

Definition of_rows (r c : Z) (l : list (list F)) : CvMat F :=
  mkMat r c (mjoin l).

(** [row - row[j] * pivot] *)
Definition eliminate (j : nat) (pivot row : list F) : list F :=
  zip_with (fun x p => x ⊖ row_at row j ⊗ p) row pivot.

(** The first row with a non-zero entry in column [j], and the others. *)
Fixpoint find_pivot (j : nat) (l : list (list F)) : option (list F * list (list F)) :=
  match l with
  | [] => None
  | r :: l' =>
      if is_zero (row_at r j) then
        '(p, rest) ← find_pivot j l'; Some (p, r :: rest)
      else Some (r, l')
  end.

(** Gauss-Jordan elimination of the columns [js] of an augmented system. *)
Fixpoint gauss_jordan (js : list nat) (done todo : list (list F))
    : option (list (list F)) :=
  match js with
  | [] => Some (done ++ todo)
  | j :: js' =>
      '(p, rest) ← find_pivot j todo;
      let p := (fun x => x ⊘ row_at p j) <$> p in
      gauss_jordan js' ((eliminate j p <$> done) ++ [p]) (eliminate j p <$> rest)
  end.

(** [cvSolve(A, B, X)] for a square non-singular [A]: the [X] with
    [A X = B].  (For a singular [A] OpenCV's SVD method returns a
    least-squares answer; the model stops there.) *)
Definition cvSolve (A B : CvMat F) : option (CvMat F) :=
  if (rows A =? cols A) && (rows A =? rows B) then
    sol ← gauss_jordan (seq 0 (Z.to_nat (rows A))) []
             (zip_with app (to_rows A) (to_rows B));
    Some (of_rows (rows B) (cols B) (drop (Z.to_nat (cols A)) <$> sol))
  else None.
End Solve.

(** ** The Kalman filter ([CvKalman], [cvKalmanPredict], [cvKalmanCorrect]) *)

Record CvKalman (F : Type) := mkKalman {
  MP : Z;                              (* measurement dimension *)
  DP : Z;                              (* state dimension *)
  CP : Z;                              (* control dimension *)
  state_pre : CvMat F;                 (* x'(k), DP x 1 *)
  state_post : CvMat F;                (* x(k),  DP x 1 *)
  transition_matrix : CvMat F;         (* A, DP x DP *)
  control_matrix : CvMat F;            (* B, DP x CP *)
  measurement_matrix : CvMat F;        (* H, MP x DP *)
  process_noise_cov : CvMat F;         (* Q, DP x DP *)
  measurement_noise_cov : CvMat F;     (* R, MP x MP *)
  error_cov_pre : CvMat F;             (* P'(k), DP x DP *)
  gain : CvMat F;                      (* K(k), DP x MP *)
  error_cov_post : CvMat F             (* P(k), DP x DP *)
}.
Arguments mkKalman {F}.
Arguments MP {F}.
Arguments DP {F}.
Arguments CP {F}.
Arguments state_pre {F}.
Arguments state_post {F}.
Arguments transition_matrix {F}.
Arguments control_matrix {F}.
Arguments measurement_matrix {F}.
Arguments process_noise_cov {F}.
Arguments measurement_noise_cov {F}.
Arguments error_cov_pre {F}.
Arguments gain {F}.
Arguments error_cov_post {F}.

Section KalmanFields.
Context {F : Type}.
Implicit Type k : CvKalman F.

Definition set_state_pre k m := mkKalman (MP k) (DP k) (CP k)
  m (state_post k) (transition_matrix k) (control_matrix k)
  (measurement_matrix k) (process_noise_cov k) (measurement_noise_cov k)
  (error_cov_pre k) (gain k) (error_cov_post k).
Definition set_state_post k m := mkKalman (MP k) (DP k) (CP k)
  (state_pre k) m (transition_matrix k) (control_matrix k)
  (measurement_matrix k) (process_noise_cov k) (measurement_noise_cov k)
  (error_cov_pre k) (gain k) (error_cov_post k).
Definition set_transition_matrix k m := mkKalman (MP k) (DP k) (CP k)
  (state_pre k) (state_post k) m (control_matrix k)
  (measurement_matrix k) (process_noise_cov k) (measurement_noise_cov k)
  (error_cov_pre k) (gain k) (error_cov_post k).
Definition set_control_matrix k m := mkKalman (MP k) (DP k) (CP k)
  (state_pre k) (state_post k) (transition_matrix k) m
  (measurement_matrix k) (process_noise_cov k) (measurement_noise_cov k)
  (error_cov_pre k) (gain k) (error_cov_post k).
Definition set_measurement_matrix k m := mkKalman (MP k) (DP k) (CP k)
  (state_pre k) (state_post k) (transition_matrix k) (control_matrix k)
  m (process_noise_cov k) (measurement_noise_cov k)
  (error_cov_pre k) (gain k) (error_cov_post k).
Definition set_process_noise_cov k m := mkKalman (MP k) (DP k) (CP k)
  (state_pre k) (state_post k) (transition_matrix k) (control_matrix k)
  (measurement_matrix k) m (measurement_noise_cov k)
  (error_cov_pre k) (gain k) (error_cov_post k).
Definition set_measurement_noise_cov k m := mkKalman (MP k) (DP k) (CP k)
  (state_pre k) (state_post k) (transition_matrix k) (control_matrix k)
  (measurement_matrix k) (process_noise_cov k) m
  (error_cov_pre k) (gain k) (error_cov_post k).
Definition set_error_cov_pre k m := mkKalman (MP k) (DP k) (CP k)
  (state_pre k) (state_post k) (transition_matrix k) (control_matrix k)
  (measurement_matrix k) (process_noise_cov k) (measurement_noise_cov k)
  m (gain k) (error_cov_post k).
Definition set_gain k m := mkKalman (MP k) (DP k) (CP k)
  (state_pre k) (state_post k) (transition_matrix k) (control_matrix k)
  (measurement_matrix k) (process_noise_cov k) (measurement_noise_cov k)
  (error_cov_pre k) m (error_cov_post k).
Definition set_error_cov_post k m := mkKalman (MP k) (DP k) (CP k)
  (state_pre k) (state_post k) (transition_matrix k) (control_matrix k)
  (measurement_matrix k) (process_noise_cov k) (measurement_noise_cov k)
  (error_cov_pre k) (gain k) m.
End KalmanFields.

(** The matrices of a filter have the sizes its dimensions prescribe. *)
Definition kalman_ok {F} (k : CvKalman F) : Prop :=
  has_shape (state_pre k) (DP k) 1 /\
  has_shape (state_post k) (DP k) 1 /\
  has_shape (transition_matrix k) (DP k) (DP k) /\
  has_shape (control_matrix k) (DP k) (CP k) /\
  has_shape (measurement_matrix k) (MP k) (DP k) /\
  has_shape (process_noise_cov k) (DP k) (DP k) /\
  has_shape (measurement_noise_cov k) (MP k) (MP k) /\
  has_shape (error_cov_pre k) (DP k) (DP k) /\
  has_shape (gain k) (DP k) (MP k) /\
  has_shape (error_cov_post k) (DP k) (DP k).

Section KalmanOps.
Context {F : Type} `{Scalar F}.

(** A scratch destination: only its size is looked at. *)
Definition temp (r c : Z) : CvMat F := mkMat r c [].

(** [cvKalmanPredict(kalman, control)]:
    [x'(k) = A x(k-1) + B u(k)],  [P'(k) = A P(k-1) At + Q];
    the control term is added only when [control] is given and [CP > 0].
    (Later releases of the library also copy the prior into [state_post] and
    [error_cov_post]; [prediction] overwrites both in the correction that
    follows.) *)
Definition cvKalmanPredict (k : CvKalman F) (control : option (CvMat F))
    : option (CvKalman F) :=
  x' ← cvMatMulAdd (transition_matrix k) (state_post k) None (state_pre k);
  x' ← match control with
       | Some u =>
           if 0 <? CP k then cvMatMulAdd (control_matrix k) u (Some x') x'
           else Some x'
       | None => Some x'
       end;
  temp1 ← cvMatMulAdd (transition_matrix k) (error_cov_post k) None
            (temp (DP k) (DP k));
  P' ← cvGEMM temp1 (transition_matrix k) 1 (Some (process_noise_cov k)) 1
         (error_cov_pre k) false true;
  Some (set_error_cov_pre (set_state_pre k x') P').

(** [cvKalmanCorrect(kalman, measurement)]:
    [K = P' Ht (H P' Ht + R)^-1],  [x = x' + K (z - H x')],
    [P = P' - K H P']. *)
Definition cvKalmanCorrect (k : CvKalman F) (z : CvMat F) : option (CvKalman F) :=
  temp2 ← cvMatMulAdd (measurement_matrix k) (error_cov_pre k) None
            (temp (MP k) (DP k));
  temp3 ← cvGEMM temp2 (measurement_matrix k) 1 (Some (measurement_noise_cov k)) 1
            (temp (MP k) (MP k)) false true;
  temp4 ← cvSolve temp3 temp2;
  let K := cvTranspose temp4 in
  temp5 ← cvGEMM (measurement_matrix k) (state_pre k) (-1) (Some z) 1
            (temp (MP k) 1) false false;
  x ← cvMatMulAdd K temp5 (Some (state_pre k)) (state_post k);
  P ← cvGEMM K temp2 (-1) (Some (error_cov_pre k)) 1 (error_cov_post k)
        false false;
  Some (set_error_cov_post (set_state_post (set_gain k K) x) P).

(** The gain [cvKalmanCorrect] computes; the measurement plays no part
    in it. *)
Definition kalman_gain (k : CvKalman F) : option (CvMat F) :=
  temp2 ← cvMatMulAdd (measurement_matrix k) (error_cov_pre k) None
            (temp (MP k) (DP k));
  temp3 ← cvGEMM temp2 (measurement_matrix k) 1 (Some (measurement_noise_cov k)) 1
            (temp (MP k) (MP k)) false true;
  temp4 ← cvSolve temp3 temp2;
  Some (cvTranspose temp4).
End KalmanOps.

(** ** Raw memory *)

(** Word-addressed memory; a cell nobody wrote reads as [Vundef]. *)
Definition heap := Z -> val.

(** The [n] words from address [a] on; reading through [NULL] is a fault. *)
Definition load_words (h : heap) (a : Z) (n : nat) : option (list val) :=
  if decide (a = 0) then None else Some (h <$> seqZ a (Z.of_nat n)).

(** A pointer stored in memory. *)
Definition load_ptr (h : heap) (a : Z) : option Z :=
  if decide (a = 0) then None
  else match h a with Vptr p => Some p | _ => None end.

(** [memcpy(dst, src, n * sizeof(float))] into a buffer of floats. *)
Definition memcpy_fl {E} (dst src : list E) (n : nat) : option (list E) :=
  if decide (n <= length dst /\ n <= length src)%nat
  then Some (take n src ++ drop n dst) else None.

(** ** [xtal_ball.cpp] *)

Definition GRAVITY : val := lit (98 # 10).

Section XtalBall.
Local Open Scope scalar_scope.

(** [Z_DIM], the length of a measurement, comes from [t_dah.h]. *)
Variable Z_DIM : nat.

Definition A_k (dt_k : val) : list val :=
  [ lit 1; lit 0; dt_k;  lit 0;
    lit 0; lit 1; lit 0; dt_k;
    lit 0; lit 0; lit 1; lit 0;
    lit 0; lit 0; lit 0; lit 1 ].

Definition B_k (dt_k : val) : list val :=
  [ lit 0;
    lit (1 # 2) ⊗ GRAVITY ⊗ dt_k ⊗ dt_k;
    lit 0;
    GRAVITY ⊗ dt_k ].

(** [cvCreateMat(r, c, CV_32FC1)]: the buffer is not initialised. *)
Definition fresh (r c : Z) : CvMat val :=
  mkMat r c (replicate (Z.to_nat (r * c)) Vundef).

(** [prediction(kal, dt_k, z_k)]; [z_k] is the address of the measurement.
    The three [memcpy]s copy [Z_DIM] floats of the measurement, the 16 of
    [A_k] and the 4 of [B_k]. *)
Definition prediction (h : heap) (kal : CvKalman val) (dt_k : val) (z_k : Z)
    : option (CvKalman val) :=
  let z := fresh (MP kal) 1 in
  let u := fresh (CP kal) 1 in
  let u := cvZero u in
  src ← load_words h z_k Z_DIM;
  zd ← memcpy_fl (data z) src Z_DIM;
  let z := with_data z zd in
  Ad ← memcpy_fl (data (transition_matrix kal)) (A_k dt_k) 16;
  let kal := set_transition_matrix kal (with_data (transition_matrix kal) Ad) in
  Bd ← memcpy_fl (data (control_matrix kal)) (B_k dt_k) 4;
  let kal := set_control_matrix kal (with_data (control_matrix kal) Bd) in
  kal ← cvKalmanPredict kal (Some u);
  cvKalmanCorrect kal z.

(** What [prediction] has done when [cvKalmanPredict] returns. *)
Definition prediction_prior (kal : CvKalman val) (dt_k : val)
    : option (CvKalman val) :=
  let u := cvZero (fresh (CP kal) 1) in
  Ad ← memcpy_fl (data (transition_matrix kal)) (A_k dt_k) 16;
  let kal := set_transition_matrix kal (with_data (transition_matrix kal) Ad) in
  Bd ← memcpy_fl (data (control_matrix kal)) (B_k dt_k) 4;
  let kal := set_control_matrix kal (with_data (control_matrix kal) Bd) in
  cvKalmanPredict kal (Some u).
End XtalBall.

(** One pass of the loop of [setup_kalman] for the filter [k = kal[i]]. *)
Definition setup_filter (h : heap) (x0 P0 : Z) (i : Z) (k : CvKalman val)
    : option (CvKalman val) :=
  let k := set_measurement_matrix k (cvSetIdentity (measurement_matrix k) (lit 1)) in
  let k := set_process_noise_cov k
             (cvSetIdentity (process_noise_cov k) (lit (1 # 10))) in
  let k := set_measurement_noise_cov k
             (cvSetIdentity (measurement_noise_cov k) (lit (1 # 100000))) in
  (* if(x0 && x0[i]) *)
  x0_i ← (if decide (x0 = 0) then Some 0 else load_ptr h (x0 + i));
  k ← (if decide (x0_i = 0) then
         Some (set_state_post k (cvZero (state_post k)))
       else
         src ← load_words h x0_i (Z.to_nat (DP k));
         d ← memcpy_fl (data (state_post k)) src (Z.to_nat (DP k));
         Some (set_state_post k (with_data (state_post k) d)));
  (* if(P0 && P0[i]) *)
  P0_i ← (if decide (P0 = 0) then Some 0 else load_ptr h (P0 + i));
  if decide (P0_i = 0) then
    Some (set_error_cov_post k (cvSetIdentity (error_cov_post k) (lit 100)))
  else
    (* memcpy(k->error_cov_post->data.fl, P0, ...): the source is [P0] *)
    src ← load_words h P0 (Z.to_nat (DP k * DP k));
    d ← memcpy_fl (data (error_cov_post k)) src (Z.to_nat (DP k * DP k));
    Some (set_error_cov_post k (with_data (error_cov_post k) d)).

Fixpoint setup_kalman_loop (h : heap) (x0 P0 : Z) (idx : list Z)
    (kal : list (option (CvKalman val))) : option (list (option (CvKalman val))) :=
  match idx with
  | [] => Some kal
  | i :: idx' =>
      slot ← kal !! Z.to_nat i;
      match slot with
      | None => setup_kalman_loop h x0 P0 idx' kal          (* continue *)
      | Some k =>
          k ← setup_filter h x0 P0 i k;
          setup_kalman_loop h x0 P0 idx' (<[Z.to_nat i := Some k]> kal)
      end
  end.

(** [setup_kalman(kal, n, x0, P0)]: [kal] is an array of [n] pointers to
    filters, [x0] and [P0] are the addresses of arrays of [n] pointers to
    floats (or [NULL]). *)
Definition setup_kalman (h : heap) (kal : list (option (CvKalman val))) (n : Z)
    (x0 P0 : Z) : option (list (option (CvKalman val))) :=
  setup_kalman_loop h x0 P0 (seqZ 0 n) kal.

(** ** Collecting chessboard views *)

Record Point2f (F : Type) := mkPoint2f { p2_x : F; p2_y : F }.
Arguments mkPoint2f {F}.
Arguments p2_x {F}.
Arguments p2_y {F}.

Record Point3f (F : Type) := mkPoint3f { p3_x : F; p3_y : F; p3_z : F }.
Arguments mkPoint3f {F}.
Arguments p3_x {F}.
Arguments p3_y {F}.
Arguments p3_z {F}.

Record CvSize := mkSize { width : Z; height : Z }.

(** The keys the routines look at. *)
Definition KEY_i : Z := 105.
Definition KEY_q : Z := 113.

(** One frame of the video source as a collection routine meets it: the
    image, what the chessboard detector answered for it (with the corners
    refined to sub-pixel accuracy when the board was found), and the key
    [waitKey] returned once the frame was on screen.  A source is the list of
    frames it can still deliver; the empty list is the exhausted source. *)
Record Frame (F : Type) := mkFrame {
  image : Z;
  found : bool;
  corners_found : Z;
  corners : list (Point2f F);
  key : Z
}.
Arguments mkFrame {F}.
Arguments image {F}.
Arguments found {F}.
Arguments corners_found {F}.
Arguments corners {F}.
Arguments key {F}.

(** *** [Calibration::getChessboardViews] (trunk) *)

Record Views (F : Type) := mkViews {
  pixel : list (list (Point2f F));
  world : list (list (Point3f F));
  save_views : bool;
  chessboards : list Z
}.
Arguments mkViews {F}.
Arguments pixel {F}.
Arguments world {F}.
Arguments save_views {F}.
Arguments chessboards {F}.

Record Calibration (F : Type) := mkCalibration {
  grid : CvSize;                 (* find_chessboard.grid *)
  views : Views F
}.
Arguments mkCalibration {F}.
Arguments grid {F}.
Arguments views {F}.

Section ChessboardViews.
Context {F : Type} `{Scalar F}.

(** C's [/] and [%] on [int] truncate towards zero: [Z.quot], [Z.rem]. *)
Definition world_point (cols i : Z) : Point3f F :=
  mkPoint3f (ofZ (Z.rem i cols)) (ofZ (Z.quot (- i) cols)) (ofZ 0).

(** The vector [world_loc] after the first loop. *)
Definition world_loc (g : CvSize) : list (Point3f F) :=
  let num_points := width g * height g in
  let cols := width g in
  world_point cols <$> seqZ 0 num_points.

Definition store_view (v : Views F) (wl : list (Point3f F)) (f : Frame F) : Views F :=
  mkViews (pixel v ++ [corners f]) (world v ++ [wl]) (save_views v)
    (if save_views v then chessboards v ++ [image f] else chessboards v).

(** The [while(good_imgs < n)] loop; the result is [good_imgs], the views
    and what is left of the source. *)
Fixpoint views_loop (cam : list (Frame F)) (n : Z) (prompt : bool)
    (wl : list (Point3f F)) (good_imgs : Z) (v : Views F)
    : Z * Views F * list (Frame F) :=
  if decide (good_imgs < n) then
    match cam with
    | [] => (good_imgs, v, [])                          (* img.empty() *)
    | f :: cam' =>
        let '(good_imgs, v) :=
          if found f then (good_imgs + 1, store_view v wl f) else (good_imgs, v) in
        if found f && prompt then
          if decide (key f = KEY_i) then views_loop cam' n prompt wl (good_imgs - 1) v
          else if decide (key f = KEY_q) then (good_imgs, v, cam')
          else views_loop cam' n prompt wl good_imgs v
        else if decide (key f = KEY_q) then (good_imgs, v, cam')
        else views_loop cam' n prompt wl good_imgs v
    end
  else (good_imgs, v, cam).

Definition getChessboardViews (c : Calibration F) (cam : list (Frame F)) (n : Z)
    (prompt : bool) : Z * Calibration F * list (Frame F) :=
  let '(r, v, rest) := views_loop cam n prompt (world_loc (grid c)) 0 (views c) in
  (r, mkCalibration (grid c) v, rest).
End ChessboardViews.

(** *** [grab_calib_grid] (LEDTracker) *)

(** The caller's buffers: image points, object points, point counts and the
    optional array of stored images. *)
Record GridBufs (F : Type) := mkGridBufs {
  ip : CvMat F;
  op : CvMat F;
  pc : CvMat Z;
  store_imgs : option (list Z)
}.
Arguments mkGridBufs {F}.
Arguments ip {F}.
Arguments op {F}.
Arguments pc {F}.
Arguments store_imgs {F}.

Section GrabCalibGrid.
Context {F : Type} `{Scalar F}.

(** The detector overwrites the head of the [corners] array. *)
Definition detect (f : Frame F) (buf : list (Point2f F)) : list (Point2f F) :=
  take (length buf) (corners f ++ drop (length (corners f)) buf).

(** The [for(i = 0; i < num_points; i++)] loop. *)
Fixpoint store_points (cols row0 : Z) (idx : list Z) (buf : list (Point2f F))
    (ip op : CvMat F) : option (CvMat F * CvMat F) :=
  match idx with
  | [] => Some (ip, op)
  | i :: idx' =>
      c ← buf !! Z.to_nat i;
      ip ← cvmSet ip (row0 + i) 0 (p2_x c);
      ip ← cvmSet ip (row0 + i) 1 (p2_y c);
      op ← cvmSet op (row0 + i) 0 (ofZ (Z.quot i cols));
      op ← cvmSet op (row0 + i) 1 (ofZ (Z.rem i cols));
      op ← cvmSet op (row0 + i) 2 (ofZ 0);
      store_points cols row0 idx' buf ip op
  end.

(** The body of [if(rc) { ... good_imgs++; }]. *)
Definition store_grid (cols num_points good_imgs : Z) (f : Frame F)
    (buf : list (Point2f F)) (b : GridBufs F) : option (GridBufs F) :=
  let row0 := good_imgs * num_points in
  pc' ← raw_set (pc b) good_imgs 0 (corners_found f);
  '(ip', op') ← store_points cols row0 (seqZ 0 num_points) buf (ip b) (op b);
  st' ← match store_imgs b with
        | None => Some None
        | Some l =>
            if decide (0 <= good_imgs < Z.of_nat (length l))
            then Some (Some (<[Z.to_nat good_imgs := image f]> l))
            else None
        end;
  Some (mkGridBufs ip' op' pc' st').
End GrabCalibGrid.

Section GrabCalibGridLoop.
Context {F : Type} `{Scalar F}.

(** The [while(good_imgs < num_imgs)] loop.  [None]: a store left its
    buffer. *)
Fixpoint grab_loop (capture : list (Frame F)) (cols num_points num_imgs : Z)
    (prompt : bool) (buf : list (Point2f F)) (good_imgs : Z) (b : GridBufs F)
    : option (Z * GridBufs F * list (Frame F)) :=
  if decide (good_imgs < num_imgs) then
    match capture with
    | [] => Some (good_imgs, b, [])                     (* img == NULL *)
    | f :: capture' =>
        let buf := detect f buf in
        '(good_imgs, b) ←
          (if found f then
             b ← store_grid cols num_points good_imgs f buf b;
             Some (good_imgs + 1, b)
           else Some (good_imgs, b));
        if found f && prompt then
          if decide (key f = KEY_i)
          then grab_loop capture' cols num_points num_imgs prompt buf (good_imgs - 1) b
          else grab_loop capture' cols num_points num_imgs prompt buf good_imgs b
        else
          if decide (key f = KEY_q) then Some (good_imgs, b, capture')
          else grab_loop capture' cols num_points num_imgs prompt buf good_imgs b
    end
  else Some (good_imgs, b, capture).

(** [grab_calib_grid(capture, grid_size, ip, op, pc, num_imgs, prompt,
    store_imgs)].  [gray_ok] tells whether [cvCreateImage] succeeded and
    [corners_buf] is the array [cvAlloc] returned ([None] for [NULL]). *)
Definition grab_calib_grid (capture : list (Frame F)) (grid_size : CvSize)
    (b : GridBufs F) (num_imgs : Z) (prompt : bool)
    (gray_ok : bool) (corners_buf : option (list (Point2f F)))
    : option (Z * GridBufs F * list (Frame F)) :=
  let rows := height grid_size in
  let cols := width grid_size in
  let num_points := rows * cols in
  match capture with
  | [] => Some (1, b, [])                               (* return !CV_OK *)
  | _ :: capture =>
      if negb gray_ok then Some (1, b, capture)         (* return !CV_OK *)
      else match corners_buf with
           | None => Some (- ENOMEM, b, capture)
           | Some buf => grab_loop capture cols num_points num_imgs prompt buf 0 b
           end
  end.
End GrabCalibGridLoop.

(** ** The tracking loop of [skeleton.cpp] *)

Definition FG_OK : Z := 0.
Definition THRESHOLD : Z := 254.
Definition NEXT_IMAGE : Z := 1.
Definition SEQ_LEN : Z := 2.

(** The four files of the camera model. *)
Definition A_xml : string := "TrackCamIntrinsics062810.xml".
Definition k_xml : string := "TrackCamDistortion062810.xml".
Definition R_xml : string := "TrackCamRotation062810.xml".
Definition T_xml : string := "TrackCamTranslation062810.xml".

(** The fields of [TrackingWindow] the program touches. *)
Record TrackingWindow := mkWindow {
  roi : Z;
  roi_w : Z;
  roi_h : Z;
  img_w : Z;
  img_h : Z;
  roi_xoff : Z;
  roi_yoff : Z;
  blob_xmin : Z;
  blob_ymin : Z;
  blob_xmax : Z;
  blob_ymax : Z;
  img : Z                      (* address of the pixel data, 0 for NULL *)
}.

Definition set_img (w : TrackingWindow) (p : Z) : TrackingWindow :=
  mkWindow (roi w) (roi_w w) (roi_h w) (img_w w) (img_h w) (roi_xoff w)
    (roi_yoff w) (blob_xmin w) (blob_ymin w) (blob_xmax w) (blob_ymax w) p.


(** What the frame grabber and the console answer during one iteration. *)
Record Grab := mkGrab {
  quit : bool;                 (* _kbhit() && _getch() == 'q' *)
  pic_nr : Z;                  (* Fg_getLastPicNumberBlocking *)
  tag_rc : Z;                  (* Fg_getParameter(FG_IMAGE_TAG) *)
  tag : Z;                     (*   and the tag it stored *)
  ts_rc : Z;                   (* Fg_getParameter(FG_TIMESTAMP) *)
  ts : Z;
  img_ptr : Z;                 (* Fg_getImagePtr *)
  comm_rc : Z                  (* write_comm *)
}.

(** The operating system and the devices at start-up. *)
Record Devices := mkDevices {
  set_priority_class : bool;
  set_thread_priority : bool;
  last_error : Z;              (* GetLastError() *)
  open_comm : Z;
  init_cam : Z;
  acquire_imgs : Z;
  deinit_cam : Z
}.

(** A 32-bit [unsigned int]. *)
Definition u32 (n : Z) : Z := n mod 2 ^ 32.

Section Skeleton.
Context {F : Type} `{Scalar F}.
Local Open Scope scalar_scope.

(** The image-processing library ([threshold], [erode], [position]) and
    [cvUndistortPoints] are not part of the sources.  The three routines
    work on the pixels behind [cur->img] and update the window; the pixels
    stay with the grab that delivered them. *)
Variable threshold : Grab -> TrackingWindow -> Z -> TrackingWindow.
Variable erode : Grab -> TrackingWindow -> TrackingWindow.
Variable position : Grab -> TrackingWindow -> TrackingWindow.
Variable undistort : CvMat F -> CvMat F -> F -> F -> F * F.

(** The locals of [main] that outlive start-up.  [wins] is
    [wins.windows]: an array inside the local struct [wins], a list here.
    Its length is fixed by [TrackingSequence] in the library's header; the
    slots [0 .. SEQ_LEN-1] are the configured windows, and an access beyond
    the array leaves defined behaviour. *)
Record Tracker := mkTracker {
  intrinsic : option (CvMat F);
  distortion : option (CvMat F);
  rot : option (CvMat F);
  trans : option (CvMat F);
  world_buf : option (CvMat F);
  distorted_buf : option (CvMat F);
  normalized_buf : option (CvMat F);
  depth : F;                               (* z *)
  wins : list TrackingWindow;
  img_nr : Z;
  sent : list (Z * F * F * Z)              (* what write_comm was given *)
}.

Inductive Startup :=
  | Exit (rc : Z)              (* main returned rc before the loop *)
  | Crash                      (* a null pointer was dereferenced *)
  | Ready (t : Tracker).

(** [main] up to the [while] loop.  [wins0] is the window array after
    [set_initial_positions]. *)
Definition startup (fs : Storage F) (dev : Devices) (wins0 : list TrackingWindow)
    : Startup :=
  let intrinsic := cvLoad fs A_xml in
  if intrinsic is None then Exit (- EBADF) else
  let distortion := cvLoad fs k_xml in
  if distortion is None then Exit (- EBADF) else
  let rot := cvLoad fs R_xml in
  if rot is None then Exit (- EBADF) else
  let trans := cvLoad fs T_xml in
  if rot is None then Exit (- EBADF) else               (* if(rot == NULL) *)
  let world := cvCreateMat fs 0%nat 3 1 1 in
  if world is None then Exit (- ENOMEM) else
  let normalized := cvCreateMat fs 1%nat 1 1 2 in
  if normalized is None then Exit (- ENOMEM) else
  let distorted := cvCreateMat fs 2%nat 1 1 2 in
  if distorted is None then Exit (- ENOMEM) else
  if negb (set_priority_class dev) then Exit (last_error dev) else
  if negb (set_thread_priority dev) then Exit (last_error dev) else
  if negb (open_comm dev =? FG_OK) then Exit (open_comm dev) else
  if negb (init_cam dev =? FG_OK) then Exit (init_cam dev) else
  if negb (acquire_imgs dev =? FG_OK) then Exit (acquire_imgs dev) else
  (* z = CV_MAT_ELEM( *trans, float, 2, 0) *)
  match trans ≫= (fun t => raw_get t 2 0) with
  | None => Crash
  | Some z =>
      Ready (mkTracker intrinsic distortion rot trans world distorted normalized
               z wins0 1 [])
  end.

Inductive Step :=
  | Continue (t : Tracker)
  | Break (t : Tracker)
  | Fault.

Definition with_wins (t : Tracker) (nr : Z) (w : list TrackingWindow) : Tracker :=
  mkTracker (intrinsic t) (distortion t) (rot t) (trans t) (world_buf t)
    (distorted_buf t) (normalized_buf t) (depth t) w nr (sent t).

(** The conversion "from pixels to units of measurement" in the loop. *)
Definition to_world (t : Tracker) (cur : TrackingWindow)
    : option ((F * F) * Tracker) :=
  A ← intrinsic t; k ← distortion t; R ← rot t; T ← trans t;
  world ← world_buf t; distorted ← distorted_buf t; normalized ← normalized_buf t;
  distorted ← fl_set distorted 0
    (ofZ (roi_xoff cur) ⊕ ofZ (blob_xmin cur + blob_xmax cur) ⊘ lit 2);
  distorted ← fl_set distorted 1
    (ofZ (roi_yoff cur) ⊕ ofZ (blob_ymin cur + blob_ymax cur) ⊘ lit 2);
  '(world, normalized) ←
    back_project undistort A k R T world distorted normalized
      (depth t) (depth t ⊗ ofZ 1);
  x ← raw_get world 0 0;
  y ← raw_get world 1 0;
  Some ((x, y),
        mkTracker (Some A) (Some k) (Some R) (Some T) (Some world)
          (Some distorted) (Some normalized) (depth t) (wins t) (img_nr t)
          (sent t)).

(** One pass through the body of the [while] loop. *)
Definition iteration (t : Tracker) (g : Grab) : Step :=
  if quit g then Break t else
  let nr := u32 (pic_nr g) in
  let t := with_wins t nr (wins t) in
  if negb (tag_rc g =? FG_OK) then Break t else
  if negb (ts_rc g =? FG_OK) then Break t else
  (* get roi associated with image and point to image data *)
  let cur_roi := Z.shiftr (u32 (tag g)) 16 in
  match wins t !! Z.to_nat cur_roi with
  | None => Fault                       (* cur->img = ... beyond the array *)
  | Some w =>
      let cur := set_img w (img_ptr g) in
      let t := with_wins t nr (<[Z.to_nat cur_roi := cur]> (wins t)) in
      if decide (img cur = 0) then Break t else
      let cur := position g (erode g (threshold g cur THRESHOLD)) in
      let t := with_wins t nr (<[Z.to_nat cur_roi := cur]> (wins t)) in
      match to_world t cur with
      | None => Fault
      | Some ((x, y), t) =>
          let t := mkTracker (intrinsic t) (distortion t) (rot t) (trans t)
                     (world_buf t) (distorted_buf t) (normalized_buf t) (depth t)
                     (wins t) (img_nr t)
                     (sent t ++ [(cur_roi, x, y, u32 (ts g))]) in
          if negb (comm_rc g =? FG_OK) then Break t
          else Continue (with_wins t (u32 (nr + NEXT_IMAGE)) (wins t))
      end
  end.

(** The loop over what the grabber delivers; [Continue] at the end of the
    list: the loop is still running when the grabs given are used up. *)
Fixpoint tracking_loop (t : Tracker) (gs : list Grab) : Step :=
  match gs with
  | [] => Continue t
  | g :: gs' =>
      match iteration t g with
      | Continue t' => tracking_loop t' gs'
      | r => r
      end
  end.

Inductive Run :=
  | Exited (rc : Z)            (* main returned rc *)
  | Crashed
  | Running (t : Tracker).     (* still in the loop after the given grabs *)

(** [main] against the grabs [gs]. *)
Definition main (fs : Storage F) (dev : Devices) (wins0 : list TrackingWindow)
    (gs : list Grab) : Run :=
  match startup fs dev wins0 with
  | Exit rc => Exited rc
  | Crash => Crashed
  | Ready t =>
      match tracking_loop t gs with
      | Fault => Crashed
      | Break _ => Exited (if deinit_cam dev =? FG_OK then FG_OK else deinit_cam dev)
      | Continue t => Running t
      end
  end.
End Skeleton.

(** ** [TDahMe3Fc::getROILoc] *)

Record ROILoc := mkROILoc {
  loc_ts : Z;
  loc_img_nr : Z;
  loc_roi_nr : Z
}.

(** What the grabber answers to [getROILoc]. *)
Record FgAnswer := mkFgAnswer {
  act_nr : Z;                  (* Fg_getLastPicNumberBlocking *)
  image_tag_rc : Z;
  image_tag : Z;               (* a 32-bit int *)
  timestamp_rc : Z;
  timestamp : Z;
  image_ptr : Z;               (* Fg_getImagePtr *)
  last_error_number : Z
}.

(** Arithmetic shift of a 32-bit [int]. *)
Definition s32 (n : Z) : Z := (n + 2 ^ 31) mod 2 ^ 32 - 2 ^ 31.

Section ROILocation.
(** [updateROILoc(cur_roi, gr_img, r, frame_time)] belongs to the base
    class [TDah], which is not part of the sources.  It is given the ROI
    id, the image just delivered, the record [r], which it may change, and
    the frame time. *)
Variable updateROILoc : Z -> Z -> ROILoc -> Q -> ROILoc.

(** [getROILoc(img_nr, r)]: the return code, the location record and the
    array [gr] of per-ROI images (an entry is [None] for a null pointer,
    and otherwise tells which frame buffer the image was last copied
    from).  [None]: [gr[cur_roi]] is outside the array or null. *)
Definition getROILoc (a : FgAnswer) (gr : list (option Z)) (r : ROILoc)
    (frame_time : Q) : option (Z * ROILoc * list (option Z)) :=
  if act_nr a <? FG_OK then Some (last_error_number a, r, gr) else
  if negb (image_tag_rc a =? FG_OK) then Some (last_error_number a, r, gr) else
  let cur_roi := Z.shiftr (s32 (image_tag a)) 16 in
  if negb (timestamp_rc a =? FG_OK) then Some (last_error_number a, r, gr) else
  (* cvSetImageROI(gr_img, cvGetImageROI(gr[cur_roi])); cvCopyImage(...) *)
  if decide (0 <= cur_roi) then
    match gr !! Z.to_nat cur_roi with
    | Some (Some _) =>
        let gr := <[Z.to_nat cur_roi := Some (image_ptr a)]> gr in
        let r := mkROILoc (timestamp a) (act_nr a) cur_roi in
        Some (act_nr a, updateROILoc cur_roi (image_ptr a) r frame_time, gr)
    | _ => None
    end
  else None.
End ROILocation.

(** The buffers [get_camera_intrinsics] hands to [grab_calib_grid]: room
    for [num_imgs] views of [num_points] points each. *)
Definition bufs_fit {F} (b : GridBufs F) (num_imgs num_points : Z) : Prop :=
  has_shape (ip b) (num_imgs * num_points) 2 /\
  has_shape (op b) (num_imgs * num_points) 3 /\
  has_shape (pc b) num_imgs 1 /\
  match store_imgs b with
  | None => True
  | Some l => num_imgs <= Z.of_nat (length l)
  end.

(** The number of frames of a source in which the detector finds the
    board. *)
Definition boards {F} (cam : list (Frame F)) : Z :=
  Z.of_nat (length (filter (fun f => found f = true) cam)).

(** No frame of the source is answered with 'i' or 'q'. *)
Definition no_keys {F} (cam : list (Frame F)) : Prop :=
  forall f, f ∈ cam -> key f <> KEY_i /\ key f <> KEY_q.

(** The view slots below [good_imgs] hold the object points of the grid as
    [grab_calib_grid] writes them. *)
Definition slots_filled {F} `{Scalar F} (cols num_points : Z) (b : GridBufs F)
    (good_imgs : Z) : Prop :=
  forall j i, 0 <= j < good_imgs -> 0 <= i < num_points ->
    cvmGet (op b) (j * num_points + i) 0 = Some (ofZ (i / cols)) /\
    cvmGet (op b) (j * num_points + i) 1 = Some (ofZ (i mod cols)) /\
    cvmGet (op b) (j * num_points + i) 2 = Some (ofZ 0).

(** ** [prediction] without its control input *)

(** [prediction] up to the return of [cvKalmanPredict], had the call been
    [cvKalmanPredict(kal, NULL)]: the step with the control term left out,
    with which the step of the code is compared below. *)
Definition prediction_prior_no_control (kal : CvKalman val) (dt_k : val)
    : option (CvKalman val) :=
  Ad ← memcpy_fl (data (transition_matrix kal)) (A_k dt_k) 16;
  let kal := set_transition_matrix kal (with_data (transition_matrix kal) Ad) in
  Bd ← memcpy_fl (data (control_matrix kal)) (B_k dt_k) 4;
  let kal := set_control_matrix kal (with_data (control_matrix kal) Bd) in
  cvKalmanPredict kal None.

(** ** [get_camera_intrinsics] *)

Section CameraIntrinsics.
Local Open Scope string_scope.

(** [get_camera_intrinsics] calls [grab_calib_grid] with six arguments; the
    defaults of [prompt] and [store_imgs] are declared in [t_dah.h]. *)
Variable prompt_default : bool.
Variable store_imgs_default : option (list Z).

(** [cvCalibrateCamera2(object_points, image_points, point_counts,
    image_size, intrinsic_matrix, distortion_coeffs)]: the two matrices it
    fills.  The image stands for its size. *)
Variable cvCalibrateCamera2 :
  CvMat val -> CvMat val -> CvMat Z -> Z -> CvMat val -> CvMat val ->
  CvMat val * CvMat val.

(** What the cells of the uninitialised [point_counts] happen to hold. *)
Variable junk : nat -> Z.

(** [get_camera_intrinsics(capture, rows, cols, num_images, origin, theta)]:
    the return code, the files written by [cvSave] and what is left of the
    source.  [origin] and [theta] only enter [trans], which is used in a
    line that is commented out.  The three [cvCreateMat] are modelled for
    positive sizes, which is what the statements below assume. *)
Definition get_camera_intrinsics (capture : list (Frame val))
    (rows cols num_images : Z)
    (gray_ok : bool) (corners_buf : option (list (Point2f val)))
    : option (Z * list (string * CvMat val) * list (Frame val)) :=
  let num_points := rows * cols in
  let size := mkSize cols rows in
  let image_points := fresh (num_images * num_points) 2 in
  let object_points := fresh (num_images * num_points) 3 in
  let point_counts :=
    mkMat num_images 1 (junk <$> seq 0 (Z.to_nat num_images)) in
  (* grab an image so we know the image size *)
  match capture with
  | [] => None                                          (* cvGetSize(NULL) *)
  | img :: capture =>
      '(rc, b, capture) ←
        grab_calib_grid capture size
          (mkGridBufs image_points object_points point_counts store_imgs_default)
          num_images prompt_default gray_ok corners_buf;
      if decide (rc <> num_images) then Some (- rc, [], capture)
      else
        let distortion_coeffs := cvZero (fresh 4 1) in
        let intrinsic_matrix := cvZero (fresh 3 3) in
        let '(intrinsic_matrix, distortion_coeffs) :=
          cvCalibrateCamera2 (op b) (ip b) (pc b) (image img)
            intrinsic_matrix distortion_coeffs in
        Some (CV_OK,
              [("Intrinsics.xml", intrinsic_matrix);
               ("Distortion.xml", distortion_coeffs)],
              capture)
  end.
End CameraIntrinsics.

(** ** Well-formed surroundings *)

(** The allocator returns buffers of the size asked for. *)
Definition alloc_ok {F} (fs : Storage F) : Prop :=
  forall n r c ch m, cvCreateMat fs n r c ch = Some m ->
    length (data m) = Z.to_nat (r * c * ch) /\
    (ch = 1 -> rows m = r /\ cols m = c).

(** The sizes [cvUndistortPoints] accepts for the distortion
    coefficients. *)
Definition dist_ok {E} (k : CvMat E) : Prop :=
  has_shape k 4 1 \/ has_shape k 1 4 \/ has_shape k 5 1 \/ has_shape k 1 5.

(** The camera model and the scratch buffers of the tracking loop have the
    sizes the loop relies on. *)
Definition model_ok {F} (t : Tracker (F := F)) : Prop :=
  (exists A, intrinsic t = Some A /\ has_shape A 3 3) /\
  (exists k, distortion t = Some k /\ dist_ok k) /\
  (exists R, rot t = Some R /\ has_shape R 3 3) /\
  (exists T, trans t = Some T /\ has_shape T 3 1) /\
  (exists w, world_buf t = Some w /\ has_shape w 3 1) /\
  (exists d, distorted_buf t = Some d /\ length (data d) = 2%nat) /\
  (exists n, normalized_buf t = Some n /\ length (data n) = 2%nat).

(** What one grab announces to [write_comm]: the ROI id of its tag and
    its time stamp. *)
Definition announced (g : Grab) : Z * Z :=
  (Z.shiftr (u32 (tag g)) 16, u32 (ts g)).

(** Slot [j] of the buffers of [grab_calib_grid] holds the view [f]: its
    corner count and the pixel coordinates of its corners. *)
Definition view_stored {F} (num_points : Z) (b : GridBufs F) (j : Z)
    (f : Frame F) : Prop :=
  raw_get (pc b) j 0 = Some (corners_found f) /\
  forall i c, 0 <= i < num_points -> corners f !! Z.to_nat i = Some c ->
    cvmGet (ip b) (j * num_points + i) 0 = Some (p2_x c) /\
    cvmGet (ip b) (j * num_points + i) 1 = Some (p2_y c).

(** The frames of a source that show the board. *)
Definition found_frames {F} (cam : list (Frame F)) : list (Frame F) :=
  filter (fun f => found f = true) cam.

(** ** Worked inputs

    Concrete cameras, filters, memories and frame sources on which the
    models are run in the examples below. *)

Section Pinhole.
Context {F : Type} `{Scalar F}.
Local Open Scope scalar_scope.

(** [cvUndistortPoints] for a lens without distortion:
    [((x - cx) / fx, (y - cy) / fy)]. *)
Definition undistort_pinhole (A k : CvMat F) (x y : F) : F * F :=
  ((x ⊖ mat_at A 0 2) ⊘ mat_at A 0 0, (y ⊖ mat_at A 1 2) ⊘ mat_at A 1 1).
End Pinhole.

Definition floats (l : list Q) : list val := Vfloat <$> l.

Definition cam_A : CvMat val :=
  mkMat 3 3 (floats [500; 0; 512;  0; 500; 512;  0; 0; 1]%Q).
Definition cam_k : CvMat val := mkMat 4 1 (floats [0; 0; 0; 0]%Q).
(** A quarter turn about the optical axis. *)
Definition cam_R : CvMat val :=
  mkMat 3 3 (floats [0; -1; 0;  1; 0; 0;  0; 0; 1]%Q).
Definition cam_T : CvMat val := mkMat 3 1 (floats [1; 2; 10]%Q).

(** A disk that holds all four matrices, and one whose translation file is
    missing; allocation always succeeds. *)
Definition disk_full : Storage val :=
  mkStorage
    (fun name =>
       if String.eqb name A_xml then Some cam_A
       else if String.eqb name k_xml then Some cam_k
       else if String.eqb name R_xml then Some cam_R
       else if String.eqb name T_xml then Some cam_T
       else None)
    (fun _ r c ch => Some (fresh r (c * ch))).

Definition disk_no_translation : Storage val :=
  mkStorage
    (fun name =>
       if String.eqb name A_xml then Some cam_A
       else if String.eqb name k_xml then Some cam_k
       else if String.eqb name R_xml then Some cam_R
       else None)
    (fun _ r c ch => Some (fresh r (c * ch))).

Definition no_frame : WorldFrame val :=
  mkWorldFrame None None None None None None None.

Definition world_frame0 : WorldFrame val :=
  (setup_world_frame disk_full A_xml k_xml R_xml T_xml no_frame).2.

Definition devices_ok : Devices := mkDevices true true 0 0 0 0 0.

(** Two windows of 64x64 pixels near the initial blobs of
    [skeleton.cpp]: an array of just the configured windows, and one with
    room for ten, the others zero as [memset] leaves them. *)
Definition window0 : TrackingWindow :=
  mkWindow 0 64 64 1024 1024 416 556 18 16 48 46 0.
Definition window1 : TrackingWindow :=
  mkWindow 1 64 64 1024 1024 576 564 16 19 46 49 0.
Definition zero_window : TrackingWindow :=
  mkWindow 0 0 0 0 0 0 0 0 0 0 0 0.
Definition wins0 : list TrackingWindow := [window0; window1].
Definition wins10 : list TrackingWindow := wins0 ++ replicate 8 zero_window.

(** An image-processing library that finds the blob where it was. *)
Definition still_threshold (_ : Grab) (w : TrackingWindow) (_ : Z)
    : TrackingWindow := w.
Definition still (_ : Grab) (w : TrackingWindow) : TrackingWindow := w.

(** A frame tagged for ROI 9 while two windows are configured. *)
Definition grab_roi9 : Grab :=
  mkGrab false 1 0 (9 * 65536) 0 1234 4096 0.

(** A filter of the tracker's dimensions (x, y, vx, vy; measured x, y) as
    [cvCreateKalman(4, 2, 1)] allocates it. *)
Definition blank_kalman : CvKalman val :=
  mkKalman 2 4 1 (fresh 4 1) (fresh 4 1) (fresh 4 4) (fresh 4 1) (fresh 2 4)
    (fresh 4 4) (fresh 2 2) (fresh 4 4) (fresh 4 2) (fresh 4 4).

Definition poke (h : heap) (a : Z) (l : list val) : heap :=
  fun b => if decide (a <= b < a + Z.of_nat (length l))
           then default Vundef (l !! Z.to_nat (b - a)) else h b.

Definition empty_heap : heap := fun _ => Vundef.

(** An initial guess (x, y, vx, vy) = (0, 10, 0, 3) at address 32, the
    table [x0] at 16, the measurement (0, 13) at 48. *)
Definition heap_x0 : heap :=
  poke (poke (poke empty_heap 16 [Vptr 32]) 32 (floats [0; 10; 0; 3]%Q))
    48 (floats [0; 13]%Q).

(** An initial covariance [2 I] at address 200 and the table [P0] at 100. *)
Definition P0_0 : list val :=
  floats [2; 0; 0; 0;  0; 2; 0; 0;  0; 0; 2; 0;  0; 0; 0; 2]%Q.
Definition heap_P0 : heap :=
  poke (poke empty_heap 100 [Vptr 200]) 200 P0_0.

(** Frames of a 3x2 board: a view with its six corners, the same view with
    the key 'i' pressed on it, and a frame without a board. *)
Definition six_corners (dx : Q) : list (Point2f val) :=
  (fun c : Q * Q => mkPoint2f (Vfloat (c.1 + dx)) (Vfloat c.2)) <$>
    [(10, 10); (20, 10); (30, 10); (10, 20); (20, 20); (30, 20)]%Q.
Definition board (id : Z) (dx : Q) (key : Z) : Frame val :=
  mkFrame id true 6 (six_corners dx) key.
Definition no_board (id : Z) : Frame val := mkFrame id false 0 [] (-1).

Definition grid32 : CvSize := mkSize 3 2.
Definition calib0 : Calibration val :=
  mkCalibration grid32 (mkViews [] [] false []).

(** Buffers for [num_imgs] views of [num_points] points, as
    [get_camera_intrinsics] allocates them. *)
Definition grid_bufs (num_imgs num_points : Z) : GridBufs val :=
  mkGridBufs (fresh (num_imgs * num_points) 2) (fresh (num_imgs * num_points) 3)
    (mkMat num_imgs 1 (replicate (Z.to_nat num_imgs) 0)) None.

Definition corner_buf (num_points : Z) : list (Point2f val) :=
  replicate (Z.to_nat num_points) (mkPoint2f Vundef Vundef).

(** The tracker as [main] enters the loop with the full disk. *)
Definition tracker0 : Tracker (F := val) :=
  mkTracker (Some cam_A) (Some cam_k) (Some cam_R) (Some cam_T)
    (Some (fresh 3 1)) (Some (fresh 1 2)) (Some (fresh 1 2))
    (Vfloat 10) wins0 1 [].

(** The filter [setup_kalman] makes of [blank_kalman] with the initial
    guess of [heap_x0] and no initial covariance. *)
Definition kal_x0 : CvKalman val :=
  match setup_kalman heap_x0 [Some blank_kalman] 1 16 0 with
  | Some [Some k] => k
  | _ => blank_kalman
  end.

(** A source that shows the board twice, with a frame without it in
    between, and nobody at the keyboard. *)
Definition two_boards : list (Frame val) :=
  [board 1 0 (-1); no_board 2; board 3 5 (-1)].

(** The first view is answered with 'i', the second is kept. *)
Definition ignore_then_keep : list (Frame val) :=
  [board 1 0 KEY_i; board 2 5 (-1)].

(** A disk without any calibration file. *)
Definition disk_empty : Storage val :=
  mkStorage (fun _ => None) (fun _ r c ch => Some (fresh r (c * ch))).

Definition answer_roi9 : FgAnswer :=
  mkFgAnswer 7 0 (9 * 65536) 0 99 4096 0.

(** An [updateROILoc] that leaves the record as it gets it, and the two
    per-ROI images of a two-window configuration. *)
Definition keep_loc (_ _ : Z) (r : ROILoc) (_ : Q) : ROILoc := r.
Definition two_images : list (option Z) := [Some 0; Some 0].

(** A bank of three filter pointers, the second of them [NULL]. *)
Definition bank3 : list (option (CvKalman val)) :=
  [Some blank_kalman; None; Some blank_kalman].

(** A calibration routine that leaves the two matrices as it gets them,
    and cells of [point_counts] that happen to hold zero. *)
Definition calibrate_none (_ _ : CvMat val) (_ : CvMat Z) (_ : Z)
    (A k : CvMat val) : CvMat val * CvMat val := (A, k).
Definition no_junk (_ : nat) : Z := 0.

(** Two frames without the board, then [two_boards]. *)
Definition calib_source : list (Frame val) :=
  no_board 10 :: no_board 11 :: two_boards.

(** Frames tagged for ROI 0 and ROI 1, and one on which 'q' is pressed. *)
Definition grab_roi0 : Grab :=
  mkGrab false 1 0 (0 * 65536) 0 1234 4096 0.
Definition grab_roi1 : Grab :=
  mkGrab false 2 0 (1 * 65536) 0 1250 8192 0.
Definition grab_quit : Grab :=
  mkGrab true 0 0 0 0 0 0 0.

(** * Properties *)

(** ** Matrices *)

Lemma shape_data {E} (m : CvMat E) r c :
  has_shape m r c -> exists d, m = mkMat r c d /\ length d = Z.to_nat (r * c).
Proof.
  destruct m as [r' c' d]. unfold has_shape. simpl.
  intros (<- & <- & Hl). eauto.
Qed.

(** ** The camera model *)

Section CameraModelFacts.
Context {F : Type} `{Scalar F}.
Variable undistort : CvMat F -> CvMat F -> F -> F -> F * F.

(** C1.  [pixel2world(p, z)] is the composition the specification
    describes: undistort the pixel with the intrinsic matrix and the
    distortion coefficients, form the camera-frame point [(z nx, z ny, z)],
    subtract the translation, multiply by the transposed rotation, and
    return the x and y components.  The camera model is left as
    [setup_world_frame] loaded it. *)
Theorem pixel2world_is_composition (g : WorldFrame F) A k R T p z :
  frame_ready g A k R T ->
  exists g',
    pixel2world undistort g p z =
      Some (pixelToWorld_spec undistort A k R T (ofZ (pt_x p)) (ofZ (pt_y p)) z, g')
    /\ wf_A g' = Some A /\ wf_k g' = Some k
    /\ wf_R g' = Some R /\ wf_T g' = Some T.
Proof.
  intros (HA & Hk & HR & SR & HT & ST & (w & Hw & Sw) & (d & Hd & Ld) & (n & Hn & Ln)).
  apply shape_data in SR as (dR & -> & LR).
  apply shape_data in ST as (dT & -> & LT).
  apply shape_data in Sw as (dw & -> & Lw).
  destruct d as [dr dc dd], n as [nr nc nd]. simpl in Ld, Ln.
  change (Z.to_nat (3 * 3)) with 9%nat in LR.
  change (Z.to_nat (3 * 1)) with 3%nat in LT, Lw.
  do 10 (destruct dR as [|? dR]; try discriminate LR).
  do 4 (destruct dT as [|? dT]; try discriminate LT).
  do 4 (destruct dw as [|? dw]; try discriminate Lw).
  do 3 (destruct dd as [|? dd]; try discriminate Ld).
  do 3 (destruct nd as [|? nd]; try discriminate Ln).
  unfold pixel2world. rewrite HA, Hk, HR, HT, Hw, Hd, Hn.
  match goal with |- exists g', ?lhs = Some (?rhs, _) /\ _ =>
    set (r := lhs); set (s := rhs) end.
  vm_compute in r, s. subst r s.
  destruct (undistort A k _ _) as [nx ny].
  eexists. split; [reflexivity|]. cbn. auto.
Qed.

(** [setup_world_frame] reports success exactly when all four matrices
    load and each of its three allocations succeeds; every one of the seven
    tests counts. *)
Lemma setup_world_frame_ok (fs : Storage F) fa fk fr ft g0 :
  (setup_world_frame fs fa fk fr ft g0).1 = CV_OK <->
  is_Some (cvLoad fs fa) /\ is_Some (cvLoad fs fk) /\
  is_Some (cvLoad fs fr) /\ is_Some (cvLoad fs ft) /\
  is_Some (cvCreateMat fs 0%nat 3 1 1) /\
  is_Some (cvCreateMat fs 1%nat 1 1 2) /\
  is_Some (cvCreateMat fs 2%nat 1 1 2).
Proof.
  unfold setup_world_frame. simpl.
  destruct (cvLoad fs fa), (cvLoad fs fk), (cvLoad fs fr), (cvLoad fs ft),
    (cvCreateMat fs 0%nat 3 1 1), (cvCreateMat fs 1%nat 1 1 2),
    (cvCreateMat fs 2%nat 1 1 2); simpl;
    unfold CV_OK, EBADF, ENOMEM; (split; [intros E | intros (?&?&?&?&?&?&?)]);
    try discriminate E; try reflexivity;
    try (repeat split; eauto; fail);
    repeat match goal with X : is_Some None |- _ =>
      destruct (is_Some_None X) end.
Qed.

Lemma setup_world_frame_loaded (fs : Storage F) fa fk fr ft g0 :
  (setup_world_frame fs fa fk fr ft g0).1 = CV_OK ->
  let g := (setup_world_frame fs fa fk fr ft g0).2 in
  wf_A g = cvLoad fs fa /\ wf_k g = cvLoad fs fk /\
  wf_R g = cvLoad fs fr /\ wf_T g = cvLoad fs ft /\
  is_Some (wf_A g) /\ is_Some (wf_k g) /\ is_Some (wf_R g) /\ is_Some (wf_T g).
Proof.
  unfold setup_world_frame. simpl.
  destruct (cvLoad fs fa), (cvLoad fs fk), (cvLoad fs fr), (cvLoad fs ft),
    (cvCreateMat fs 0%nat 3 1 1), (cvCreateMat fs 1%nat 1 1 2),
    (cvCreateMat fs 2%nat 1 1 2); simpl;
    unfold CV_OK, EBADF, ENOMEM; try discriminate;
    intros _; repeat split; eauto.
Qed.

Lemma setup_world_frame_missing (fs : Storage F) fa fk fr ft g0 :
  cvLoad fs fa = None \/ cvLoad fs fk = None \/
  cvLoad fs fr = None \/ cvLoad fs ft = None ->
  (setup_world_frame fs fa fk fr ft g0).1 = - EBADF.
Proof.
  unfold setup_world_frame. simpl.
  destruct (cvLoad fs fa), (cvLoad fs fk), (cvLoad fs fr), (cvLoad fs ft);
    simpl; intros [?|[?|[?|?]]]; try discriminate; reflexivity.
Qed.

(** A model that is not fully loaded cannot be projected with. *)
Lemma pixel2world_needs_model (g : WorldFrame F) p z :
  wf_A g = None \/ wf_k g = None \/ wf_R g = None \/ wf_T g = None ->
  pixel2world undistort g p z = None.
Proof.
  unfold pixel2world.
  destruct (wf_A g), (wf_k g), (wf_R g), (wf_T g); simpl;
    intros [?|[?|[?|?]]]; try discriminate; reflexivity.
Qed.
End CameraModelFacts.

Lemma world_frame0_ready : frame_ready world_frame0 cam_A cam_k cam_R cam_T.
Proof.
  unfold frame_ready, has_shape. vm_compute.
  repeat split; eauto.
Qed.

Lemma pixel2world_is_composition_witness :
  frame_ready world_frame0 cam_A cam_k cam_R cam_T /\
  exists g',
    pixel2world undistort_pinhole world_frame0 (mkPoint 612 412) (Vfloat 10) =
      Some (pixelToWorld_spec undistort_pinhole cam_A cam_k cam_R cam_T
              (ofZ 612) (ofZ 412) (Vfloat 10), g')
    /\ wf_A g' = Some cam_A /\ wf_k g' = Some cam_k
    /\ wf_R g' = Some cam_R /\ wf_T g' = Some cam_T.
Proof.
  split; [exact world_frame0_ready |].
  exact (pixel2world_is_composition undistort_pinhole world_frame0
           cam_A cam_k cam_R cam_T (mkPoint 612 412) (Vfloat 10)
           world_frame0_ready).
Defined.

(** The world point of that pixel, computed: the ray through (612, 412)
    meets the plane 10 in front of the camera at (2, -2, 10); less the
    translation, turned back: (-4, -1). *)
Example pixel2world_value :
  fst <$> pixel2world undistort_pinhole world_frame0 (mkPoint 612 412) (Vfloat 10)
  = Some (Vfloat (-4), Vfloat (-1)).
Proof. vm_compute. reflexivity. Qed.

(** ** Start-up of [skeleton.cpp] *)

Section StartupFacts.
Context {F : Type} `{Scalar F}.

(** The first three loads are checked. *)
Lemma startup_checks_first_three (fs : Storage F) dev w :
  cvLoad fs A_xml = None \/ cvLoad fs k_xml = None \/ cvLoad fs R_xml = None ->
  startup fs dev w = Exit (- EBADF).
Proof.
  unfold startup, A_xml, k_xml, R_xml.
  intros [E|[E|E]]; rewrite E;
    repeat match goal with |- context [cvLoad fs ?n] =>
      destruct (cvLoad fs n) end; reflexivity.
Qed.

(** The fourth is not: the test after it looks at [rot] again.  With
    everything else in order the program goes on to the cast of
    [trans] and dereferences the null pointer. *)
Lemma startup_translation_unchecked (fs : Storage F) dev w :
  is_Some (cvLoad fs A_xml) -> is_Some (cvLoad fs k_xml) ->
  is_Some (cvLoad fs R_xml) -> cvLoad fs T_xml = None ->
  is_Some (cvCreateMat fs 0%nat 3 1 1) -> is_Some (cvCreateMat fs 1%nat 1 1 2) ->
  is_Some (cvCreateMat fs 2%nat 1 1 2) ->
  set_priority_class dev = true -> set_thread_priority dev = true ->
  open_comm dev = FG_OK -> init_cam dev = FG_OK -> acquire_imgs dev = FG_OK ->
  startup fs dev w = Crash.
Proof.
  unfold startup, A_xml, k_xml, R_xml, T_xml.
  intros [a ->] [k ->] [r ->] -> [m1 ->] [m2 ->] [m3 ->] -> -> -> -> ->.
  reflexivity.
Qed.
End StartupFacts.

Lemma startup_ready : startup disk_full devices_ok wins0 = Ready tracker0.
Proof. reflexivity. Qed.

(** C5, at the failing input.  The intrinsic, distortion and rotation
    files load and the translation file is missing: [setup_world_frame]
    answers [-EBADF], while [main] of [skeleton.cpp] passes its four tests,
    opens the port and the camera, and crashes on the null [trans] instead
    of returning an error. *)
Theorem startup_missing_translation :
  cvLoad disk_no_translation T_xml = None /\
  (setup_world_frame disk_no_translation A_xml k_xml R_xml T_xml no_frame).1
    = - EBADF /\
  startup disk_no_translation devices_ok wins0 = Crash /\
  main still_threshold still still undistort_pinhole
    disk_no_translation devices_ok wins0 [grab_roi9] = Crashed.
Proof. repeat split. Qed.

(** ** The tracking loop *)

Lemma u32_shift_range n : 0 <= Z.shiftr (u32 n) 16 < 65536.
Proof.
  unfold u32. rewrite Z.shiftr_div_pow2 by lia.
  assert (0 <= n mod 2 ^ 32 < 2 ^ 32) by (apply Z.mod_pos_bound; lia).
  split.
  - apply Z.div_pos; lia.
  - apply Z.div_lt_upper_bound; lia.
Qed.

Section LoopFacts.
Context {F : Type} `{Scalar F}.
Variable threshold : Grab -> TrackingWindow -> Z -> TrackingWindow.
Variable erode : Grab -> TrackingWindow -> TrackingWindow.
Variable position : Grab -> TrackingWindow -> TrackingWindow.
Variable undistort : CvMat F -> CvMat F -> F -> F -> F * F.

(** An id at or beyond the end of the array is not compared with anything:
    the iteration goes on to write through [&wins.windows[cur_roi]]. *)
Lemma iteration_out_of_bounds (t : Tracker) (g : Grab) :
  quit g = false -> tag_rc g = FG_OK -> ts_rc g = FG_OK ->
  Z.of_nat (length (wins t)) <= Z.shiftr (u32 (tag g)) 16 ->
  iteration threshold erode position undistort t g = Fault.
Proof.
  intros Hq Htag Hts Hlen. unfold iteration.
  rewrite Hq, Htag, Hts, Z.eqb_refl. cbn [negb]. cbv zeta.
  change (wins (with_wins t (u32 (pic_nr g)) (wins t))) with (wins t).
  rewrite (lookup_ge_None_2 (wins t)) by lia. reflexivity.
Qed.
End LoopFacts.

(** C4, at the failing input.  Two windows are configured and a frame
    arrives whose tag names ROI 9, with a valid image.  The loop does not
    end with an error before a window is touched: the id is compared with
    nothing and [cur->img] is written through [&wins.windows[9]].  On the
    array of the two configured windows that write is out of bounds; on an
    array with room for ten windows the unconfigured window 9 receives the
    image pointer, a message for ROI 9 is sent and the loop goes on.
    [getROILoc] indexes [gr] by the tag in the same way. *)
Theorem out_of_range_roi_is_not_rejected :
  Z.shiftr (u32 (tag grab_roi9)) 16 = 9 /\ SEQ_LEN <= 9 /\
  quit grab_roi9 = false /\ tag_rc grab_roi9 = FG_OK /\
  ts_rc grab_roi9 = FG_OK /\ img_ptr grab_roi9 = 4096 /\
  length (wins tracker0) = 2%nat /\
  iteration still_threshold still still undistort_pinhole tracker0 grab_roi9
    = Fault /\
  (forall (t : Tracker (F := val)),
     Z.of_nat (length (wins t)) <= 9 ->
     iteration still_threshold still still undistort_pinhole t grab_roi9 = Fault) /\
  (exists t',
     iteration still_threshold still still undistort_pinhole
       (with_wins tracker0 1 wins10) grab_roi9 = Continue t' /\
     img <$> wins10 !! 9%nat = Some 0 /\
     img <$> wins t' !! 9%nat = Some 4096 /\
     (forall j, j <> 9%nat -> wins t' !! j = wins10 !! j) /\
     (fun m => m.1.1.1) <$> sent t' = [9]) /\
  Z.shiftr (s32 (image_tag answer_roi9)) 16 = 9 /\
  getROILoc keep_loc answer_roi9 two_images (mkROILoc 0 0 0) 0 = None.
Proof.
  split; [reflexivity|]. split; [discriminate|].
  do 5 (split; [reflexivity|]).
  split; [vm_compute; reflexivity|].
  split.
  { intros t Hlen.
    apply iteration_out_of_bounds; try reflexivity. exact Hlen. }
  split.
  { eexists. split; [vm_compute; reflexivity|].
    split; [reflexivity|]. split; [reflexivity|].
    split; [|reflexivity].
    intros j Hj. do 10 (destruct j as [|j]; [try reflexivity; contradiction|]).
    reflexivity. }
  split; reflexivity.
Qed.

(** ** The Kalman filter *)

Section KalmanFacts.
Context {F : Type} `{Scalar F}.

(** The correction leaves the prior alone and stores the gain. *)
Lemma cvKalmanCorrect_effect (k : CvKalman F) z k' :
  cvKalmanCorrect k z = Some k' ->
  state_pre k' = state_pre k /\ error_cov_pre k' = error_cov_pre k /\
  kalman_gain k = Some (gain k').
Proof.
  unfold cvKalmanCorrect, kalman_gain. intros E.
  destruct (cvMatMulAdd (measurement_matrix k) _ _ _) as [temp2|]; [|discriminate E].
  simpl in E; simpl.
  destruct (cvGEMM temp2 _ _ _ _ _ _ _) as [temp3|]; [|discriminate E].
  simpl in E; simpl.
  destruct (cvSolve temp3 temp2) as [temp4|]; [|discriminate E].
  simpl in E; simpl.
  destruct (cvGEMM (measurement_matrix k) _ _ _ _ _ _ _) as [temp5|]; [|discriminate E].
  simpl in E.
  destruct (cvMatMulAdd _ temp5 _ _) as [x|]; [|discriminate E].
  simpl in E.
  destruct (cvGEMM _ temp2 _ _ _ _ _ _) as [P|]; [|discriminate E].
  simpl in E. injection E as <-. auto.
Qed.

End KalmanFacts.

Section PredictionFacts.
Variable Z_DIM : nat.

(** [prediction] is [cvKalmanPredict] with the matrices of this step,
    followed by [cvKalmanCorrect] with the measurement read at [z_k]. *)
Lemma prediction_unfold h kal dt_k z_k :
  prediction Z_DIM h kal dt_k z_k =
    src ← load_words h z_k Z_DIM;
    zd ← memcpy_fl (data (fresh (MP kal) 1)) src Z_DIM;
    prior ← prediction_prior kal dt_k;
    cvKalmanCorrect prior (mkMat (MP kal) 1 zd).
Proof.
  unfold prediction, prediction_prior.
  destruct (load_words h z_k Z_DIM) as [src|]; [|reflexivity]. simpl.
  destruct (memcpy_fl _ src Z_DIM) as [zd|]; [|reflexivity]. simpl.
  destruct (memcpy_fl _ (A_k dt_k) 16) as [Ad|]; [|reflexivity]. simpl.
  destruct (memcpy_fl _ (B_k dt_k) 4) as [Bd|]; [|reflexivity]. simpl.
  reflexivity.
Qed.

Lemma prediction_inv h kal dt_k z_k k' :
  prediction Z_DIM h kal dt_k z_k = Some k' ->
  z_k <> 0 /\
  exists prior,
    prediction_prior kal dt_k = Some prior /\
    state_pre k' = state_pre prior /\
    error_cov_pre k' = error_cov_pre prior /\
    kalman_gain prior = Some (gain k').
Proof.
  rewrite prediction_unfold. unfold load_words. intros E.
  destruct (decide (z_k = 0)) as [|N]; [discriminate E|].
  split; [exact N|]. simpl in E.
  destruct (memcpy_fl _ _ Z_DIM) as [zd|]; [|discriminate E]. simpl in E.
  destruct (prediction_prior kal dt_k) as [prior|]; [|discriminate E].
  simpl in E. exists prior. split; [reflexivity|].
  apply cvKalmanCorrect_effect in E. exact E.
Qed.

(** The prior of a step on a state (x, y, vx, vy): the position advances
    by the velocity times [dt], the velocity stays; the control term is
    [B_k] times the zero control and adds nothing. *)
Lemma prediction_prior_state (kal : CvKalman val) (dt x y vx vy : Q) :
  kalman_ok kal -> DP kal = 4 -> CP kal = 1 ->
  data (state_post kal) = floats [x; y; vx; vy] ->
  exists k' x' y' vx' vy',
    prediction_prior kal (Vfloat dt) = Some k' /\
    data (state_pre k') = floats [x'; y'; vx'; vy'] /\
    (x' == x + vx * dt /\ y' == y + vy * dt /\ vx' == vx /\ vy' == vy)%Q.
Proof.
  destruct kal as [mp dp cp xpre xpost A B Hm Qn Rn Ppre K Ppost].
  unfold kalman_ok. simpl.
  intros (S1 & S2 & S3 & S4 & S5 & S6 & S7 & S8 & S9 & S10) -> -> Hx.
  apply shape_data in S1 as (d1 & -> & L1).
  apply shape_data in S2 as (d2 & -> & L2).
  apply shape_data in S3 as (d3 & -> & L3).
  apply shape_data in S4 as (d4 & -> & L4).
  apply shape_data in S6 as (d6 & -> & L6).
  apply shape_data in S8 as (d8 & -> & L8).
  apply shape_data in S10 as (d10 & -> & L10).
  simpl in Hx. subst d2.
  change (Z.to_nat (4 * 4)) with 16%nat in L3.
  change (Z.to_nat (4 * 1)) with 4%nat in L4.
  do 17 (destruct d3 as [|? d3]; try discriminate L3).
  do 5 (destruct d4 as [|? d4]; try discriminate L4).
  destruct (prediction_prior _ _) as [k'|] eqn:E;
    cbv -[val_lift Qplus Qmult Qminus Qdiv Qred] in E; [|discriminate E].
  cbn [val_lift] in E. injection E as <-.
  eexists _, _, _, _, _. split; [reflexivity|]. split; [reflexivity|].
  split; [|split; [|split]]; repeat setoid_rewrite Qred_correct; ring.
Qed.

(** The control input of [prediction] adds nothing.  For a step [dt] of
    magnitude at most 2^60, where the gravity terms of [B_k] are finite
    single-precision numbers, the prior a call leaves in [state_pre] and
    [error_cov_pre] is the one [cvKalmanPredict] computes with no control at
    all: [B_k] is multiplied by the zeroed [u]. *)
Lemma prediction_control_adds_nothing h (kal : CvKalman val)
    (dt x y vx vy : Q) z_k k' :
  kalman_ok kal -> DP kal = 4 -> CP kal = 1 ->
  data (state_post kal) = floats [x; y; vx; vy] ->
  (- inject_Z (2 ^ 60) <= dt <= inject_Z (2 ^ 60))%Q ->
  prediction Z_DIM h kal (Vfloat dt) z_k = Some k' ->
  exists k0,
    prediction_prior_no_control kal (Vfloat dt) = Some k0 /\
    state_pre k' = state_pre k0 /\
    error_cov_pre k' = error_cov_pre k0.
Proof.
  intros Hok Hd Hc Hx _ E.
  apply prediction_inv in E as (_ & prior & Ep & -> & -> & _).
  revert Hok Hd Hc Hx Ep.
  destruct kal as [mp dp cp xpre xpost A B Hm Qn Rn Ppre K Ppost].
  unfold kalman_ok. simpl.
  intros (S1 & S2 & S3 & S4 & S5 & S6 & S7 & S8 & S9 & S10) -> -> Hx Ep.
  apply shape_data in S1 as (d1 & -> & L1).
  apply shape_data in S2 as (d2 & -> & L2).
  apply shape_data in S3 as (d3 & -> & L3).
  apply shape_data in S4 as (d4 & -> & L4).
  apply shape_data in S6 as (d6 & -> & L6).
  apply shape_data in S8 as (d8 & -> & L8).
  apply shape_data in S10 as (d10 & -> & L10).
  simpl in Hx. subst d2.
  change (Z.to_nat (4 * 4)) with 16%nat in L3.
  change (Z.to_nat (4 * 1)) with 4%nat in L4.
  do 17 (destruct d3 as [|? d3]; try discriminate L3).
  do 5 (destruct d4 as [|? d4]; try discriminate L4).
  cbv -[val_lift Qplus Qmult Qminus Qdiv Qred] in Ep.
  cbn [val_lift] in Ep. injection Ep as <-.
  destruct (prediction_prior_no_control _ _) as [k0|] eqn:E0;
    cbv -[val_lift Qplus Qmult Qminus Qdiv Qred] in E0; [|discriminate E0].
  cbn [val_lift] in E0. injection E0 as <-.
  eexists. split; [reflexivity|]. cbn [state_pre error_cov_pre].
  split; [|reflexivity].
  f_equal.
  repeat match goal with
  | |- Qred _ = Qred _ =>
      apply Qred_complete; repeat setoid_rewrite Qred_correct; ring
  | |- _ :: _ = _ :: _ => f_equal
  | |- Vfloat _ = Vfloat _ => f_equal
  end.
Qed.

(** C10, as the code has it.  [prediction] has one path.  It returns
    exactly when [z_k] is not null, the [Z_DIM] words at [z_k] fit the
    measurement vector, [cvKalmanPredict] with the matrices of this step
    succeeds and [cvKalmanCorrect] of that prior with that measurement
    succeeds; what it returns is the result of that correction.  A null
    [z_k] is a fault, and whenever the call returns, the filter holds the
    gain computed from the prior of this step (the prior itself is kept in
    [state_pre] and [error_cov_pre]). *)
Theorem prediction_always_corrects h kal dt_k z_k :
  (z_k = 0 -> prediction Z_DIM h kal dt_k z_k = None) /\
  (forall k', prediction Z_DIM h kal dt_k z_k = Some k' <->
     z_k <> 0 /\
     exists zd prior,
       memcpy_fl (replicate (Z.to_nat (MP kal)) Vundef)
         (h <$> seqZ z_k (Z.of_nat Z_DIM)) Z_DIM = Some zd /\
       prediction_prior kal dt_k = Some prior /\
       cvKalmanCorrect prior (mkMat (MP kal) 1 zd) = Some k') /\
  (forall k', prediction Z_DIM h kal dt_k z_k = Some k' ->
     exists prior,
       prediction_prior kal dt_k = Some prior /\
       state_pre k' = state_pre prior /\
       error_cov_pre k' = error_cov_pre prior /\
       kalman_gain prior = Some (gain k')).
Proof.
  split; [|split].
  - intros ->. rewrite prediction_unfold. reflexivity.
  - intros k'. rewrite prediction_unfold. unfold load_words, fresh.
    cbn [data]. rewrite Z.mul_1_r. split.
    + intros E. destruct (decide (z_k = 0)) as [|N]; [discriminate E|].
      split; [exact N|]. cbn [mbind option_bind] in E.
      destruct (memcpy_fl _ _ Z_DIM) as [zd|]; [|discriminate E].
      cbn [mbind option_bind] in E.
      destruct (prediction_prior kal dt_k) as [prior|]; [|discriminate E].
      exists zd, prior. auto.
    + intros (N & zd & prior & Ez & Ep & Ec).
      rewrite decide_False by exact N. cbn [mbind option_bind].
      rewrite Ez. cbn [mbind option_bind]. rewrite Ep. exact Ec.
  - intros k' E. apply prediction_inv in E as (_ & E). exact E.
Qed.
End PredictionFacts.

Lemma kal_x0_state : data (state_post kal_x0) = floats [0; 10; 0; 3]%Q.
Proof. reflexivity. Qed.

(** C10 as stated fails on the filter [kal_x0] with [dt = 1]: without a
    measurement (a null [z_k]) the call is a fault, and no address makes the
    call stop after the prediction, since the gain is written in every
    call that returns. *)
Lemma prediction_has_no_predict_only_mode :
  prediction 2 heap_x0 kal_x0 (Vfloat 1) 0 = None /\
  is_Some (prediction_prior kal_x0 (Vfloat 1)) /\
  ~ exists z_k,
      prediction 2 heap_x0 kal_x0 (Vfloat 1) z_k =
      prediction_prior kal_x0 (Vfloat 1).
Proof.
  split; [reflexivity|].
  destruct (prediction_prior kal_x0 (Vfloat 1)) as [prior|] eqn:Ep;
    [|vm_compute in Ep; discriminate Ep].
  split; [eauto|]. intros [z_k E].
  rewrite prediction_unfold, Ep in E.
  destruct (load_words heap_x0 z_k 2) as [src|]; [|discriminate E]. simpl in E.
  destruct (memcpy_fl _ src 2) as [zd|]; [|discriminate E]. simpl in E.
  apply cvKalmanCorrect_effect in E as (_ & _ & E).
  vm_compute in Ep. injection Ep as <-.
  vm_compute in E. discriminate E.
Qed.

Lemma kal_x0_ok : kalman_ok kal_x0.
Proof. unfold kalman_ok, has_shape. vm_compute. repeat split. Qed.

(** C2, at the failing input.  The filter [kal_x0] holds (x, y, vx, vy) =
    (0, 10, 0, 3); a step with [dt = 1] builds the control matrix
    (0, 4.9, 0, 9.8) from [GRAVITY] and multiplies it by the zero control:
    the prior is (0, 13, 0, 3), not the projectile's (0, 17.9, 0, 12.8). *)
Theorem prediction_prior_without_gravity :
  exists k',
    prediction 2 heap_x0 kal_x0 (Vfloat 1) 48 = Some k' /\
    data (control_matrix k') = floats [0; 49 # 10; 0; 49 # 5]%Q /\
    data (state_pre k') = floats [0; 13; 0; 3]%Q /\
    ~ (13 == 10 + 3 * 1 + (1 # 2) * (98 # 10) * 1 * 1)%Q /\
    ~ (3 == 3 + (98 # 10) * 1)%Q.
Proof.
  eexists. split; [vm_compute; reflexivity|].
  split; [reflexivity|]. split; [reflexivity|].
  split; intros E; vm_compute in E; discriminate E.
Qed.

(** ** [setup_kalman] *)

(** The initial state of filter [i] is [x0[i]] when it is given and zero
    otherwise. *)
Lemma setup_filter_state_post h x0 P0 i k k' :
  setup_filter h x0 P0 i k = Some k' ->
  (x0 = 0 \/ load_ptr h (x0 + i) = Some 0 ->
     state_post k' = cvZero (state_post k)) /\
  (forall a, x0 <> 0 -> load_ptr h (x0 + i) = Some a -> a <> 0 ->
     exists src,
       load_words h a (Z.to_nat (DP k)) = Some src /\
       memcpy_fl (data (state_post k)) src (Z.to_nat (DP k))
         = Some (data (state_post k'))).
Proof.
  unfold setup_filter. intros E.
  apply bind_Some in E as (x0_i & Ex & E).
  apply bind_Some in E as (k1 & Ek & E).
  apply bind_Some in E as (P0_i & EP & E).
  assert (Hs : state_post k' = state_post k1).
  { destruct (decide (P0_i = 0)).
    - injection E as <-. reflexivity.
    - apply bind_Some in E as (? & _ & E).
      apply bind_Some in E as (? & _ & E). injection E as <-. reflexivity. }
  rewrite Hs. clear E EP Hs. split.
  - intros Hz.
    assert (x0_i = 0) as ->.
    { destruct (decide (x0 = 0)); [congruence|].
      destruct Hz as [?|Hz]; [contradiction|]. congruence. }
    rewrite decide_True in Ek by reflexivity. injection Ek as <-. reflexivity.
  - intros a Hx0 Ha Hne.
    rewrite decide_False in Ex by exact Hx0.
    assert (x0_i = a) as -> by congruence.
    rewrite decide_False in Ek by exact Hne.
    apply bind_Some in Ek as (src & Hsrc & Ek).
    apply bind_Some in Ek as (d & Hd & Ek). injection Ek as <-.
    exists src. split; [exact Hsrc|]. exact Hd.
Qed.

(** Without [P0[i]] the covariance is [100 I]; with it, the words copied
    into the covariance are those at [P0], the table of pointers, and
    [P0[i]] is only tested. *)
Lemma setup_filter_error_cov_post h x0 P0 i k k' :
  setup_filter h x0 P0 i k = Some k' ->
  (P0 = 0 \/ load_ptr h (P0 + i) = Some 0 ->
     error_cov_post k' = cvSetIdentity (error_cov_post k) (lit 100)) /\
  (forall a, P0 <> 0 -> load_ptr h (P0 + i) = Some a -> a <> 0 ->
     exists src,
       load_words h P0 (Z.to_nat (DP k * DP k)) = Some src /\
       memcpy_fl (data (error_cov_post k)) src (Z.to_nat (DP k * DP k))
         = Some (data (error_cov_post k'))).
Proof.
  unfold setup_filter. intros E.
  apply bind_Some in E as (x0_i & Ex & E).
  apply bind_Some in E as (k1 & Ek & E).
  apply bind_Some in E as (P0_i & EP & E).
  assert (Hk1 : error_cov_post k1 = error_cov_post k /\ DP k1 = DP k).
  { destruct (decide (x0_i = 0)).
    - injection Ek as <-. auto.
    - apply bind_Some in Ek as (? & _ & Ek).
      apply bind_Some in Ek as (? & _ & Ek). injection Ek as <-. auto. }
  destruct Hk1 as [Hc Hd]. rewrite Hc, Hd in E. clear Ex Ek. split.
  - intros Hz.
    assert (P0_i = 0) as ->.
    { destruct (decide (P0 = 0)); [congruence|].
      destruct Hz as [?|Hz]; [contradiction|]. congruence. }
    rewrite decide_True in E by reflexivity. injection E as <-. reflexivity.
  - intros a HP0 Ha Hne.
    rewrite decide_False in EP by exact HP0.
    assert (P0_i = a) as -> by congruence.
    rewrite decide_False in E by exact Hne.
    apply bind_Some in E as (src & Hsrc & E).
    apply bind_Some in E as (d & Hdd & E). injection E as <-.
    exists src. split; [exact Hsrc|]. exact Hdd.
Qed.

(** C8, at the failing input.  One filter, no initial guess, and an initial
    covariance [2 I] stored at address 200 with its pointer in the table at
    address 100: the covariance of the filter becomes the 16 words found at
    the table (the pointer and what follows it), not [P0[0]]. *)
Theorem setup_kalman_copies_pointer_table :
  load_ptr heap_P0 (100 + 0) = Some 200 /\
  load_words heap_P0 200 16 = Some P0_0 /\
  exists k',
    setup_kalman heap_P0 [Some blank_kalman] 1 0 100 = Some [Some k'] /\
    data (state_post k') = floats [0; 0; 0; 0]%Q /\
    data (error_cov_post k') = Vptr 200 :: replicate 15 Vundef /\
    data (error_cov_post k') <> P0_0.
Proof.
  split; [reflexivity|]. split; [reflexivity|].
  eexists. split; [vm_compute; reflexivity|].
  split; [reflexivity|]. split; [reflexivity|]. discriminate.
Qed.

(** ** Element access *)

Section AccessFacts.
Context {E : Type}.
Implicit Types m : CvMat E.

Lemma in_range_spec m r c :
  in_range m r c = true <-> 0 <= r < rows m /\ 0 <= c < cols m.
Proof.
  unfold in_range. rewrite !andb_true_iff, !Z.leb_le, !Z.ltb_lt. lia.
Qed.

Lemma cell_index_inj cols r c r' c' :
  0 <= c < cols -> 0 <= c' < cols -> 0 <= r -> 0 <= r' ->
  Z.to_nat (r * cols + c) = Z.to_nat (r' * cols + c') -> r = r' /\ c = c'.
Proof.
  intros Hc Hc' Hr Hr' Heq.
  assert (r * cols + c = r' * cols + c') by nia.
  assert (r = r') by nia. split; [assumption|nia].
Qed.

Lemma cvmSet_inv m r c v m' :
  cvmSet m r c v = Some m' ->
  in_range m r c = true /\
  (Z.to_nat (r * cols m + c) < length (data m))%nat /\
  m' = with_data m (<[Z.to_nat (r * cols m + c) := v]> (data m)).
Proof.
  unfold cvmSet, fl_set. destruct (in_range m r c); [|discriminate].
  destruct (decide _); [|discriminate]. intros [= <-]. auto.
Qed.

Lemma cvmSet_ok m r c v R C :
  has_shape m R C -> 0 <= r < R -> 0 <= c < C ->
  exists m', cvmSet m r c v = Some m' /\ has_shape m' R C.
Proof.
  intros (Hr & Hc & Hl) Hrr Hcc. unfold cvmSet, fl_set.
  assert (in_range m r c = true) as -> by (apply in_range_spec; lia).
  rewrite decide_True by (rewrite Hl, Hc; nia).
  eexists. split; [reflexivity|]. unfold has_shape. simpl.
  rewrite length_insert. auto.
Qed.

Lemma cvmGet_cvmSet_eq m r c v m' :
  cvmSet m r c v = Some m' -> cvmGet m' r c = Some v.
Proof.
  intros (Hin & Hlt & ->)%cvmSet_inv. unfold cvmGet.
  change (in_range (with_data m _) r c) with (in_range m r c). rewrite Hin.
  simpl. apply list_lookup_insert_eq. exact Hlt.
Qed.

Lemma cvmGet_cvmSet_ne m r c v m' r' c' :
  cvmSet m r c v = Some m' -> (r', c') <> (r, c) ->
  cvmGet m' r' c' = cvmGet m r' c'.
Proof.
  intros (Hin & Hlt & ->)%cvmSet_inv Hne. unfold cvmGet.
  change (in_range (with_data m _) r' c') with (in_range m r' c').
  destruct (in_range m r' c') eqn:Hin'; [|reflexivity].
  simpl. apply list_lookup_insert_ne.
  apply in_range_spec in Hin, Hin'. intros Heq.
  apply cell_index_inj in Heq as [-> ->]; [congruence|lia..].
Qed.
End AccessFacts.

(** ** World coordinates of the corners *)

Section WorldFacts.
Context {F : Type} `{Scalar F}.

Lemma world_loc_length (g : CvSize) :
  length (world_loc (F := F) g) = Z.to_nat (width g * height g).
Proof. unfold world_loc. rewrite length_fmap, length_seqZ. reflexivity. Qed.

Lemma world_loc_lookup (g : CvSize) i :
  0 < width g -> 0 <= i < width g * height g ->
  world_loc g !! Z.to_nat i =
    Some (mkPoint3f (ofZ (i mod width g)) (ofZ (- (i / width g))) (ofZ 0)).
Proof.
  intros Hc Hi. unfold world_loc. rewrite list_lookup_fmap.
  rewrite lookup_seqZ_lt by lia. simpl. rewrite Z2Nat.id by lia.
  unfold world_point. rewrite Z.add_0_l.
  rewrite Z.rem_mod_nonneg by lia.
  rewrite Z.quot_opp_l by lia. rewrite Z.quot_div_nonneg by lia.
  reflexivity.
Qed.

(** Every view [views_loop] adds has the world points [wl] and the
    corners of its frame. *)
Lemma views_loop_world cam n prompt (wl : list (Point3f F)) g v :
  let '(_, v', _) := views_loop cam n prompt wl g v in
  exists added,
    pixel v' = pixel v ++ added /\
    world v' = world v ++ replicate (length added) wl.
Proof.
  revert g v. induction cam as [|f cam IH]; intros g v; simpl.
  - destruct (decide (g < n)); exists []; rewrite !app_nil_r; auto.
  - destruct (decide (g < n)); [|exists []; rewrite !app_nil_r; auto].
    assert (Hstep : forall g1 v1,
      (exists a1, pixel v1 = pixel v ++ a1 /\
                  world v1 = world v ++ replicate (length a1) wl) ->
      let '(_, v', _) := views_loop cam n prompt wl g1 v1 in
      exists added, pixel v' = pixel v ++ added /\
                    world v' = world v ++ replicate (length added) wl).
    { intros g1 v1 (a1 & Hp & Hw). specialize (IH g1 v1).
      destruct (views_loop cam n prompt wl g1 v1) as [[r v'] rest].
      destruct IH as (a2 & Hp2 & Hw2). exists (a1 ++ a2).
      rewrite Hp2, Hw2, Hp, Hw, length_app, replicate_add, !app_assoc. auto. }
    assert (Hv : exists a1,
      pixel (if found f then store_view v wl f else v) = pixel v ++ a1 /\
      world (if found f then store_view v wl f else v)
        = world v ++ replicate (length a1) wl).
    { destruct (found f); [exists [corners f]|exists []]; simpl;
        rewrite ?app_nil_r; auto. }
    destruct (found f); simpl;
      repeat (destruct (decide _)); simpl;
      try (apply Hstep; exact Hv);
      destruct prompt; simpl; repeat (destruct (decide _)); simpl;
      try (apply Hstep; exact Hv); exact Hv.
Qed.
End WorldFacts.

Section GridFacts.
Context {F : Type} `{Scalar F}.

(** The object points [store_points] writes, and the rows it leaves. *)
Lemma store_points_op cols row0 idx buf (ip op ip' op' : CvMat F) :
  store_points cols row0 idx buf ip op = Some (ip', op') ->
  NoDup idx ->
  (forall i, i ∈ idx ->
     cvmGet op' (row0 + i) 0 = Some (ofZ (Z.quot i cols)) /\
     cvmGet op' (row0 + i) 1 = Some (ofZ (Z.rem i cols)) /\
     cvmGet op' (row0 + i) 2 = Some (ofZ 0)) /\
  (forall r c, (forall i, i ∈ idx -> r <> row0 + i) ->
     cvmGet op' r c = cvmGet op r c).
Proof.
  revert ip op. induction idx as [|i idx IH]; intros ip op E Hnd.
  - injection E as <- <-. split; [intros i Hi; inversion Hi|auto].
  - simpl in E.
    apply bind_Some in E as (c0 & _ & E).
    apply bind_Some in E as (ip1 & _ & E).
    apply bind_Some in E as (ip2 & _ & E).
    apply bind_Some in E as (op1 & E1 & E).
    apply bind_Some in E as (op2 & E2 & E).
    apply bind_Some in E as (op3 & E3 & E).
    apply NoDup_cons in Hnd as [Hni Hnd].
    destruct (IH _ _ E Hnd) as [Hin Hout].
    assert (Hop3 : forall r c, r <> row0 + i -> cvmGet op3 r c = cvmGet op r c).
    { intros r c Hr.
      rewrite (cvmGet_cvmSet_ne _ _ _ _ _ r c E3) by congruence.
      rewrite (cvmGet_cvmSet_ne _ _ _ _ _ r c E2) by congruence.
      rewrite (cvmGet_cvmSet_ne _ _ _ _ _ r c E1) by congruence.
      reflexivity. }
    split.
    + intros j Hj. apply elem_of_cons in Hj as [->|Hj]; [|apply Hin; exact Hj].
      assert (Hfr : forall c, cvmGet op' (row0 + i) c = cvmGet op3 (row0 + i) c).
      { intros c. apply Hout. intros j Hj. intros Heq.
        assert (j = i) by lia. subst j. contradiction. }
      rewrite !Hfr. split; [|split].
      * rewrite (cvmGet_cvmSet_ne _ _ _ _ _ _ _ E3) by congruence.
        rewrite (cvmGet_cvmSet_ne _ _ _ _ _ _ _ E2) by congruence.
        apply (cvmGet_cvmSet_eq _ _ _ _ _ E1).
      * rewrite (cvmGet_cvmSet_ne _ _ _ _ _ _ _ E3) by congruence.
        apply (cvmGet_cvmSet_eq _ _ _ _ _ E2).
      * apply (cvmGet_cvmSet_eq _ _ _ _ _ E3).
    + intros r c Hr. rewrite Hout.
      * apply Hop3. apply Hr. left.
      * intros j Hj. apply Hr. right. exact Hj.
Qed.

(** With room in the buffers every store succeeds. *)
Lemma store_points_ok cols row0 idx buf (ip op : CvMat F) R :
  has_shape ip R 2 -> has_shape op R 3 ->
  (forall i, i ∈ idx -> 0 <= i /\ (Z.to_nat i < length buf)%nat /\
                        0 <= row0 + i < R) ->
  exists ip' op',
    store_points cols row0 idx buf ip op = Some (ip', op') /\
    has_shape ip' R 2 /\ has_shape op' R 3.
Proof.
  revert ip op. induction idx as [|i idx IH]; intros ip op Hip Hop Hidx.
  - exists ip, op. auto.
  - destruct (Hidx i) as (Hi0 & Hib & HiR); [left|].
    simpl. apply lookup_lt_is_Some_2 in Hib as [c0 ->]. simpl.
    destruct (cvmSet_ok ip (row0 + i) 0 (p2_x c0) R 2 Hip) as (ip1 & -> & Hip1);
      [lia..|]. simpl.
    destruct (cvmSet_ok ip1 (row0 + i) 1 (p2_y c0) R 2 Hip1) as (ip2 & -> & Hip2);
      [lia..|]. simpl.
    destruct (cvmSet_ok op (row0 + i) 0 (ofZ (Z.quot i cols)) R 3 Hop)
      as (op1 & -> & Hop1); [lia..|]. simpl.
    destruct (cvmSet_ok op1 (row0 + i) 1 (ofZ (Z.rem i cols)) R 3 Hop1)
      as (op2 & -> & Hop2); [lia..|]. simpl.
    destruct (cvmSet_ok op2 (row0 + i) 2 (ofZ 0) R 3 Hop2)
      as (op3 & -> & Hop3); [lia..|]. simpl.
    apply IH; [assumption..|]. intros j Hj. apply Hidx. right. exact Hj.
Qed.

Lemma detect_length (f : Frame F) buf : length (detect f buf) = length buf.
Proof.
  unfold detect. rewrite length_take, length_app, length_drop. lia.
Qed.

Lemma store_grid_ok cols num_points num_imgs good_imgs (f : Frame F) buf b :
  bufs_fit b num_imgs num_points -> 0 <= num_points ->
  length buf = Z.to_nat num_points -> 0 <= good_imgs < num_imgs ->
  exists b',
    store_grid cols num_points good_imgs f buf b = Some b' /\
    bufs_fit b' num_imgs num_points.
Proof.
  intros (Hip & Hop & Hpc & Hst) Hnp Hbuf Hg. unfold store_grid.
  destruct Hpc as (Hpr & Hpcc & Hpl).
  assert (Epc : exists pc', raw_set (pc b) good_imgs 0 (corners_found f) = Some pc'
                 /\ has_shape pc' num_imgs 1).
  { unfold raw_set, fl_set. rewrite Hpcc.
    assert ((0 <=? good_imgs * 1 + 0) = true) as -> by (apply Z.leb_le; lia).
    rewrite decide_True by (rewrite Hpl; lia).
    eexists. split; [reflexivity|]. unfold has_shape. simpl.
    rewrite length_insert. auto. }
  destruct Epc as (pc' & -> & Hpc'). simpl.
  destruct (store_points_ok cols (good_imgs * num_points) (seqZ 0 num_points)
              buf (ip b) (op b) (num_imgs * num_points) Hip Hop)
    as (ip' & op' & -> & Hip' & Hop').
  { intros i Hi. apply elem_of_seqZ in Hi. split; [lia|]. split; [lia|]. nia. }
  simpl. destruct (store_imgs b) as [l|] eqn:El; simpl.
  - rewrite decide_True by lia. simpl. eexists. split; [reflexivity|].
    unfold bufs_fit. simpl. rewrite length_insert. auto.
  - eexists. split; [reflexivity|]. unfold bufs_fit. simpl. auto.
Qed.

(** The object points of an accepted view: corner [i] of the view stored
    in slot [good_imgs] gets (i div cols, i mod cols, 0). *)
Lemma store_grid_op cols num_points good_imgs (f : Frame F) buf b b' i :
  store_grid cols num_points good_imgs f buf b = Some b' ->
  0 < cols -> 0 <= i < num_points ->
  cvmGet (op b') (good_imgs * num_points + i) 0 = Some (ofZ (i / cols)) /\
  cvmGet (op b') (good_imgs * num_points + i) 1 = Some (ofZ (i mod cols)) /\
  cvmGet (op b') (good_imgs * num_points + i) 2 = Some (ofZ 0).
Proof.
  unfold store_grid. intros E Hc Hi.
  apply bind_Some in E as (pc' & _ & E).
  apply bind_Some in E as ([ip' op'] & Ep & E).
  apply bind_Some in E as (st' & _ & E). injection E as <-. simpl.
  apply store_points_op in Ep as [Hin _]; [|apply NoDup_seqZ].
  destruct (Hin i) as (H0 & H1 & H2); [apply elem_of_seqZ; lia|].
  rewrite Z.quot_div_nonneg in H0 by lia.
  rewrite Z.rem_mod_nonneg in H1 by lia. auto.
Qed.

Lemma store_grid_op_other cols num_points good_imgs (f : Frame F) buf b b' r c :
  store_grid cols num_points good_imgs f buf b = Some b' ->
  r < good_imgs * num_points \/ good_imgs * num_points + num_points <= r ->
  cvmGet (op b') r c = cvmGet (op b) r c.
Proof.
  unfold store_grid. intros E Hr.
  apply bind_Some in E as (pc' & _ & E).
  apply bind_Some in E as ([ip' op'] & Ep & E).
  apply bind_Some in E as (st' & _ & E). injection E as <-. simpl.
  apply store_points_op in Ep as [_ Hout]; [|apply NoDup_seqZ].
  apply Hout. intros i Hi. apply elem_of_seqZ in Hi. lia.
Qed.

Lemma grab_loop_op capture cols num_points num_imgs prompt
    (buf : list (Point2f F)) g b r b' rest :
  grab_loop capture cols num_points num_imgs prompt buf g b = Some (r, b', rest) ->
  0 < cols -> 0 <= g -> slots_filled cols num_points b g ->
  slots_filled cols num_points b' r.
Proof.
  revert buf g b. induction capture as [|f cam IH]; intros buf g b E Hc Hg Hinv.
  - simpl in E. destruct (decide (g < num_imgs)); injection E as <- <- _; exact Hinv.
  - simpl in E. destruct (decide (g < num_imgs)); [|injection E as <- <- _; exact Hinv].
    apply bind_Some in E as ([g1 b1] & E1 & E).
    assert (Hstep : 0 <= g1 /\ slots_filled cols num_points b1 g1 /\
                    (found f = true -> 1 <= g1 /\
                       slots_filled cols num_points b1 (g1 - 1))).
    { destruct (found f).
      - apply bind_Some in E1 as (b2 & Es & E1). injection E1 as <- <-.
        assert (Hfill : slots_filled cols num_points b2 (g + 1)).
        { intros j i Hj Hi. destruct (decide (j = g)) as [->|Hne].
          - apply (store_grid_op _ _ _ _ _ _ _ i Es); assumption.
          - rewrite !(store_grid_op_other _ _ _ _ _ _ _ _ _ Es) by nia.
            apply Hinv; lia. }
        split; [lia|]. split; [exact Hfill|]. intros _. split; [lia|].
        intros j i Hj Hi. apply Hfill; lia.
      - injection E1 as <- <-. split; [exact Hg|]. split; [exact Hinv|].
        discriminate. }
    destruct Hstep as (Hg1 & Hinv1 & Hfound).
    destruct (found f && prompt) eqn:Efp.
    + apply andb_prop in Efp as [Ef _]. destruct (Hfound Ef) as [Hg1' Hinv1'].
      destruct (decide (key f = KEY_i)).
      * apply (IH _ _ _ E Hc); [lia|exact Hinv1'].
      * apply (IH _ _ _ E Hc Hg1 Hinv1).
    + destruct (decide (key f = KEY_q)).
      * injection E as <- <- _. exact Hinv1.
      * apply (IH _ _ _ E Hc Hg1 Hinv1).
Qed.
End GridFacts.

(** ** How many views are collected *)

Section CountFacts.
Context {F : Type} `{Scalar F}.

Lemma boards_nil : boards (F := F) [] = 0.
Proof. reflexivity. Qed.

Lemma boards_cons (f : Frame F) cam :
  boards (f :: cam) = (if found f then 1 else 0) + boards cam.
Proof.
  unfold boards. rewrite filter_cons.
  destruct (decide (found f = true)) as [->|E].
  - simpl length. lia.
  - destruct (found f); [congruence|]. lia.
Qed.

Lemma boards_nonneg (cam : list (Frame F)) : 0 <= boards cam.
Proof. unfold boards. lia. Qed.

Lemma no_keys_cons (f : Frame F) cam :
  no_keys (f :: cam) -> (key f <> KEY_i /\ key f <> KEY_q) /\ no_keys cam.
Proof.
  intros Hk. split; [apply Hk; left|]. intros g Hg. apply Hk. right. exact Hg.
Qed.


(** The returned count never exceeds the views stored by the call, and
    without the prompt the two agree. *)
Lemma views_loop_stored cam n prompt (wl : list (Point3f F)) g v :
  let '(r, v', _) := views_loop cam n prompt wl g v in
  (r - g <= Z.of_nat (length (pixel v')) - Z.of_nat (length (pixel v))) /\
  (prompt = false ->
   r - g = Z.of_nat (length (pixel v')) - Z.of_nat (length (pixel v))).
Proof.
  revert g v. induction cam as [|f cam IH]; intros g v; simpl.
  - destruct (decide (g < n)); split; intros; lia.
  - destruct (decide (g < n)); [|split; intros; lia].
    assert (Hstep : forall g1 v1 d,
      g1 - g <= d ->
      Z.of_nat (length (pixel v1)) - Z.of_nat (length (pixel v)) = d ->
      (prompt = false -> g1 - g = d) ->
      let '(r, v', _) := views_loop cam n prompt wl g1 v1 in
      (r - g <= Z.of_nat (length (pixel v')) - Z.of_nat (length (pixel v))) /\
      (prompt = false ->
       r - g = Z.of_nat (length (pixel v')) - Z.of_nat (length (pixel v)))).
    { intros g1 v1 d Hd Hl Hp. specialize (IH g1 v1).
      destruct (views_loop cam n prompt wl g1 v1) as [[r v'] rest].
      destruct IH as [IH1 IH2]. split; [lia|].
      intros Hf. specialize (IH2 Hf). specialize (Hp Hf). lia. }
    destruct (found f); simpl.
    + assert (Hl : Z.of_nat (length (pixel (store_view v wl f)))
                   - Z.of_nat (length (pixel v)) = 1).
      { simpl. rewrite length_app. simpl. lia. }
      destruct prompt; simpl.
      * destruct (decide (key f = KEY_i)).
        { apply (Hstep _ _ 1); [lia|exact Hl|discriminate]. }
        destruct (decide (key f = KEY_q)).
        { split; [lia|discriminate]. }
        apply (Hstep _ _ 1); [lia|exact Hl|discriminate].
      * destruct (decide (key f = KEY_q)).
        { split; intros; lia. }
        apply (Hstep _ _ 1); [lia|exact Hl|intros; lia].
    + destruct (decide (key f = KEY_q)).
      { split; intros; lia. }
      apply (Hstep _ _ 0); [lia|lia|intros; lia].
Qed.

(** [grab_calib_grid]: the same count for its loop, given buffers that
    hold [num_imgs] views. *)
Lemma grab_loop_count capture cols num_points num_imgs prompt
    (buf : list (Point2f F)) g b :
  no_keys capture -> 0 <= g <= num_imgs -> 0 <= num_points ->
  bufs_fit b num_imgs num_points -> length buf = Z.to_nat num_points ->
  exists b' rest,
    grab_loop capture cols num_points num_imgs prompt buf g b
      = Some (Z.min num_imgs (g + boards capture), b', rest) /\
    (g + boards capture < num_imgs -> rest = []) /\
    bufs_fit b' num_imgs num_points.
Proof.
  revert g b buf. induction capture as [|f cam IH]; intros g b buf Hk Hg Hnp Hb Hl.
  - rewrite boards_nil. simpl. exists b, [].
    replace (Z.min num_imgs (g + 0)) with g by lia.
    destruct (decide (g < num_imgs)); auto.
  - apply no_keys_cons in Hk as [[Hi Hq] Hk].
    pose proof (boards_nonneg cam) as Hbn.
    rewrite boards_cons. simpl.
    destruct (decide (g < num_imgs)) as [Hlt|Hge].
    + destruct (found f) eqn:Ef; simpl.
      * destruct (store_grid_ok cols num_points num_imgs g f (detect f buf) b Hb Hnp)
          as (b1 & -> & Hb1); [rewrite detect_length; exact Hl|lia|].
        simpl.
        destruct (IH (g + 1) b1 (detect f buf) Hk) as (b' & rest & E & Hr & Hb');
          [lia|exact Hnp|exact Hb1|rewrite detect_length; exact Hl|].
        exists b', rest.
        replace (g + (1 + boards cam)) with (g + 1 + boards cam) by lia.
        destruct prompt; simpl; rewrite ?decide_False by assumption;
          rewrite E; auto.
      * destruct (IH g b (detect f buf) Hk Hg Hnp Hb) as (b' & rest & E & Hr & Hb');
          [rewrite detect_length; exact Hl|].
        exists b', rest. rewrite Z.add_0_l.
        rewrite ?decide_False by assumption. rewrite E. auto.
    + exists b, (f :: cam).
      replace (Z.min num_imgs _) with g by (destruct (found f); lia).
      split; [reflexivity|]. split; [destruct (found f); lia|exact Hb].
Qed.
End CountFacts.

Section ViewsTheorems.
Context {F : Type} `{Scalar F}.

(** C3, as the code has it.  Corner [i] of a [rows x cols] board gets the
    world point (i mod cols, -(i div cols), 0) in [getChessboardViews],
    in every view it stores, and (i div cols, i mod cols, 0) in
    [grab_calib_grid], in every view slot it counts. *)
Theorem world_coordinates_by_routine (g : CvSize) (i : Z) :
  0 < width g -> 0 <= i < width g * height g ->
  world_loc (F := F) g !! Z.to_nat i =
    Some (mkPoint3f (ofZ (i mod width g)) (ofZ (- (i / width g))) (ofZ 0)) /\
  (forall (c : Calibration F) cam n prompt, grid c = g ->
     forall wv,
       wv ∈ drop (length (world (views c)))
              (world (views (getChessboardViews c cam n prompt).1.2)) ->
       wv = world_loc g) /\
  (forall f0 cam (b : GridBufs F) num_imgs prompt buf r b' rest,
     grab_calib_grid (f0 :: cam) g b num_imgs prompt true (Some buf)
       = Some (r, b', rest) ->
     forall j, 0 <= j < r ->
     cvmGet (op b') (j * (height g * width g) + i) 0
       = Some (ofZ (i / width g)) /\
     cvmGet (op b') (j * (height g * width g) + i) 1
       = Some (ofZ (i mod width g)) /\
     cvmGet (op b') (j * (height g * width g) + i) 2
       = Some (ofZ 0)).
Proof.
  intros Hc Hi. split; [apply world_loc_lookup; assumption|]. split.
  - intros c cam n prompt <- wv. unfold getChessboardViews.
    pose proof (views_loop_world cam n prompt (world_loc (grid c)) 0 (views c)) as Hw.
    destruct (views_loop cam n prompt (world_loc (grid c)) 0 (views c))
      as [[r v'] rest].
    destruct Hw as (added & _ & Hw). simpl. rewrite Hw.
    rewrite drop_app_length. intros Hin.
    apply elem_of_replicate in Hin as [-> _]. reflexivity.
  - intros f0 cam b num_imgs prompt buf r b' rest E j Hj.
    unfold grab_calib_grid in E. simpl in E.
    apply grab_loop_op in E; [|exact Hc|lia|intros ? ? ?; lia].
    apply E; lia.
Qed.

End ViewsTheorems.

Lemma world_coordinates_by_routine_witness :
  0 < width grid32 /\ 0 <= 4 < width grid32 * height grid32 /\
  world_loc (F := val) grid32 !! Z.to_nat 4 =
    Some (mkPoint3f (ofZ (4 mod width grid32)) (ofZ (- (4 / width grid32)))
            (ofZ 0)).
Proof.
  assert (H1 : 0 < width grid32) by reflexivity.
  assert (H2 : 0 <= 4 < width grid32 * height grid32)
    by (split; [discriminate|reflexivity]).
  split; [exact H1|]. split; [exact H2|].
  exact (proj1 (world_coordinates_by_routine grid32 4 H1 H2)).
Defined.

(** C3 as stated fails in [grab_calib_grid]: on a 2 x 3 board, corner 1 of
    the first view is stored as (0, 1, 0), where the row-major formula
    gives (1, 0, 0). *)
Lemma grab_calib_grid_world_point :
  exists b',
    grab_calib_grid [no_board 0; board 1 0 (-1)] grid32 (grid_bufs 1 6) 1
      false true (Some (corner_buf 6)) = Some (1, b', []) /\
    cvmGet (op b') 1 0 = Some (Vfloat 0) /\
    cvmGet (op b') 1 1 = Some (Vfloat 1) /\
    cvmGet (op b') 1 2 = Some (Vfloat 0) /\
    (ofZ (1 mod width grid32) : val) = Vfloat 1 /\
    (ofZ (- (1 / width grid32)) : val) = Vfloat 0 /\
    Vfloat 0 <> Vfloat 1.
Proof.
  eexists. split; [vm_compute; reflexivity|].
  repeat split. discriminate.
Qed.

Lemma two_boards_no_keys : no_keys two_boards.
Proof.
  intros f Hf. unfold two_boards in Hf.
  repeat (apply elem_of_cons in Hf as [->|Hf]);
    [split; discriminate..|inversion Hf].
Qed.



(** C7, at the failing input.  Interactive mode, one view wanted; the first
    board is answered with 'i', the second is kept.  [getChessboardViews]
    returns 1 and holds two views, the ignored one first.  [grab_calib_grid]
    on the same frames returns 1 with the kept view alone in the rows of its
    one slot. *)
Theorem ignored_view_stays_stored :
  (exists c',
     getChessboardViews calib0 ignore_then_keep 1 true = (1, c', []) /\
     pixel (views c') = [six_corners 0; six_corners 5] /\
     world (views c') = [world_loc grid32; world_loc grid32]) /\
  (exists b',
     grab_calib_grid (no_board 0 :: ignore_then_keep) grid32 (grid_bufs 1 6) 1
       true true (Some (corner_buf 6)) = Some (1, b', []) /\
     data (ip b') =
       mjoin ((fun c => [p2_x c; p2_y c]) <$> six_corners 5) /\
     data (pc b') = [6]).
Proof.
  split.
  - eexists. split; [vm_compute; reflexivity|]. split; reflexivity.
  - eexists. split; [vm_compute; reflexivity|]. split; reflexivity.
Qed.

(** ** The conversion inside the loop, and [getROILoc] *)

Section LoopProjection.
Context {F : Type} `{Scalar F}.
Variable undistort : CvMat F -> CvMat F -> F -> F -> F * F.

(** The loop of [skeleton.cpp] computes the same composition as
    [pixel2world], at the centre of the blob and with the depth written as
    [z * 1]. *)
Lemma to_world_is_composition (t : Tracker) (cur : TrackingWindow) A k R T :
  intrinsic t = Some A -> distortion t = Some k ->
  rot t = Some R -> has_shape R 3 3 ->
  trans t = Some T -> has_shape T 3 1 ->
  (exists w, world_buf t = Some w /\ has_shape w 3 1) ->
  (exists d, distorted_buf t = Some d /\ length (data d) = 2%nat) ->
  (exists n, normalized_buf t = Some n /\ length (data n) = 2%nat) ->
  smul (depth t) (ofZ 1) = depth t ->
  exists t',
    to_world undistort t cur =
      Some (pixelToWorld_spec undistort A k R T
              (sadd (ofZ (roi_xoff cur))
                 (sdiv (ofZ (blob_xmin cur + blob_xmax cur)) (lit 2)))
              (sadd (ofZ (roi_yoff cur))
                 (sdiv (ofZ (blob_ymin cur + blob_ymax cur)) (lit 2)))
              (depth t), t').
Proof.
  intros HA Hk HR SR HT ST (w & Hw & Sw) (d & Hd & Ld) (n & Hn & Ln) Hone.
  apply shape_data in SR as (dR & -> & LR).
  apply shape_data in ST as (dT & -> & LT).
  apply shape_data in Sw as (dw & -> & Lw).
  destruct d as [dr dc dd], n as [nr nc nd]. simpl in Ld, Ln.
  change (Z.to_nat (3 * 3)) with 9%nat in LR.
  change (Z.to_nat (3 * 1)) with 3%nat in LT, Lw.
  do 10 (destruct dR as [|? dR]; try discriminate LR).
  do 4 (destruct dT as [|? dT]; try discriminate LT).
  do 4 (destruct dw as [|? dw]; try discriminate Lw).
  do 3 (destruct dd as [|? dd]; try discriminate Ld).
  do 3 (destruct nd as [|? nd]; try discriminate Ln).
  unfold to_world. rewrite HA, Hk, HR, HT, Hw, Hd, Hn, Hone.
  generalize (depth t) as z. intros z.
  generalize (blob_xmin cur + blob_xmax cur) as sx.
  generalize (blob_ymin cur + blob_ymax cur) as sy.
  generalize (roi_xoff cur) as ox. generalize (roi_yoff cur) as oy.
  intros oy ox sy sx.
  match goal with |- exists t', ?lhs = Some (?rhs, _) =>
    set (r := lhs); set (s := rhs) end.
  vm_compute in r, s. subst r s.
  destruct (undistort A k _ _) as [nx ny].
  eexists. reflexivity.
Qed.
End LoopProjection.


Section ROILocFacts.
Variable updateROILoc : Z -> Z -> ROILoc -> Q -> ROILoc.

End ROILocFacts.

(** ** The general statements on the worked inputs *)

Lemma to_world_is_composition_witness :
  smul (depth tracker0) (ofZ 1) = depth tracker0 /\
  exists t',
    to_world undistort_pinhole tracker0 window0 =
      Some (pixelToWorld_spec undistort_pinhole cam_A cam_k cam_R cam_T
              (sadd (ofZ (roi_xoff window0))
                 (sdiv (ofZ (blob_xmin window0 + blob_xmax window0)) (lit 2)))
              (sadd (ofZ (roi_yoff window0))
                 (sdiv (ofZ (blob_ymin window0 + blob_ymax window0)) (lit 2)))
              (depth tracker0), t').
Proof.
  split; [reflexivity|].
  apply (to_world_is_composition undistort_pinhole tracker0 window0
           cam_A cam_k cam_R cam_T); try reflexivity;
    try (repeat split; fail);
    (eexists; split; [reflexivity|]; repeat split).
Defined.

Lemma prediction_control_adds_nothing_witness :
  kalman_ok kal_x0 /\ DP kal_x0 = 4 /\ CP kal_x0 = 1 /\
  data (state_post kal_x0) = floats [0; 10; 0; 3]%Q /\
  (- inject_Z (2 ^ 60) <= 1 <= inject_Z (2 ^ 60))%Q /\
  exists k' k0,
    prediction 2 heap_x0 kal_x0 (Vfloat 1) 48 = Some k' /\
    prediction_prior_no_control kal_x0 (Vfloat 1) = Some k0 /\
    state_pre k' = state_pre k0 /\
    error_cov_pre k' = error_cov_pre k0.
Proof.
  assert (Hdt : (- inject_Z (2 ^ 60) <= 1 <= inject_Z (2 ^ 60))%Q)
    by (split; discriminate).
  split; [exact kal_x0_ok|]. do 3 (split; [reflexivity|]).
  split; [exact Hdt|].
  destruct (prediction 2 heap_x0 kal_x0 (Vfloat 1) 48) as [k'|] eqn:E;
    [|vm_compute in E; discriminate E].
  destruct (prediction_control_adds_nothing 2 heap_x0 kal_x0 1 0 10 0 3 48 k'
              kal_x0_ok eq_refl eq_refl eq_refl Hdt E) as (k0 & E0 & Hs & Hp).
  exists k', k0. auto.
Defined.


Lemma setup_filter_state_post_witness :
  exists k',
    setup_filter heap_x0 16 0 0 blank_kalman = Some k' /\
    load_ptr heap_x0 (16 + 0) = Some 32 /\
    exists src,
      load_words heap_x0 32 (Z.to_nat (DP blank_kalman)) = Some src /\
      memcpy_fl (data (state_post blank_kalman)) src (Z.to_nat (DP blank_kalman))
        = Some (data (state_post k')).
Proof.
  destruct (setup_filter heap_x0 16 0 0 blank_kalman) as [k'|] eqn:E;
    [|vm_compute in E; discriminate E].
  exists k'. split; [reflexivity|]. split; [reflexivity|].
  apply (proj2 (setup_filter_state_post heap_x0 16 0 0 blank_kalman k' E) 32);
    [discriminate|reflexivity|discriminate].
Defined.

Lemma setup_filter_error_cov_post_witness :
  exists k',
    setup_filter heap_P0 0 100 0 blank_kalman = Some k' /\
    load_ptr heap_P0 (100 + 0) = Some 200 /\
    exists src,
      load_words heap_P0 100 (Z.to_nat (DP blank_kalman * DP blank_kalman))
        = Some src /\
      memcpy_fl (data (error_cov_post blank_kalman)) src
        (Z.to_nat (DP blank_kalman * DP blank_kalman))
        = Some (data (error_cov_post k')).
Proof.
  destruct (setup_filter heap_P0 0 100 0 blank_kalman) as [k'|] eqn:E;
    [|vm_compute in E; discriminate E].
  exists k'. split; [reflexivity|]. split; [reflexivity|].
  apply (proj2 (setup_filter_error_cov_post heap_P0 0 100 0 blank_kalman k' E) 200);
    [discriminate|reflexivity|discriminate].
Defined.

Lemma startup_checks_first_three_witness :
  cvLoad disk_empty A_xml = None /\
  startup disk_empty devices_ok wins0 = Exit (- EBADF).
Proof.
  split; [reflexivity|].
  exact (startup_checks_first_three disk_empty devices_ok wins0
           (or_introl eq_refl)).
Defined.

(** * Further properties *)

Section ShapeFacts.
Context {F : Type} `{Scalar F}.

Lemma build_length r c (f : Z -> Z -> F) :
  length (data (build r c f)) = (Z.to_nat r * Z.to_nat c)%nat.
Proof.
  unfold build. simpl.
  assert (L : forall l : list Z,
    length (l ≫= (fun i => (fun j => f i j) <$> seqZ 0 c))
      = (length l * Z.to_nat c)%nat).
  { induction l as [|i l IH]; [reflexivity|].
    rewrite bind_cons, length_app, length_fmap, length_seqZ, IH. simpl. lia. }
  rewrite L, length_seqZ. reflexivity.
Qed.

Lemma build_shape r c (f : Z -> Z -> F) :
  0 <= r -> 0 <= c -> has_shape (build r c f) r c.
Proof.
  intros Hr Hc. split; [reflexivity|]. split; [reflexivity|].
  rewrite build_length. rewrite Z2Nat.inj_mul by assumption. reflexivity.
Qed.

Lemma cvGEMM_shape (A B : CvMat F) a C b dst tA tB m :
  cvGEMM A B a C b dst tA tB = Some m ->
  0 <= rows dst -> 0 <= cols dst -> has_shape m (rows dst) (cols dst).
Proof.
  unfold cvGEMM. intros E Hr Hc.
  destruct (_ && _) eqn:Ec in E; [|discriminate E].
  injection E as <-.
  apply andb_prop in Ec as [Ec _]. apply andb_prop in Ec as [Ec E2].
  apply andb_prop in Ec as [_ E1].
  apply Z.eqb_eq in E1, E2. rewrite E1, E2 in *.
  apply build_shape; assumption.
Qed.

Lemma cvSetIdentity_shape (m : CvMat F) v r c :
  has_shape m r c -> 0 <= r -> 0 <= c -> has_shape (cvSetIdentity m v) r c.
Proof.
  intros (<- & <- & _) Hr Hc. apply build_shape; assumption.
Qed.

Lemma cvZero_shape (m : CvMat F) r c :
  has_shape m r c -> has_shape (cvZero m) r c.
Proof.
  intros (Hr & Hc & Hl). repeat split; [exact Hr|exact Hc|].
  simpl. rewrite length_fmap. exact Hl.
Qed.
End ShapeFacts.

Lemma memcpy_fl_length {E} (dst src d : list E) n :
  memcpy_fl dst src n = Some d -> length d = length dst.
Proof.
  unfold memcpy_fl. intros H.
  destruct (decide _) as [[H1 H2]|]; [|discriminate H]. injection H as <-.
  rewrite length_app, length_take, length_drop. lia.
Qed.

Lemma with_data_shape {E} (m : CvMat E) d r c :
  has_shape m r c -> length d = length (data m) -> has_shape (with_data m d) r c.
Proof.
  intros (Hr & Hc & Hl) Hd. repeat split; [exact Hr|exact Hc|].
  simpl. rewrite Hd. exact Hl.
Qed.

Section KalmanShape.
Context {F : Type} `{Scalar F}.

Lemma cvKalmanPredict_shape (k : CvKalman F) u k' :
  kalman_ok k -> 0 <= DP k ->
  cvKalmanPredict k u = Some k' ->
  kalman_ok k' /\ MP k' = MP k /\ DP k' = DP k /\ CP k' = CP k /\
  transition_matrix k' = transition_matrix k /\
  control_matrix k' = control_matrix k /\
  measurement_matrix k' = measurement_matrix k /\
  process_noise_cov k' = process_noise_cov k /\
  measurement_noise_cov k' = measurement_noise_cov k.
Proof.
  intros (S1 & S2 & S3 & S4 & S5 & S6 & S7 & S8 & S9 & S10) HD E.
  unfold cvKalmanPredict in E.
  apply bind_Some in E as (x1 & E1 & E).
  apply bind_Some in E as (x2 & E2 & E).
  apply bind_Some in E as (t1 & _ & E).
  apply bind_Some in E as (P' & E4 & E).
  injection E as <-.
  apply cvGEMM_shape in E1;
    [|rewrite (proj1 S1); lia|rewrite (proj1 (proj2 S1)); lia].
  rewrite (proj1 S1), (proj1 (proj2 S1)) in E1.
  assert (S1' : has_shape x2 (DP k) 1).
  { destruct u as [u|]; [|congruence].
    destruct (0 <? CP k); [|congruence].
    apply cvGEMM_shape in E2;
      [|rewrite (proj1 E1); lia|rewrite (proj1 (proj2 E1)); lia].
    rewrite (proj1 E1), (proj1 (proj2 E1)) in E2. exact E2. }
  apply cvGEMM_shape in E4;
    [|rewrite (proj1 S8); lia|rewrite (proj1 (proj2 S8)); lia].
  rewrite (proj1 S8), (proj1 (proj2 S8)) in E4.
  unfold kalman_ok. simpl. tauto.
Qed.

Lemma cvKalmanCorrect_shape (k : CvKalman F) z k' :
  kalman_ok k -> 0 <= DP k -> 0 <= MP k ->
  cvKalmanCorrect k z = Some k' ->
  kalman_ok k' /\ MP k' = MP k /\ DP k' = DP k /\ CP k' = CP k /\
  transition_matrix k' = transition_matrix k /\
  control_matrix k' = control_matrix k /\
  measurement_matrix k' = measurement_matrix k /\
  process_noise_cov k' = process_noise_cov k /\
  measurement_noise_cov k' = measurement_noise_cov k.
Proof.
  intros (S1 & S2 & S3 & S4 & S5 & S6 & S7 & S8 & S9 & S10) HD HM E.
  unfold cvKalmanCorrect in E.
  apply bind_Some in E as (t2 & E2 & E).
  apply bind_Some in E as (t3 & _ & E).
  apply bind_Some in E as (t4 & E4 & E).
  apply bind_Some in E as (t5 & _ & E).
  apply bind_Some in E as (x & Ex & E).
  apply bind_Some in E as (P & EP & E).
  injection E as <-.
  apply cvGEMM_shape in E2; [|exact HM|exact HD]. simpl in E2.
  assert (S9' : has_shape (cvTranspose t4) (DP k) (MP k)).
  { unfold cvSolve in E4. destruct (_ && _) in E4; [|discriminate E4].
    apply bind_Some in E4 as (sol & _ & E4). injection E4 as <-.
    unfold cvTranspose. simpl.
    rewrite (proj1 E2), (proj1 (proj2 E2)). apply build_shape; assumption. }
  apply cvGEMM_shape in Ex;
    [|rewrite (proj1 S2); lia|rewrite (proj1 (proj2 S2)); lia].
  rewrite (proj1 S2), (proj1 (proj2 S2)) in Ex.
  apply cvGEMM_shape in EP;
    [|rewrite (proj1 S10); lia|rewrite (proj1 (proj2 S10)); lia].
  rewrite (proj1 S10), (proj1 (proj2 S10)) in EP.
  unfold kalman_ok. simpl. tauto.
Qed.
End KalmanShape.

Section PredictionShape.
Variable Z_DIM : nat.

(** A filter stays well-formed through [prediction]: the dimensions and
    the sizes of all ten matrices are kept, so the call can be repeated on
    its own result.  Only the transition and control matrices among the
    constant ones are rewritten (with [A_k] and [B_k]); the measurement
    matrix and the two noise covariances are as before.  A call that
    returns was given a measurement address other than [NULL], a
    measurement of at least [Z_DIM] cells, a transition matrix of at least
    16 and a control matrix of at least 4. *)
Theorem prediction_keeps_shape h (kal : CvKalman val) dt_k z_k k' :
  kalman_ok kal -> 0 <= DP kal -> 0 <= MP kal ->
  prediction Z_DIM h kal dt_k z_k = Some k' ->
  kalman_ok k' /\ MP k' = MP kal /\ DP k' = DP kal /\ CP k' = CP kal /\
  data (transition_matrix k') =
    A_k dt_k ++ drop 16 (data (transition_matrix kal)) /\
  data (control_matrix k') =
    B_k dt_k ++ drop 4 (data (control_matrix kal)) /\
  measurement_matrix k' = measurement_matrix kal /\
  process_noise_cov k' = process_noise_cov kal /\
  measurement_noise_cov k' = measurement_noise_cov kal /\
  z_k <> 0 /\ (Z_DIM <= Z.to_nat (MP kal))%nat /\
  (16 <= Z.to_nat (DP kal * DP kal))%nat /\
  (4 <= Z.to_nat (DP kal * CP kal))%nat.
Proof.
  intros Hok HD HM E. unfold prediction in E.
  apply bind_Some in E as (src & Esrc & E).
  apply bind_Some in E as (zd & Ezd & E).
  apply bind_Some in E as (Ad & EA & E).
  apply bind_Some in E as (Bd & EB & E).
  apply bind_Some in E as (k1 & E1 & E).
  simpl in EB.
  pose proof Hok as (S1 & S2 & S3 & S4 & S5 & S6 & S7 & S8 & S9 & S10).
  set (kA := set_transition_matrix kal (with_data (transition_matrix kal) Ad)) in *.
  set (kB := set_control_matrix kA (with_data (control_matrix kA) Bd)) in *.
  assert (HokB : kalman_ok kB).
  { unfold kalman_ok, kB, kA. simpl.
    refine (conj S1 (conj S2 (conj _ (conj _ (conj S5 (conj S6 (conj S7
             (conj S8 (conj S9 S10))))))))).
    - apply with_data_shape; [exact S3|eapply memcpy_fl_length; exact EA].
    - apply with_data_shape; [exact S4|eapply memcpy_fl_length; exact EB]. }
  apply cvKalmanPredict_shape in E1 as (Hok1 & M1 & D1 & Cp1 & T1 & B1 & H1 & Q1 & R1);
    [|exact HokB|exact HD].
  apply cvKalmanCorrect_shape in E as (Hok2 & M2 & D2 & Cp2 & T2 & B2 & H2 & Q2 & R2);
    [|exact Hok1|rewrite D1; exact HD|rewrite M1; exact HM].
  split; [exact Hok2|].
  split; [rewrite M2, M1; reflexivity|].
  split; [rewrite D2, D1; reflexivity|].
  split; [rewrite Cp2, Cp1; reflexivity|].
  unfold memcpy_fl in EA, EB, Ezd.
  destruct (decide _) as [[LA1 LA2]|] in EA; [|discriminate EA].
  destruct (decide _) as [[LB1 LB2]|] in EB; [|discriminate EB].
  destruct (decide _) as [[Lz1 Lz2]|] in Ezd; [|discriminate Ezd].
  injection EA as <-. injection EB as <-.
  split; [rewrite T2, T1; reflexivity|].
  split; [rewrite B2, B1; reflexivity|].
  split; [rewrite H2, H1; reflexivity|].
  split; [rewrite Q2, Q1; reflexivity|].
  split; [rewrite R2, R1; reflexivity|].
  split.
  { unfold load_words in Esrc. destruct (decide (z_k = 0)); [discriminate|assumption]. }
  split.
  { simpl in Lz1. rewrite length_replicate in Lz1. rewrite Z.mul_1_r in Lz1. exact Lz1. }
  split.
  - rewrite <- (proj2 (proj2 S3)). exact LA1.
  - rewrite <- (proj2 (proj2 S4)). exact LB1.
Qed.
End PredictionShape.

(** ** [setup_kalman] over a bank of filters *)

(** [setup_kalman] initialises a filter and nothing else of it: the
    measurement matrix becomes the identity, the process and measurement
    noise covariances [0.1 I] and [0.00001 I], the posterior state and
    covariance are set, and the prior state and covariance, the transition
    and control matrices and the gain are left as they were allocated.  A
    well-formed filter stays well-formed. *)
Theorem setup_filter_keeps_shape h x0 P0 i (k k' : CvKalman val) :
  kalman_ok k -> 0 <= MP k -> 0 <= DP k ->
  setup_filter h x0 P0 i k = Some k' ->
  kalman_ok k' /\ MP k' = MP k /\ DP k' = DP k /\ CP k' = CP k /\
  measurement_matrix k' = cvSetIdentity (measurement_matrix k) (lit 1) /\
  process_noise_cov k' = cvSetIdentity (process_noise_cov k) (lit (1 # 10)) /\
  measurement_noise_cov k' =
    cvSetIdentity (measurement_noise_cov k) (lit (1 # 100000)) /\
  state_pre k' = state_pre k /\ error_cov_pre k' = error_cov_pre k /\
  transition_matrix k' = transition_matrix k /\
  control_matrix k' = control_matrix k /\ gain k' = gain k.
Proof.
  intros (S1 & S2 & S3 & S4 & S5 & S6 & S7 & S8 & S9 & S10) HM HD E.
  destruct k as [mp dp cp m1 m2 m3 m4 m5 m6 m7 m8 m9 m10].
  unfold setup_filter in E. simpl in *.
  apply bind_Some in E as (x0_i & _ & E).
  apply bind_Some in E as (k1 & Ek & E).
  apply bind_Some in E as (P0_i & _ & E).
  assert (Hk1 : exists x, has_shape x dp 1 /\
            k1 = mkKalman mp dp cp m1 x m3 m4 (cvSetIdentity m5 (lit 1))
                   (cvSetIdentity m6 (lit (1 # 10)))
                   (cvSetIdentity m7 (lit (1 # 100000))) m8 m9 m10).
  { destruct (decide (x0_i = 0)).
    - injection Ek as <-. eexists. split; [|reflexivity].
      apply cvZero_shape. exact S2.
    - apply bind_Some in Ek as (src & _ & Ek).
      apply bind_Some in Ek as (d & Ed & Ek). injection Ek as <-.
      eexists. split; [|reflexivity].
      apply with_data_shape; [exact S2|eapply memcpy_fl_length; exact Ed]. }
  destruct Hk1 as (x & Sx & ->). simpl in E.
  assert (Hk' : exists P, has_shape P dp dp /\
            k' = mkKalman mp dp cp m1 x m3 m4 (cvSetIdentity m5 (lit 1))
                   (cvSetIdentity m6 (lit (1 # 10)))
                   (cvSetIdentity m7 (lit (1 # 100000))) m8 m9 P).
  { destruct (decide (P0_i = 0)).
    - injection E as <-. eexists. split; [|reflexivity].
      apply cvSetIdentity_shape; assumption.
    - apply bind_Some in E as (src & _ & E).
      apply bind_Some in E as (d & Ed & E). injection E as <-.
      eexists. split; [|reflexivity].
      apply with_data_shape; [exact S10|eapply memcpy_fl_length; exact Ed]. }
  destruct Hk' as (P & SP & ->).
  split.
  { unfold kalman_ok. simpl.
    refine (conj S1 (conj Sx (conj S3 (conj S4 (conj _ (conj _ (conj _
             (conj S8 (conj S9 SP))))))))); apply cvSetIdentity_shape; assumption. }
  simpl. repeat split; reflexivity.
Qed.

Lemma setup_kalman_loop_spec h x0 P0 idx kal kal' :
  setup_kalman_loop h x0 P0 idx kal = Some kal' ->
  NoDup idx -> (forall i, i ∈ idx -> 0 <= i) ->
  length kal' = length kal /\
  (forall i, i ∈ idx ->
     (kal !! Z.to_nat i = Some None /\ kal' !! Z.to_nat i = Some None) \/
     (exists k k', kal !! Z.to_nat i = Some (Some k) /\
        setup_filter h x0 P0 i k = Some k' /\
        kal' !! Z.to_nat i = Some (Some k'))) /\
  (forall j, (forall i, i ∈ idx -> Z.to_nat i <> j) -> kal' !! j = kal !! j).
Proof.
  revert kal. induction idx as [|i idx IH]; intros kal E Hnd Hpos.
  - injection E as <-. split; [reflexivity|]. split; [|reflexivity].
    intros i Hi. inversion Hi.
  - apply NoDup_cons in Hnd as [Hi Hnd].
    assert (Hpos' : forall i', i' ∈ idx -> 0 <= i').
    { intros i' Hi'. apply Hpos. right. exact Hi'. }
    assert (Hne : forall i', i' ∈ idx -> Z.to_nat i' <> Z.to_nat i).
    { intros i' Hi' Heq.
      assert (i' = i) by (assert (0 <= i) by (apply Hpos; left);
                         pose proof (Hpos' i' Hi'); lia).
      subst. contradiction. }
    simpl in E. apply bind_Some in E as (slot & Eslot & E).
    destruct slot as [k|].
    + apply bind_Some in E as (k1 & Ek & E).
      apply IH in E as (L & Hin & Hout); [|exact Hnd|exact Hpos'].
      pose proof (lookup_lt_Some _ _ _ Eslot) as Hlt.
      rewrite length_insert in L. split; [exact L|]. split.
      * intros i' Hi'. apply elem_of_cons in Hi' as [->|Hi'].
        -- right. exists k, k1. split; [exact Eslot|]. split; [exact Ek|].
           rewrite Hout by exact Hne.
           apply list_lookup_insert_eq. exact Hlt.
        -- specialize (Hin i' Hi').
           rewrite list_lookup_insert_ne in Hin by (intros Heq; exact (Hne i' Hi' (eq_sym Heq))).
           exact Hin.
      * intros j Hj. rewrite Hout.
        -- apply list_lookup_insert_ne. apply Hj. left.
        -- intros i' Hi'. apply Hj. right. exact Hi'.
    + apply IH in E as (L & Hin & Hout); [|exact Hnd|exact Hpos'].
      split; [exact L|]. split.
      * intros i' Hi'. apply elem_of_cons in Hi' as [->|Hi'].
        -- left. split; [exact Eslot|]. rewrite Hout by exact Hne. exact Eslot.
        -- apply Hin. exact Hi'.
      * intros j Hj. apply Hout. intros i' Hi'. apply Hj. right. exact Hi'.
Qed.

(** [setup_kalman(kal, n, x0, P0)] on an array of filters: the array has at
    least [n] entries, a [NULL] entry below [n] is skipped, every other
    entry below [n] is set up once, on its own index, and the entries from
    [n] on are not touched. *)
Theorem setup_kalman_bank h kal n x0 P0 kal' :
  setup_kalman h kal n x0 P0 = Some kal' ->
  length kal' = length kal /\
  (forall i, 0 <= i < n -> is_Some (kal !! Z.to_nat i)) /\
  (forall i, 0 <= i < n -> kal !! Z.to_nat i = Some None ->
     kal' !! Z.to_nat i = Some None) /\
  (forall i k, 0 <= i < n -> kal !! Z.to_nat i = Some (Some k) ->
     exists k', setup_filter h x0 P0 i k = Some k' /\
                kal' !! Z.to_nat i = Some (Some k')) /\
  (forall j, (Z.to_nat n <= j)%nat -> kal' !! j = kal !! j).
Proof.
  unfold setup_kalman. intros E.
  apply setup_kalman_loop_spec in E as (L & Hin & Hout).
  - split; [exact L|]. split; [|split; [|split]].
    + intros i Hi.
      destruct (Hin i) as [[-> _]|(k & k' & -> & _)];
        [apply elem_of_seqZ; lia|eauto..].
    + intros i Hi Hn.
      destruct (Hin i) as [[_ H]|(k & k' & Hk & _)];
        [apply elem_of_seqZ; lia|exact H|congruence].
    + intros i k Hi Hk.
      destruct (Hin i) as [[H _]|(k0 & k' & Hk0 & Hs & Hk')];
        [apply elem_of_seqZ; lia|congruence|].
      exists k'. split; [congruence|exact Hk'].
    + intros j Hj. apply Hout. intros i Hi. apply elem_of_seqZ in Hi. lia.
  - apply NoDup_seqZ.
  - intros i Hi. apply elem_of_seqZ in Hi. lia.
Qed.

(** ** Projection with a well-formed model *)

Lemma fl_set_length {E} (m m' : CvMat E) i v :
  fl_set m i v = Some m' -> length (data m') = length (data m).
Proof.
  unfold fl_set. intros H. destruct (decide _); [|discriminate H].
  injection H as <-. simpl. apply length_insert.
Qed.

Lemma fl_set_data {E} (m m' : CvMat E) i v :
  fl_set m i v = Some m' -> data m' = <[i:=v]> (data m).
Proof.
  unfold fl_set. intros H. destruct (decide _); [|discriminate H].
  injection H as <-. reflexivity.
Qed.

Section ProjectionFacts.
Context {F : Type} `{Scalar F}.
Variable undistort : CvMat F -> CvMat F -> F -> F -> F * F.

(** The arithmetic of the projection on buffers of the right sizes: it
    returns, the buffers keep their sizes, and with the depth in the third
    component the first two components of [world] are the specified
    map of the pixel found in [distorted]. *)
Lemma back_project_ok A k R T w d n px py z z2 :
  has_shape R 3 3 -> has_shape T 3 1 -> has_shape w 3 1 ->
  data d = [px; py] -> length (data n) = 2%nat ->
  exists w0 w1 w2 n',
    back_project undistort A k R T w d n z z2 = Some (mkMat 3 1 [w0; w1; w2], n') /\
    length (data n') = 2%nat /\
    (z2 = z -> (w0, w1) = pixelToWorld_spec undistort A k R T px py z).
Proof.
  intros SR ST Sw Hd Ln.
  apply shape_data in SR as (dR & -> & LR).
  apply shape_data in ST as (dT & -> & LT).
  apply shape_data in Sw as (dw & -> & Lw).
  destruct d as [dr dc dd], n as [nr nc nd]. simpl in Hd, Ln. subst dd.
  change (Z.to_nat (3 * 3)) with 9%nat in LR.
  change (Z.to_nat (3 * 1)) with 3%nat in LT, Lw.
  do 10 (destruct dR as [|? dR]; try discriminate LR).
  do 4 (destruct dT as [|? dT]; try discriminate LT).
  do 4 (destruct dw as [|? dw]; try discriminate Lw).
  do 3 (destruct nd as [|? nd]; try discriminate Ln).
  match goal with |- exists w0 w1 w2 n', ?lhs = _ /\ _ /\ (_ -> _ = ?rhs) =>
    set (r := lhs); set (s := rhs) end.
  vm_compute in r, s. subst r s.
  destruct (undistort A k px py) as [nx ny].
  do 4 eexists. split; [reflexivity|]. split; [reflexivity|].
  intros ->. reflexivity.
Qed.

(** [pixel2world] can be called again and again: a call that finds the
    statics as [setup_world_frame] leaves them returns them in the same
    condition, the camera model untouched and the three scratch buffers of
    the sizes they had. *)
Theorem pixel2world_keeps_ready (g : WorldFrame F) A k R T p z xy g' :
  frame_ready g A k R T ->
  pixel2world undistort g p z = Some (xy, g') ->
  frame_ready g' A k R T.
Proof.
  intros (HA & Hk & HR & SR & HT & ST & (w & Hw & Sw) & (d & Hd & Ld) & (n & Hn & Ln)) E.
  unfold pixel2world in E. rewrite HA, Hk, HR, HT, Hw, Hd, Hn in E. simpl in E.
  apply bind_Some in E as (d1 & E1 & E).
  apply bind_Some in E as (d2 & E2 & E).
  apply bind_Some in E as ([w' n'] & Ebp & E).
  assert (Hd2 : data d2 = [ofZ (pt_x p); ofZ (pt_y p)]).
  { rewrite (fl_set_data _ _ _ _ E2), (fl_set_data _ _ _ _ E1).
    destruct (data d) as [|a [|b [|c l]]]; try discriminate Ld. reflexivity. }
  destruct (back_project_ok A k R T w d2 n _ _ z z SR ST Sw Hd2 Ln)
    as (w0 & w1 & w2 & n'' & Ebp' & Ln' & Hv).
  rewrite Ebp' in Ebp. injection Ebp as <- <-.
  apply bind_Some in E as (x & Ex & E).
  apply bind_Some in E as (y & Ey & E).
  injection E as <- <-.
  unfold frame_ready. simpl.
  split; [reflexivity|]. split; [reflexivity|].
  split; [reflexivity|]. split; [exact SR|].
  split; [reflexivity|]. split; [exact ST|].
  split; [eexists; split; [reflexivity|repeat split]|].
  split; [eexists; split; [reflexivity|rewrite Hd2; reflexivity]|].
  eexists; split; [reflexivity|exact Ln'].
Qed.

(** [setup_world_frame] followed by [pixel2world].  When the set-up
    reports success, the four matrices on file have the sizes the
    projection and [cvUndistortPoints] ask for (3x3 intrinsics, 4 or 5
    distortion coefficients, 3x3 rotation, 3x1 translation) and the allocator
    returns what it is asked for, every later [pixel2world(p, z)] returns,
    and returns the specified map of [p] under the four matrices on file.
    The three buffers are those of the three allocations, each of which the
    set-up has tested. *)
Theorem setup_then_pixel2world (fs : Storage F) fa fk fr ft g0 p z :
  alloc_ok fs ->
  (forall A, cvLoad fs fa = Some A -> has_shape A 3 3) ->
  (forall k, cvLoad fs fk = Some k -> dist_ok k) ->
  (forall R, cvLoad fs fr = Some R -> has_shape R 3 3) ->
  (forall T, cvLoad fs ft = Some T -> has_shape T 3 1) ->
  (setup_world_frame fs fa fk fr ft g0).1 = CV_OK ->
  exists A k R T g',
    cvLoad fs fa = Some A /\ cvLoad fs fk = Some k /\
    cvLoad fs fr = Some R /\ cvLoad fs ft = Some T /\
    wf_world (setup_world_frame fs fa fk fr ft g0).2
      = cvCreateMat fs 0%nat 3 1 1 /\
    wf_normalized (setup_world_frame fs fa fk fr ft g0).2
      = cvCreateMat fs 1%nat 1 1 2 /\
    wf_distorted (setup_world_frame fs fa fk fr ft g0).2
      = cvCreateMat fs 2%nat 1 1 2 /\
    frame_ready (setup_world_frame fs fa fk fr ft g0).2 A k R T /\
    pixel2world undistort (setup_world_frame fs fa fk fr ft g0).2 p z =
      Some (pixelToWorld_spec undistort A k R T (ofZ (pt_x p)) (ofZ (pt_y p)) z,
            g').
Proof.
  intros Halloc _ _ HR HT. unfold setup_world_frame. simpl.
  destruct (cvLoad fs fa) as [A|]; [|discriminate].
  destruct (cvLoad fs fk) as [k|]; [|discriminate].
  destruct (cvLoad fs fr) as [R|]; [|discriminate].
  destruct (cvLoad fs ft) as [T|]; [|discriminate].
  destruct (cvCreateMat fs 0%nat 3 1 1) as [w|] eqn:Ew; [|discriminate].
  destruct (cvCreateMat fs 1%nat 1 1 2) as [n|] eqn:En; [|discriminate].
  destruct (cvCreateMat fs 2%nat 1 1 2) as [d|] eqn:Ed; [|discriminate].
  intros _.
  specialize (HR R eq_refl). specialize (HT T eq_refl).
  destruct (Halloc _ _ _ _ _ Ew) as [Lw Sw]. destruct (Sw eq_refl) as [Rw Cw].
  destruct (Halloc _ _ _ _ _ En) as [Ln _].
  destruct (Halloc _ _ _ _ _ Ed) as [Ld _].
  change (Z.to_nat (1 * 1 * 2)) with 2%nat in Ln, Ld.
  assert (Hw : has_shape w 3 1) by (repeat split; assumption).
  assert (Hready : frame_ready (mkWorldFrame (Some A) (Some k) (Some R) (Some T)
                                  (Some w) (Some d) (Some n)) A k R T).
  { unfold frame_ready. simpl. repeat split; eauto; try apply HR; try apply HT. }
  exists A, k, R, T.
  unfold pixel2world. simpl.
  destruct (fl_set d 0 (ofZ (pt_x p))) as [d1|] eqn:E1.
  2:{ unfold fl_set in E1. rewrite decide_True in E1 by lia. discriminate E1. }
  pose proof (fl_set_length _ _ _ _ E1) as L1.
  cbn [mbind option_bind].
  destruct (fl_set d1 1 (ofZ (pt_y p))) as [d2|] eqn:E2.
  2:{ unfold fl_set in E2. rewrite decide_True in E2 by lia. discriminate E2. }
  assert (Hd2 : data d2 = [ofZ (pt_x p); ofZ (pt_y p)]).
  { rewrite (fl_set_data _ _ _ _ E2), (fl_set_data _ _ _ _ E1).
    destruct (data d) as [|a [|b [|c l]]]; try discriminate Ld. reflexivity. }
  destruct (back_project_ok A k R T w d2 n _ _ z z HR HT Hw Hd2 Ln)
    as (w0 & w1 & w2 & n'' & Ebp' & Ln' & Hv).
  cbn [mbind option_bind]. rewrite Ebp'. simpl. rewrite <- (Hv eq_refl).
  eexists. do 7 (split; [reflexivity|]).
  split; [exact Hready|]. reflexivity.
Qed.
End ProjectionFacts.

(** ** Start-up and the loop of [skeleton.cpp], continued *)

Section TrackerFacts.
Context {F : Type} `{Scalar F}.
Variable threshold : Grab -> TrackingWindow -> Z -> TrackingWindow.
Variable erode : Grab -> TrackingWindow -> TrackingWindow.
Variable position : Grab -> TrackingWindow -> TrackingWindow.
Variable undistort : CvMat F -> CvMat F -> F -> F -> F * F.

(** The loop is entered only with all four matrices of the camera model
    loaded, the depth read from the third row of the translation, each of
    the three buffers allocated by its own call, the process priority
    raised and the port and the camera opened; it starts at image 1 with
    nothing sent.  (A missing translation ends in a crash before the loop,
    not in the loop.) *)
Theorem startup_ready_loaded (fs : Storage F) dev w (t : Tracker) :
  startup fs dev w = Ready t ->
  (exists A, cvLoad fs A_xml = Some A /\ intrinsic t = Some A) /\
  (exists k, cvLoad fs k_xml = Some k /\ distortion t = Some k) /\
  (exists R, cvLoad fs R_xml = Some R /\ rot t = Some R) /\
  (exists T, cvLoad fs T_xml = Some T /\ trans t = Some T /\
             raw_get T 2 0 = Some (depth t)) /\
  (is_Some (world_buf t) /\ world_buf t = cvCreateMat fs 0%nat 3 1 1) /\
  (is_Some (normalized_buf t) /\
   normalized_buf t = cvCreateMat fs 1%nat 1 1 2) /\
  (is_Some (distorted_buf t) /\
   distorted_buf t = cvCreateMat fs 2%nat 1 1 2) /\
  set_priority_class dev = true /\ set_thread_priority dev = true /\
  open_comm dev = FG_OK /\ init_cam dev = FG_OK /\ acquire_imgs dev = FG_OK /\
  wins t = w /\ img_nr t = 1 /\ sent t = [].
Proof.
  unfold startup.
  destruct (cvLoad fs A_xml) as [A|]; [|discriminate].
  destruct (cvLoad fs k_xml) as [k|]; [|discriminate].
  destruct (cvLoad fs R_xml) as [R|]; [|discriminate].
  destruct (cvCreateMat fs 0%nat 3 1 1) as [wb|]; [|discriminate].
  destruct (cvCreateMat fs 1%nat 1 1 2) as [nb|]; [|discriminate].
  destruct (cvCreateMat fs 2%nat 1 1 2) as [db|]; [|discriminate].
  destruct (set_priority_class dev); [|discriminate].
  destruct (set_thread_priority dev); [|discriminate].
  destruct (open_comm dev =? FG_OK) eqn:E1; [|discriminate].
  destruct (init_cam dev =? FG_OK) eqn:E2; [|discriminate].
  destruct (acquire_imgs dev =? FG_OK) eqn:E3; [|discriminate].
  apply Z.eqb_eq in E1, E2, E3. cbn [negb].
  destruct (cvLoad fs T_xml) as [T|]; [|discriminate].
  cbn [mbind option_bind].
  destruct (raw_get T 2 0) as [z|] eqn:Ez; [|discriminate].
  intros E. injection E as <-. cbn.
  repeat split; eauto.
Qed.

Lemma to_world_inv (t : Tracker) cur r t' :
  to_world undistort t cur = Some (r, t') ->
  intrinsic t' = intrinsic t /\ distortion t' = distortion t /\
  rot t' = rot t /\ trans t' = trans t /\ depth t' = depth t /\
  wins t' = wins t /\ img_nr t' = img_nr t /\ sent t' = sent t.
Proof.
  unfold to_world. intros E.
  apply bind_Some in E as (A & -> & E).
  apply bind_Some in E as (k & -> & E).
  apply bind_Some in E as (R & -> & E).
  apply bind_Some in E as (T & -> & E).
  apply bind_Some in E as (w0 & _ & E).
  apply bind_Some in E as (d0 & _ & E).
  apply bind_Some in E as (n0 & _ & E).
  apply bind_Some in E as (d1 & _ & E).
  apply bind_Some in E as (d2 & _ & E).
  apply bind_Some in E as ([w n] & _ & E).
  apply bind_Some in E as (x & _ & E).
  apply bind_Some in E as (y & _ & E).
  injection E as _ <-. cbn. repeat split.
Qed.

Lemma to_world_ok (t : Tracker) cur :
  model_ok t ->
  exists r t', to_world undistort t cur = Some (r, t') /\ model_ok t'.
Proof.
  intros ((A & HA & SA) & (k & Hk & Sk) & (R & HR & SR) & (T & HT & ST)
          & (w & Hw & Sw) & (d & Hd & Ld) & (n & Hn & Ln)).
  unfold to_world. rewrite HA, Hk, HR, HT, Hw, Hd, Hn.
  cbn [mbind option_bind].
  match goal with |- context [fl_set d 0 ?v] =>
    destruct (fl_set d 0 v) as [d1|] eqn:E1 end.
  2:{ unfold fl_set in E1. rewrite decide_True in E1 by lia. discriminate E1. }
  pose proof (fl_set_length _ _ _ _ E1) as L1.
  cbn [mbind option_bind].
  match goal with |- context [fl_set d1 1 ?v] =>
    destruct (fl_set d1 1 v) as [d2|] eqn:E2 end.
  2:{ unfold fl_set in E2. rewrite decide_True in E2 by lia. discriminate E2. }
  assert (Hd2 : exists px py, data d2 = [px; py]).
  { rewrite (fl_set_data _ _ _ _ E2), (fl_set_data _ _ _ _ E1).
    destruct (data d) as [|a [|b [|c l]]]; try discriminate Ld.
    do 2 eexists. reflexivity. }
  destruct Hd2 as (px & py & Hd2).
  cbn [mbind option_bind].
  destruct (back_project_ok undistort A k R T w d2 n px py (depth t)
              (smul (depth t) (ofZ 1)) SR ST Sw Hd2 Ln)
    as (w0 & w1 & w2 & n' & Ebp & Ln' & _).
  rewrite Ebp. cbn.
  do 2 eexists. split; [reflexivity|].
  unfold model_ok. cbn.
  split; [eauto|]. split; [eauto|].
  split; [eauto|]. split; [eauto|].
  split; [eexists; split; [reflexivity|repeat split]|].
  split; [eexists; split; [reflexivity|rewrite Hd2; reflexivity]|].
  eexists; split; [reflexivity|exact Ln'].
Qed.

(** One pass of the loop, read off [iteration]. *)
Lemma iteration_inv (t : Tracker) (g : Grab) :
  match iteration threshold erode position undistort t g with
  | Continue t' =>
      (intrinsic t' = intrinsic t /\ distortion t' = distortion t /\
       rot t' = rot t /\ trans t' = trans t /\ depth t' = depth t) /\
      (exists x y, sent t' = sent t ++ [((announced g).1, x, y, (announced g).2)]) /\
      img_nr t' = u32 (u32 (pic_nr g) + NEXT_IMAGE) /\
      length (wins t') = length (wins t) /\
      (announced g).1 < Z.of_nat (length (wins t)) /\
      quit g = false /\ comm_rc g = FG_OK
  | Break t' =>
      (intrinsic t' = intrinsic t /\ distortion t' = distortion t /\
       rot t' = rot t /\ trans t' = trans t /\ depth t' = depth t) /\
      length (wins t') = length (wins t) /\
      (sent t' = sent t \/
       (exists x y, sent t' = sent t ++ [((announced g).1, x, y, (announced g).2)])
       /\ (announced g).1 < Z.of_nat (length (wins t)))
  | Fault => True
  end.
Proof.
  unfold iteration, announced.
  destruct (quit g); [repeat split; auto|].
  destruct (tag_rc g =? FG_OK); cbn [negb]; [|repeat split; auto].
  destruct (ts_rc g =? FG_OK); cbn [negb]; [|repeat split; auto].
  cbv zeta.
  change (wins (with_wins t (u32 (pic_nr g)) (wins t))) with (wins t).
  pose proof (u32_shift_range (tag g)) as Hid.
  destruct (wins t !! Z.to_nat (Z.shiftr (u32 (tag g)) 16)) as [w|] eqn:Ew;
    [|exact I].
  apply lookup_lt_Some in Ew.
  assert (Hlt : Z.shiftr (u32 (tag g)) 16 < Z.of_nat (length (wins t))) by lia.
  destruct (decide _).
  { cbn -[insert]. rewrite length_insert. repeat split; auto. }
  match goal with |- context [to_world undistort ?tt ?cc] =>
    destruct (to_world undistort tt cc) as [[[x y] t1]|] eqn:E end; [|exact I].
  apply to_world_inv in E as (E1 & E2 & E3 & E4 & E5 & E6 & E7 & E8).
  cbn -[insert] in E1, E2, E3, E4, E5, E6, E7, E8.
  destruct (comm_rc g =? FG_OK) eqn:Ec; cbn [negb].
  - apply Z.eqb_eq in Ec. cbn -[insert]. rewrite E8, E6, !length_insert.
    repeat split; eauto.
  - cbn -[insert]. rewrite E8, E6, !length_insert. repeat split; eauto.
Qed.

Lemma iteration_ok (t : Tracker) (g : Grab) :
  model_ok t ->
  Z.shiftr (u32 (tag g)) 16 < Z.of_nat (length (wins t)) ->
  match iteration threshold erode position undistort t g with
  | Continue t' | Break t' => model_ok t'
  | Fault => False
  end.
Proof.
  intros Hok Hlt. unfold iteration.
  destruct (quit g); [exact Hok|].
  destruct (tag_rc g =? FG_OK); cbn [negb]; [|exact Hok].
  destruct (ts_rc g =? FG_OK); cbn [negb]; [|exact Hok].
  cbv zeta.
  change (wins (with_wins t (u32 (pic_nr g)) (wins t))) with (wins t).
  pose proof (u32_shift_range (tag g)) as Hid.
  destruct (lookup_lt_is_Some_2 (wins t) (Z.to_nat (Z.shiftr (u32 (tag g)) 16)))
    as [w ->]; [lia|].
  destruct (decide _); [exact Hok|].
  match goal with |- context [to_world undistort ?tt ?cc] =>
    destruct (to_world_ok tt cc) as (r & t1 & E & Hok1); [exact Hok|] end.
  rewrite E. destruct r as [x y].
  destruct (comm_rc g =? FG_OK); cbn [negb]; exact Hok1.
Qed.

(** The camera model is read-only in the loop: for every run of the loop
    that stays inside the window array, however it ends, the four matrices
    and the depth are those the loop was entered with. *)
Theorem tracking_loop_camera_fixed (t : Tracker) (gs : list Grab) t' :
  tracking_loop threshold erode position undistort t gs = Continue t' \/
  tracking_loop threshold erode position undistort t gs = Break t' ->
  intrinsic t' = intrinsic t /\ distortion t' = distortion t /\
  rot t' = rot t /\ trans t' = trans t /\ depth t' = depth t.
Proof.
  revert t. induction gs as [|g gs IH]; intros t E.
  - simpl in E. destruct E as [E|E]; [|discriminate E].
    injection E as <-. repeat split.
  - simpl in E. pose proof (iteration_inv t g) as Hi.
    destruct (iteration threshold erode position undistort t g) as [t1|t1|].
    + destruct Hi as ((H1 & H2 & H3 & H4 & H5) & _).
      destruct (IH t1 E) as (I1 & I2 & I3 & I4 & I5).
      repeat split; congruence.
    + destruct E as [E|E]; [discriminate E|]. injection E as <-.
      exact (proj1 Hi).
    + destruct E as [E|E]; discriminate E.
Qed.

(** What the loop hands to [write_comm], for every run that stays inside
    the window array: messages are only appended, one per grab in the order
    of the grabs, each carrying the ROI id of the grab's tag (its upper 16
    bits) and its time stamp, and every id sent names a window of the
    array.  While the loop runs there is exactly one message per grab and
    the image number is the last picture number plus one, as 32-bit
    unsigned numbers.  (A tag that names no window of the array is the case
    [Fault].) *)
Theorem tracking_loop_messages (t : Tracker) (gs : list Grab) :
  match tracking_loop threshold erode position undistort t gs with
  | Continue t' =>
      (exists msgs, sent t' = sent t ++ msgs /\
         (fun m => (m.1.1.1, m.2)) <$> msgs = announced <$> gs) /\
      Forall (fun g => (announced g).1 < Z.of_nat (length (wins t))) gs /\
      length (wins t') = length (wins t) /\
      (forall g, last gs = Some g ->
         img_nr t' = u32 (u32 (pic_nr g) + NEXT_IMAGE))
  | Break t' =>
      exists msgs, sent t' = sent t ++ msgs /\
        (length msgs <= length gs)%nat /\
        (fun m => (m.1.1.1, m.2)) <$> msgs = announced <$> take (length msgs) gs /\
        Forall (fun m => m.1.1.1 < Z.of_nat (length (wins t))) msgs /\
        length (wins t') = length (wins t)
  | Fault => True
  end.
Proof.
  revert t. induction gs as [|g gs IH]; intros t.
  - simpl. split; [exists []; rewrite app_nil_r; auto|].
    split; [constructor|]. split; [reflexivity|discriminate].
  - simpl. pose proof (iteration_inv t g) as Hi.
    destruct (iteration threshold erode position undistort t g) as [t1|t1|];
      [| |exact I].
    + destruct Hi as (_ & (x & y & Hs) & Hnr & Hlen & Hid & _).
      specialize (IH t1).
      destruct (tracking_loop threshold erode position undistort t1 gs)
        as [t2|t2|] eqn:Et; [| |exact I].
      * destruct IH as ((msgs & Hm & Hids) & Hall & Hlen2 & Hlast).
        rewrite Hlen in Hall, Hlen2.
        split; [|split; [|split]].
        -- exists ((((announced g).1, x, y), (announced g).2) :: msgs).
           rewrite Hm, Hs, <- app_assoc. split; [reflexivity|].
           rewrite !fmap_cons, Hids. destruct (announced g). reflexivity.
        -- constructor; assumption.
        -- exact Hlen2.
        -- intros g' Hg'. destruct gs as [|g1 gs].
           ++ injection Hg' as <-. simpl in Et. injection Et as <-. exact Hnr.
           ++ apply Hlast. exact Hg'.
      * destruct IH as (msgs & Hm & Hl & Hids & Hall & Hlen2).
        rewrite Hlen in Hall, Hlen2.
        exists ((((announced g).1, x, y), (announced g).2) :: msgs).
        rewrite Hm, Hs, <- app_assoc. split; [reflexivity|].
        split; [simpl; lia|].
        split.
        { cbn [length take]. rewrite !fmap_cons, Hids.
          destruct (announced g). reflexivity. }
        split; [constructor; [exact Hid|exact Hall]|exact Hlen2].
    + destruct Hi as (_ & Hlen & [Hs|[(x & y & Hs) Hid]]).
      * exists []. rewrite app_nil_r. split; [exact Hs|]. split; [simpl; lia|].
        split; [reflexivity|]. split; [constructor|exact Hlen].
      * exists [(((announced g).1, x, y), (announced g).2)].
        split; [exact Hs|]. split; [simpl; lia|].
        split.
        { cbn [length take]. rewrite !fmap_cons.
          destruct (announced g). reflexivity. }
        split; [repeat constructor; exact Hid|exact Hlen].
Qed.

(** With a camera model of the right sizes, the conversion to world
    coordinates is defined in every iteration whose tag names a window of
    the array: if every grab does, the loop never leaves the window array
    nor the buffers of its matrices, and the model keeps its sizes. *)
Theorem tracking_loop_projection_defined (t : Tracker) (gs : list Grab) :
  model_ok t ->
  Forall (fun g => Z.shiftr (u32 (tag g)) 16 < Z.of_nat (length (wins t))) gs ->
  match tracking_loop threshold erode position undistort t gs with
  | Continue t' | Break t' =>
      model_ok t' /\ length (wins t') = length (wins t)
  | Fault => False
  end.
Proof.
  revert t. induction gs as [|g gs IH]; intros t Hok Hall.
  - simpl. auto.
  - apply Forall_cons in Hall as [Hg Hall].
    simpl. pose proof (iteration_ok t g Hok Hg) as Hi.
    pose proof (iteration_inv t g) as Hv.
    destruct (iteration threshold erode position undistort t g) as [t1|t1|].
    + destruct Hv as (_ & _ & _ & Hlen & _).
      rewrite <- Hlen in Hall. specialize (IH t1 Hi Hall).
      destruct (tracking_loop threshold erode position undistort t1 gs);
        [| |exact IH]; (split; [apply IH|rewrite <- Hlen; apply IH]).
    + split; [exact Hi|]. apply Hv.
    + exact Hi.
Qed.
End TrackerFacts.

(** ** What [getChessboardViews] keeps *)

Section ViewsKept.
Context {F : Type} `{Scalar F}.

Lemma views_loop_kept cam n prompt (wl : list (Point3f F)) g v :
  let '(r, v', rest) := views_loop cam n prompt wl g v in
  save_views v' = save_views v /\
  rest `suffix_of` cam /\
  g <= r <= Z.max g n /\
  (r < n -> rest = [] \/ exists f, f ∈ cam /\ key f = KEY_q) /\
  exists kept,
    kept `sublist_of` cam /\ Forall (fun f => found f = true) kept /\
    pixel v' = pixel v ++ (corners <$> kept) /\
    world v' = world v ++ replicate (length kept) wl /\
    chessboards v' =
      chessboards v ++ (if save_views v then image <$> kept else []).
Proof.
  revert g v. induction cam as [|f cam IH]; intros g v.
  - assert (views_loop [] n prompt wl g v = (g, v, [])) as ->.
    { simpl. destruct (decide (g < n)); reflexivity. }
    split; [reflexivity|]. split; [reflexivity|]. split; [lia|].
    split; [auto|]. exists []. simpl. rewrite !app_nil_r.
    split; [reflexivity|]. split; [constructor|].
    destruct (save_views v); rewrite ?app_nil_r; auto.
  - simpl. destruct (decide (g < n)) as [Hlt|Hge].
    2:{ split; [reflexivity|]. split; [reflexivity|]. split; [lia|].
        split; [intros; lia|]. exists []. simpl. rewrite !app_nil_r.
        split; [apply sublist_nil_l|]. split; [constructor|].
        destruct (save_views v); rewrite ?app_nil_r; auto. }
    (* the frame is consumed; [st] tells whether it was stored *)
    assert (Hquit : forall (st : bool) g1,
      (st = true -> found f = true) -> g <= g1 <= Z.max g n ->
      key f = KEY_q ->
      let v1 := if st then store_view v wl f else v in
      save_views v1 = save_views v /\
      cam `suffix_of` f :: cam /\
      g <= g1 <= Z.max g n /\
      (g1 < n -> cam = [] \/ exists f0, f0 ∈ f :: cam /\ key f0 = KEY_q) /\
      exists kept,
        kept `sublist_of` f :: cam /\ Forall (fun f => found f = true) kept /\
        pixel v1 = pixel v ++ (corners <$> kept) /\
        world v1 = world v ++ replicate (length kept) wl /\
        chessboards v1 =
          chessboards v ++ (if save_views v then image <$> kept else [])).
    { intros st g1 Hst Hg1 Hq.
      split; [destruct st; reflexivity|].
      split; [apply suffix_cons_r; reflexivity|].
      split; [exact Hg1|].
      split; [intros _; right; exists f; split; [left|exact Hq]|].
      destruct st.
      - exists [f]. split; [apply sublist_skip, sublist_nil_l|].
        split; [repeat constructor; auto|]. simpl.
        destruct (save_views v); rewrite ?app_nil_r; auto.
      - exists []. split; [apply sublist_nil_l|]. split; [constructor|].
        simpl. rewrite !app_nil_r.
        destruct (save_views v); rewrite ?app_nil_r; auto. }
    assert (Hstep : forall (st : bool) g1,
      (st = true -> found f = true) -> g <= g1 <= Z.max g n ->
      let v1 := if st then store_view v wl f else v in
      let '(r, v', rest) := views_loop cam n prompt wl g1 v1 in
      save_views v' = save_views v /\
      rest `suffix_of` f :: cam /\
      g <= r <= Z.max g n /\
      (r < n -> rest = [] \/ exists f0, f0 ∈ f :: cam /\ key f0 = KEY_q) /\
      exists kept,
        kept `sublist_of` f :: cam /\ Forall (fun f => found f = true) kept /\
        pixel v' = pixel v ++ (corners <$> kept) /\
        world v' = world v ++ replicate (length kept) wl /\
        chessboards v' =
          chessboards v ++ (if save_views v then image <$> kept else [])).
    { intros st g1 Hst Hg1 v1. specialize (IH g1 v1).
      destruct (views_loop cam n prompt wl g1 v1) as [[r v'] rest].
      destruct IH as (Hs & Hsuf & Hr & Hend & kept & Hsub & Hall & Hp & Hw & Hc).
      assert (Hs1 : save_views v1 = save_views v) by (subst v1; destruct st; reflexivity).
      split; [congruence|].
      split; [apply suffix_cons_r; exact Hsuf|].
      split; [lia|].
      split.
      { intros Hrn. destruct (Hend Hrn) as [?|(f0 & Hf0 & Hq)]; [auto|].
        right. exists f0. split; [right; exact Hf0|exact Hq]. }
      rewrite Hs1 in Hc. subst v1. destruct st.
      - exists (f :: kept). split; [apply sublist_skip; exact Hsub|].
        split; [constructor; auto|].
        rewrite Hp, Hw, Hc. simpl.
        rewrite <- !app_assoc. simpl.
        destruct (save_views v); simpl; rewrite <- ?app_assoc; auto.
      - exists kept. split; [apply sublist_cons; exact Hsub|].
        split; [exact Hall|]. auto. }
    destruct (found f) eqn:Ef; simpl.
    + destruct prompt; simpl.
      * destruct (decide (key f = KEY_i)).
        { apply (Hstep true); [auto|lia]. }
        destruct (decide (key f = KEY_q)).
        { apply (Hquit true); [auto|lia|assumption]. }
        apply (Hstep true); [auto|lia].
      * destruct (decide (key f = KEY_q)).
        { apply (Hquit true); [auto|lia|assumption]. }
        apply (Hstep true); [auto|lia].
    + destruct (decide (key f = KEY_q)).
      { apply (Hquit false); [discriminate|lia|assumption]. }
      apply (Hstep false); [discriminate|lia].
Qed.

(** [getChessboardViews] only appends.  The views a call adds are the
    corners of frames of the source in which the board was found, in the
    order of the source; each of them gets the same list of world points;
    the image of each is kept as well when [save_views] is set and not
    otherwise; and the grid and the views stored before are as they
    were. *)
Theorem getChessboardViews_appends (c : Calibration F) cam n prompt :
  let '(_, c', _) := getChessboardViews c cam n prompt in
  grid c' = grid c /\ save_views (views c') = save_views (views c) /\
  exists kept,
    kept `sublist_of` cam /\ Forall (fun f => found f = true) kept /\
    pixel (views c') = pixel (views c) ++ (corners <$> kept) /\
    world (views c') =
      world (views c) ++ replicate (length kept) (world_loc (grid c)) /\
    chessboards (views c') =
      chessboards (views c) ++
        (if save_views (views c) then image <$> kept else []).
Proof.
  unfold getChessboardViews.
  pose proof (views_loop_kept cam n prompt (world_loc (grid c)) 0 (views c)) as Hk.
  destruct (views_loop cam n prompt (world_loc (grid c)) 0 (views c))
    as [[r v'] rest].
  destruct Hk as (Hs & _ & _ & _ & Hkept). simpl. auto.
Qed.

(** How [getChessboardViews] ends: the count it returns lies between 0
    and the target, the source is consumed from the front, and the count
    stays below the target only when the source is exhausted or a frame
    was answered with 'q'. *)
Theorem getChessboardViews_stops (c : Calibration F) cam n prompt :
  let '(r, _, rest) := getChessboardViews c cam n prompt in
  0 <= r <= Z.max 0 n /\
  rest `suffix_of` cam /\
  (r < n -> rest = [] \/ exists f, f ∈ cam /\ key f = KEY_q).
Proof.
  unfold getChessboardViews.
  pose proof (views_loop_kept cam n prompt (world_loc (grid c)) 0 (views c)) as Hk.
  destruct (views_loop cam n prompt (world_loc (grid c)) 0 (views c))
    as [[r v'] rest].
  destruct Hk as (_ & Hsuf & Hr & Hend & _). auto.
Qed.

Lemma found_frames_cons (f : Frame F) cam :
  found_frames (f :: cam) =
    if found f then f :: found_frames cam else found_frames cam.
Proof.
  unfold found_frames. rewrite filter_cons.
  destruct (decide (found f = true)) as [->|E]; [reflexivity|].
  destruct (found f); [congruence|reflexivity].
Qed.

Lemma views_loop_take cam n prompt (wl : list (Point3f F)) g v :
  no_keys cam ->
  let kept := take (Z.to_nat (n - g)) (found_frames cam) in
  let '(r, v', _) := views_loop cam n prompt wl g v in
  r = g + Z.of_nat (length kept) /\
  pixel v' = pixel v ++ (corners <$> kept) /\
  chessboards v' =
    chessboards v ++ (if save_views v then image <$> kept else []).
Proof.
  revert g v. induction cam as [|f cam IH]; intros g v Hk.
  - assert (views_loop [] n prompt wl g v = (g, v, [])) as ->.
    { simpl. destruct (decide (g < n)); reflexivity. }
    cbv zeta. unfold found_frames. rewrite filter_nil, take_nil. simpl.
    rewrite !app_nil_r.
    split; [lia|]. split; [reflexivity|].
    destruct (save_views v); rewrite ?app_nil_r; reflexivity.
  - apply no_keys_cons in Hk as [[Hi Hq] Hk]. cbv zeta. simpl.
    destruct (decide (g < n)) as [Hlt|Hge].
    + rewrite found_frames_cons.
      destruct (found f) eqn:Ef; simpl.
      * replace (Z.to_nat (n - g)) with (S (Z.to_nat (n - (g + 1)))) by lia.
        simpl take.
        specialize (IH (g + 1) (store_view v wl f) Hk). simpl in IH.
        assert (Hgo :
          let '(r, v', _) := views_loop cam n prompt wl (g + 1) (store_view v wl f) in
          r = g + Z.of_nat (length (f :: take (Z.to_nat (n - (g + 1))) (found_frames cam))) /\
          pixel v' = pixel v ++
            (corners <$> f :: take (Z.to_nat (n - (g + 1))) (found_frames cam)) /\
          chessboards v' = chessboards v ++
            (if save_views v
             then image <$> f :: take (Z.to_nat (n - (g + 1))) (found_frames cam)
             else [])).
        { destruct (views_loop cam n prompt wl (g + 1) (store_view v wl f))
            as [[r v'] rest].
          destruct IH as (Hr & Hp & Hc). split; [simpl length; lia|].
          split; [rewrite Hp, <- app_assoc; reflexivity|].
          rewrite Hc. destruct (save_views v); simpl;
            rewrite <- ?app_assoc; reflexivity. }
        destruct prompt; simpl; rewrite ?decide_False by assumption; exact Hgo.
      * rewrite ?decide_False by assumption. apply IH. exact Hk.
    + replace (Z.to_nat (n - g)) with 0%nat by lia. rewrite take_0. simpl.
      rewrite !app_nil_r. split; [lia|]. split; [reflexivity|].
      destruct (save_views v); rewrite ?app_nil_r; reflexivity.
Qed.

(** With nobody at the keyboard the views a call adds are exactly the
    first [n] boards of the source, in order: their corners go to the pixel
    views, their images to the stored chessboards when [save_views] is set,
    and their number is returned. *)
Theorem getChessboardViews_keeps_boards (c : Calibration F) cam n prompt :
  no_keys cam ->
  let kept := take (Z.to_nat n) (found_frames cam) in
  let '(r, c', _) := getChessboardViews c cam n prompt in
  r = Z.of_nat (length kept) /\
  pixel (views c') = pixel (views c) ++ (corners <$> kept) /\
  chessboards (views c') =
    chessboards (views c) ++
      (if save_views (views c) then image <$> kept else []).
Proof.
  intros Hk kept. unfold getChessboardViews.
  pose proof (views_loop_take cam n prompt (world_loc (grid c)) 0 (views c) Hk) as Ht.
  simpl in Ht. rewrite Z.sub_0_r in Ht. fold kept in Ht.
  destruct (views_loop cam n prompt (world_loc (grid c)) 0 (views c))
    as [[r v'] rest].
  simpl. exact Ht.
Qed.
End ViewsKept.

(** ** What [grab_calib_grid] stores *)

Section GridStored.
Context {F : Type} `{Scalar F}.

Lemma store_points_ip cols row0 idx buf (ip op ip' op' : CvMat F) :
  store_points cols row0 idx buf ip op = Some (ip', op') ->
  NoDup idx ->
  (forall i, i ∈ idx ->
     exists c, buf !! Z.to_nat i = Some c /\
       cvmGet ip' (row0 + i) 0 = Some (p2_x c) /\
       cvmGet ip' (row0 + i) 1 = Some (p2_y c)) /\
  (forall r c, (forall i, i ∈ idx -> r <> row0 + i) ->
     cvmGet ip' r c = cvmGet ip r c).
Proof.
  revert ip op. induction idx as [|i idx IH]; intros ip op E Hnd.
  - injection E as <- <-. split; [intros i Hi; inversion Hi|auto].
  - simpl in E.
    apply bind_Some in E as (c0 & Ec0 & E).
    apply bind_Some in E as (ip1 & E1 & E).
    apply bind_Some in E as (ip2 & E2 & E).
    apply bind_Some in E as (op1 & _ & E).
    apply bind_Some in E as (op2 & _ & E).
    apply bind_Some in E as (op3 & _ & E).
    apply NoDup_cons in Hnd as [Hni Hnd].
    destruct (IH _ _ E Hnd) as [Hin Hout].
    split.
    + intros j Hj. apply elem_of_cons in Hj as [->|Hj]; [|apply Hin; exact Hj].
      assert (Hfr : forall c, cvmGet ip' (row0 + i) c = cvmGet ip2 (row0 + i) c).
      { intros c. apply Hout. intros j Hj. intros Heq.
        assert (j = i) by lia. subst j. contradiction. }
      exists c0. split; [exact Ec0|]. rewrite !Hfr. split.
      * rewrite (cvmGet_cvmSet_ne _ _ _ _ _ _ _ E2) by congruence.
        apply (cvmGet_cvmSet_eq _ _ _ _ _ E1).
      * apply (cvmGet_cvmSet_eq _ _ _ _ _ E2).
    + intros r c Hr. rewrite Hout.
      * rewrite (cvmGet_cvmSet_ne _ _ _ _ _ r c E2)
          by (intros [= -> _]; apply (Hr i); [left|reflexivity]).
        rewrite (cvmGet_cvmSet_ne _ _ _ _ _ r c E1)
          by (intros [= -> _]; apply (Hr i); [left|reflexivity]).
        reflexivity.
      * intros j Hj. apply Hr. right. exact Hj.
Qed.

Lemma detect_lookup (f : Frame F) buf i c :
  corners f !! i = Some c -> (i < length buf)%nat -> detect f buf !! i = Some c.
Proof.
  intros Hc Hi. unfold detect.
  rewrite lookup_take_lt by exact Hi.
  rewrite lookup_app_l by (eapply lookup_lt_Some; exact Hc). exact Hc.
Qed.

Lemma store_grid_stored ncols num_points g (f : Frame F) buf0 b b' :
  store_grid ncols num_points g f (detect f buf0) b = Some b' ->
  cols (pc b') = cols (pc b) /\ view_stored num_points b' g f.
Proof.
  unfold store_grid. intros E.
  apply bind_Some in E as (pc' & Epc & E).
  apply bind_Some in E as ([ip' op'] & Ep & E).
  apply bind_Some in E as (st' & _ & E). injection E as <-. simpl.
  unfold raw_set in Epc. destruct (0 <=? _) eqn:E0 in Epc; [|discriminate Epc].
  unfold fl_set in Epc. destruct (decide _) as [Hlt|] in Epc; [|discriminate Epc].
  injection Epc as <-.
  split; [reflexivity|]. split.
  - cbn [pc]. unfold raw_get. cbn [cols with_data]. rewrite E0.
    unfold fl_get. cbn [data with_data].
    apply list_lookup_insert_eq. exact Hlt.
  - cbn [ip]. intros i c Hi Hc.
    apply store_points_ip in Ep as [Hin _]; [|apply NoDup_seqZ].
    destruct (Hin i) as (c' & Hc' & Hx & Hy); [apply elem_of_seqZ; lia|].
    rewrite (detect_lookup f buf0 _ c Hc) in Hc'.
    + injection Hc' as <-. auto.
    + rewrite <- (detect_length f buf0). eapply lookup_lt_Some. exact Hc'.
Qed.

Lemma store_grid_other ncols num_points g (f : Frame F) buf b b' j f0 :
  store_grid ncols num_points g f buf b = Some b' ->
  0 <= g -> 0 <= j -> j <> g -> 0 <= num_points -> cols (pc b) = 1 ->
  view_stored num_points b j f0 -> view_stored num_points b' j f0.
Proof.
  unfold store_grid. intros E Hg Hj Hne Hnp Hc [Hpc Hip].
  apply bind_Some in E as (pc' & Epc & E).
  apply bind_Some in E as ([ip' op'] & Ep & E).
  apply bind_Some in E as (st' & _ & E). injection E as <-.
  unfold raw_set in Epc. destruct (0 <=? _) eqn:E0 in Epc; [|discriminate Epc].
  unfold fl_set in Epc. destruct (decide _) as [Hlt|] in Epc; [|discriminate Epc].
  injection Epc as <-.
  split.
  - cbn [pc]. unfold raw_get in *. cbn [cols with_data]. rewrite Hc in *.
    destruct (0 <=? j * 1 + 0); [|exact Hpc].
    unfold fl_get in *. cbn [data with_data].
    rewrite list_lookup_insert_ne by lia. exact Hpc.
  - cbn [ip]. intros i c Hi Hcc.
    apply store_points_ip in Ep as [_ Hout]; [|apply NoDup_seqZ].
    rewrite !Hout; [apply Hip; assumption|..];
      intros i' Hi'; apply elem_of_seqZ in Hi'; nia.
Qed.

Lemma grab_loop_stored capture ncols num_points num_imgs prompt
    (buf : list (Point2f F)) g b r b' rest (done : list (Frame F)) :
  grab_loop capture ncols num_points num_imgs prompt buf g b = Some (r, b', rest) ->
  no_keys capture -> 0 <= num_points -> cols (pc b) = 1 ->
  g = Z.of_nat (length done) ->
  (forall j f, done !! j = Some f -> view_stored num_points b (Z.of_nat j) f) ->
  let all := done ++ take (Z.to_nat (num_imgs - g)) (found_frames capture) in
  r = Z.of_nat (length all) /\
  forall j f, all !! j = Some f -> view_stored num_points b' (Z.of_nat j) f.
Proof.
  revert buf g b done.
  induction capture as [|f cam IH]; intros buf g b done E Hk Hnp Hc Hg Hinv.
  - cbv zeta. unfold found_frames. rewrite filter_nil, take_nil, app_nil_r.
    simpl in E. destruct (decide (g < num_imgs)); injection E as <- <- _; auto.
  - apply no_keys_cons in Hk as [[Hi Hq] Hk]. cbv zeta. simpl in E.
    destruct (decide (g < num_imgs)) as [Hlt|Hge].
    2:{ injection E as <- <- _.
        replace (Z.to_nat (num_imgs - g)) with 0%nat by lia.
        rewrite take_0, app_nil_r. auto. }
    rewrite found_frames_cons.
    destruct (found f) eqn:Ef.
    + apply bind_Some in E as ([g1 b1] & E1 & E).
      apply bind_Some in E1 as (b2 & Es & E1). injection E1 as <- <-.
      assert (E' : grab_loop cam ncols num_points num_imgs prompt (detect f buf)
                     (g + 1) b2 = Some (r, b', rest)).
      { destruct prompt; simpl in E; rewrite ?decide_False in E by assumption;
          exact E. }
      pose proof (store_grid_stored _ _ _ _ _ _ _ Es) as [Hc2 Hst].
      replace (Z.to_nat (num_imgs - g)) with (S (Z.to_nat (num_imgs - (g + 1))))
        by lia.
      simpl take. rewrite (cons_middle f), app_assoc.
      apply (IH _ _ _ (done ++ [f]) E' Hk Hnp).
      * rewrite Hc2. exact Hc.
      * rewrite length_app. simpl. lia.
      * intros j f1 Hj.
        destruct (decide (j = length done)) as [->|Hne].
        -- rewrite list_lookup_middle in Hj by reflexivity.
           injection Hj as <-. rewrite <- Hg. exact Hst.
        -- assert (Hj' : done !! j = Some f1).
           { pose proof (lookup_lt_Some _ _ _ Hj) as Hlen.
             rewrite length_app in Hlen. simpl in Hlen.
             rewrite lookup_app_l in Hj by lia. exact Hj. }
           apply (store_grid_other _ _ _ _ _ _ _ _ _ Es); try lia; try assumption.
           apply Hinv. exact Hj'.
    + apply bind_Some in E as ([g1 b1] & E1 & E). injection E1 as <- <-.
      simpl in E. rewrite decide_False in E by assumption.
      apply (IH _ _ _ done E Hk Hnp Hc Hg Hinv).
Qed.

(** The views [grab_calib_grid] hands to the calibration.  With nobody at
    the keyboard the kept views are the first [num_imgs] boards after the
    frame the routine uses up at entry; view [j] is in slot [j]: its corner
    count in [pc], the pixel coordinates of its corner [i] in row
    [j * num_points + i] of [ip]; and the number of views is returned. *)
Theorem grab_calib_grid_image_points f0 cam (gsz : CvSize) (b : GridBufs F)
    num_imgs prompt buf r b' rest :
  no_keys cam -> 0 <= height gsz * width gsz -> cols (pc b) = 1 ->
  grab_calib_grid (f0 :: cam) gsz b num_imgs prompt true (Some buf)
    = Some (r, b', rest) ->
  let kept := take (Z.to_nat num_imgs) (found_frames cam) in
  r = Z.of_nat (length kept) /\
  forall j f, kept !! j = Some f ->
    view_stored (height gsz * width gsz) b' (Z.of_nat j) f.
Proof.
  intros Hk Hnp Hc E. unfold grab_calib_grid in E. cbn [negb] in E.
  pose proof (grab_loop_stored _ _ _ _ _ _ _ _ _ _ _ [] E Hk Hnp Hc eq_refl) as Hs.
  cbv zeta in Hs. rewrite Z.sub_0_r in Hs. simpl in Hs.
  apply Hs. intros j f Hj. discriminate Hj.
Qed.

Lemma grab_loop_safe capture ncols num_points num_imgs prompt
    (buf : list (Point2f F)) g b :
  0 <= g -> 0 <= num_points ->
  bufs_fit b num_imgs num_points -> length buf = Z.to_nat num_points ->
  exists r b' rest,
    grab_loop capture ncols num_points num_imgs prompt buf g b = Some (r, b', rest) /\
    g <= r <= Z.max g num_imgs /\
    bufs_fit b' num_imgs num_points /\ rest `suffix_of` capture.
Proof.
  revert g b buf. induction capture as [|f cam IH]; intros g b buf Hg Hnp Hb Hl.
  - exists g, b, []. simpl.
    destruct (decide (g < num_imgs)); (split; [reflexivity|]);
      (split; [lia|]); split; auto.
  - simpl. destruct (decide (g < num_imgs)) as [Hlt|Hge].
    2:{ exists g, b, (f :: cam). split; [reflexivity|]. split; [lia|]. split; auto. }
    assert (Hstep : forall g1 b1, g <= g1 <= Z.max g num_imgs ->
      bufs_fit b1 num_imgs num_points ->
      exists r b' rest,
        grab_loop cam ncols num_points num_imgs prompt (detect f buf) g1 b1
          = Some (r, b', rest) /\
        g <= r <= Z.max g num_imgs /\
        bufs_fit b' num_imgs num_points /\ rest `suffix_of` f :: cam).
    { intros g1 b1 Hg1 Hb1.
      destruct (IH g1 b1 (detect f buf)) as (r & b' & rest & E & Hr & Hb' & Hs);
        [lia|exact Hnp|exact Hb1|rewrite detect_length; exact Hl|].
      exists r, b', rest. split; [exact E|]. split; [lia|]. split; [exact Hb'|].
      apply suffix_cons_r. exact Hs. }
    destruct (found f) eqn:Ef; simpl.
    + destruct (store_grid_ok ncols num_points num_imgs g f (detect f buf) b Hb Hnp)
        as (b1 & -> & Hb1); [rewrite detect_length; exact Hl|lia|].
      simpl. destruct prompt; simpl.
      * destruct (decide (key f = KEY_i)); apply Hstep; try lia; exact Hb1.
      * destruct (decide (key f = KEY_q)).
        -- exists (g + 1), b1, cam. split; [reflexivity|]. split; [lia|].
           split; [exact Hb1|]. apply suffix_cons_r. reflexivity.
        -- apply Hstep; [lia|exact Hb1].
    + destruct (decide (key f = KEY_q)).
      * exists g, b, cam. split; [reflexivity|]. split; [lia|].
        split; [exact Hb|]. apply suffix_cons_r. reflexivity.
      * apply Hstep; [lia|exact Hb].
Qed.

(** [grab_calib_grid] stays inside the caller's buffers.  Given room for
    [num_imgs] views, no store of the routine leaves [ip], [op], [pc] or
    [store_imgs], whatever the source shows and whichever keys are pressed
    (a view answered with 'i' is overwritten by the next one); the result
    is 1 for a source that is exhausted at entry and otherwise a count
    between 0 and [num_imgs]. *)
Theorem grab_calib_grid_in_bounds capture (gsz : CvSize) (b : GridBufs F)
    num_imgs prompt gray_ok buf :
  0 <= height gsz * width gsz ->
  bufs_fit b num_imgs (height gsz * width gsz) ->
  length buf = Z.to_nat (height gsz * width gsz) ->
  exists r b' rest,
    grab_calib_grid capture gsz b num_imgs prompt gray_ok (Some buf)
      = Some (r, b', rest) /\
    bufs_fit b' num_imgs (height gsz * width gsz) /\
    rest `suffix_of` capture /\
    (capture = [] \/ gray_ok = false -> r = 1 /\ b' = b) /\
    (capture <> [] -> gray_ok = true -> 0 <= r <= Z.max 0 num_imgs).
Proof.
  intros Hnp Hb Hl. unfold grab_calib_grid.
  destruct capture as [|f0 cam].
  { exists 1, b, []. split; [reflexivity|]. split; [exact Hb|].
    split; [reflexivity|]. split; [auto|]. intros Hne. contradiction. }
  destruct gray_ok; cbn [negb].
  - destruct (grab_loop_safe cam (width gsz) (height gsz * width gsz) num_imgs
                prompt buf 0 b) as (r & b' & rest & E & Hr & Hb' & Hs);
      [lia|exact Hnp|exact Hb|exact Hl|].
    exists r, b', rest. split; [exact E|]. split; [exact Hb'|].
    split; [apply suffix_cons_r; exact Hs|].
    split; [intros [?|?]; discriminate|]. intros _ _. exact Hr.
  - exists 1, b, cam. split; [reflexivity|]. split; [exact Hb|].
    split; [apply suffix_cons_r; reflexivity|].
    split; [auto|]. intros _ ?. discriminate.
Qed.
End GridStored.

Section GridViews.
Context {F : Type} `{Scalar F}.

Lemma grab_loop_views (P : Frame F -> Prop) capture ncols num_points num_imgs
    prompt (buf : list (Point2f F)) g b r b' rest :
  grab_loop capture ncols num_points num_imgs prompt buf g b = Some (r, b', rest) ->
  0 <= num_points -> cols (pc b) = 1 -> 0 <= g ->
  (forall f, f ∈ capture -> found f = true ->
     (prompt = true -> key f <> KEY_i) -> P f) ->
  (forall j, 0 <= j < g -> exists f, P f /\ view_stored num_points b j f) ->
  forall j, 0 <= j < r -> exists f, P f /\ view_stored num_points b' j f.
Proof.
  revert buf g b.
  induction capture as [|f cam IH]; intros buf g b E Hnp Hc Hg HP Hinv.
  - simpl in E. destruct (decide (g < num_imgs)); injection E as <- <- _; exact Hinv.
  - simpl in E.
    destruct (decide (g < num_imgs)); [|injection E as <- <- _; exact Hinv].
    assert (HP' : forall f0, f0 ∈ cam -> found f0 = true ->
                    (prompt = true -> key f0 <> KEY_i) -> P f0).
    { intros f0 Hf0. apply HP. right. exact Hf0. }
    apply bind_Some in E as ([g1 b1] & E1 & E).
    assert (Hstep : 0 <= g1 /\ cols (pc b1) = 1 /\
              (forall j, 0 <= j < g1 - (if found f then 1 else 0) ->
                 exists f0, P f0 /\ view_stored num_points b1 j f0) /\
              (found f = true -> 1 <= g1 /\
                 ((prompt = true -> key f <> KEY_i) ->
                  exists f0, P f0 /\ view_stored num_points b1 (g1 - 1) f0))).
    { destruct (found f) eqn:Ef.
      - apply bind_Some in E1 as (b2 & Es & E1). injection E1 as <- <-.
        pose proof (store_grid_stored _ _ _ _ _ _ _ Es) as [Hc2 Hst].
        split; [lia|]. split; [rewrite Hc2; exact Hc|]. split.
        + intros j Hj. destruct (Hinv j) as (f0 & Hf0 & Hv); [lia|].
          exists f0. split; [exact Hf0|].
          apply (store_grid_other _ _ _ _ _ _ _ _ _ Es); try lia; assumption.
        + intros _. split; [lia|]. intros Hkey.
          replace (g + 1 - 1) with g by lia.
          exists f. split; [apply HP; [left|exact Ef|exact Hkey]|exact Hst].
      - injection E1 as <- <-. split; [exact Hg|]. split; [exact Hc|].
        split; [intros j Hj; apply Hinv; lia|discriminate]. }
    destruct Hstep as (Hg1 & Hc1 & Hinv1 & Hfound).
    assert (Hkept : (found f = true -> prompt = true -> key f <> KEY_i) ->
              forall j, 0 <= j < g1 ->
                exists f0, P f0 /\ view_stored num_points b1 j f0).
    { intros Hkey j Hj. destruct (found f) eqn:Ef.
      - destruct (Hfound eq_refl) as [_ Hlast].
        destruct (decide (j = g1 - 1)) as [->|Hne].
        + apply Hlast. apply Hkey. reflexivity.
        + apply Hinv1. lia.
      - apply Hinv1. lia. }
    destruct (found f && prompt) eqn:Efp.
    + apply andb_prop in Efp as [Ef Epr]. rewrite Ef in Hinv1.
      destruct (Hfound Ef) as [Hg1' _].
      destruct (decide (key f = KEY_i)).
      * apply (IH _ _ _ E Hnp Hc1); [lia|exact HP'|exact Hinv1].
      * apply (IH _ _ _ E Hnp Hc1 Hg1 HP'). apply Hkept. intros _ _. assumption.
    + assert (Hkey : found f = true -> prompt = true -> key f <> KEY_i).
      { intros Ef Epr. rewrite Ef, Epr in Efp. discriminate Efp. }
      destruct (decide (key f = KEY_q)).
      * injection E as <- <- _. apply Hkept. exact Hkey.
      * apply (IH _ _ _ E Hnp Hc1 Hg1 HP'). apply Hkept. exact Hkey.
Qed.

(** Every view [grab_calib_grid] counts is a view of the source that was
    kept.  Whatever keys are pressed, each of the slots below the returned
    count holds the corner count and the corner pixels of some frame, after
    the one used up at entry, in which the board was found and which, under
    the prompt, was not answered with 'i': a view answered with 'i' is
    overwritten by the next view or lies above the count. *)
Theorem grab_calib_grid_views_from_source f0 cam (gsz : CvSize)
    (b : GridBufs F) num_imgs prompt buf r b' rest :
  0 <= height gsz * width gsz -> cols (pc b) = 1 ->
  grab_calib_grid (f0 :: cam) gsz b num_imgs prompt true (Some buf)
    = Some (r, b', rest) ->
  forall j, 0 <= j < r ->
    exists f, f ∈ cam /\ found f = true /\
      (prompt = true -> key f <> KEY_i) /\
      view_stored (height gsz * width gsz) b' j f.
Proof.
  intros Hnp Hc E j Hj. unfold grab_calib_grid in E. cbn [negb] in E.
  destruct (grab_loop_views
              (fun f => f ∈ cam /\ found f = true /\
                        (prompt = true -> key f <> KEY_i))
              _ _ _ _ _ _ _ _ _ _ _ E Hnp Hc (Z.le_refl 0)) with (j := j)
    as (f & (Hin & Hf & Hk) & Hv).
  - intros f Hin Hf Hk. auto.
  - intros j0 Hj0. lia.
  - exact Hj.
  - exists f. auto.
Qed.
End GridViews.

(** ** [get_camera_intrinsics] *)

Section IntrinsicsFacts.
Local Open Scope string_scope.
Variable prompt_default : bool.
Variable store_imgs_default : option (list Z).
Variable cvCalibrateCamera2 :
  CvMat val -> CvMat val -> CvMat Z -> Z -> CvMat val -> CvMat val ->
  CvMat val * CvMat val.
Variable junk : nat -> Z.

Lemma fresh_shape r c : has_shape (fresh r c) r c.
Proof.
  unfold fresh, has_shape. simpl. rewrite length_replicate. auto.
Qed.

(** The return code of [get_camera_intrinsics] with nobody at the
    keyboard.  Two frames are used up before the first view is looked for
    (one for the image size, one at the entry of [grab_calib_grid]).  With
    at least [num_images] boards after them the camera is calibrated, the
    two files are written and [CV_OK] is returned.  With fewer boards
    nothing is written and the code is minus the number of boards seen;
    for a source that shows no board at all this is 0, which is [CV_OK]. *)
Theorem get_camera_intrinsics_result img f0 cam rows cols num_images buf :
  no_keys cam -> 0 < rows -> 0 < cols -> 0 < num_images ->
  match store_imgs_default with
  | None => True
  | Some l => num_images <= Z.of_nat (length l)
  end ->
  length buf = Z.to_nat (rows * cols) ->
  let run :=
    get_camera_intrinsics prompt_default store_imgs_default cvCalibrateCamera2
      junk (img :: f0 :: cam) rows cols num_images true (Some buf) in
  (num_images <= boards cam ->
     exists A k rest,
       run = Some (CV_OK, [("Intrinsics.xml", A); ("Distortion.xml", k)], rest)) /\
  (boards cam < num_images -> run = Some (- boards cam, [], [])) /\
  (boards cam = 0 -> run = Some (CV_OK, [], [])).
Proof.
  intros Hk Hrows Hcols Hn Hst Hl run.
  assert (Hnp : 0 <= rows * cols) by nia.
  assert (Hfit : bufs_fit
            (mkGridBufs (fresh (num_images * (rows * cols)) 2)
               (fresh (num_images * (rows * cols)) 3)
               (mkMat num_images 1 (junk <$> seq 0 (Z.to_nat num_images)))
               store_imgs_default)
            num_images (rows * cols)).
  { unfold bufs_fit. cbn [ip op pc store_imgs].
    split; [apply fresh_shape|]. split; [apply fresh_shape|].
    split; [|exact Hst].
    unfold has_shape. simpl. rewrite length_fmap, length_seq.
    split; [reflexivity|]. split; [reflexivity|]. f_equal. lia. }
  destruct (grab_loop_count cam cols (rows * cols) num_images prompt_default buf 0 _
              Hk ltac:(lia) Hnp Hfit Hl) as (b' & rest & E & Hrest & _).
  rewrite Z.add_0_l in E, Hrest.
  assert (Hrun : run =
    if decide (Z.min num_images (boards cam) <> num_images)
    then Some (- Z.min num_images (boards cam), [], rest)
    else
      let '(A, k) := cvCalibrateCamera2 (op b') (ip b') (pc b') (image img)
                       (cvZero (fresh 3 3)) (cvZero (fresh 4 1)) in
      Some (CV_OK, [("Intrinsics.xml", A); ("Distortion.xml", k)], rest)).
  { subst run. unfold get_camera_intrinsics, grab_calib_grid.
    cbn [negb height width]. rewrite E. reflexivity. }
  assert (Hlow : boards cam < num_images -> run = Some (- boards cam, [], [])).
  { intros Hlt. rewrite Hrun, decide_True by lia.
    rewrite (Hrest Hlt). do 3 f_equal. lia. }
  split; [|split].
  - intros Hge. rewrite Hrun, decide_False by lia.
    destruct (cvCalibrateCamera2 _ _ _ _ _ _) as [A k]. eauto.
  - exact Hlow.
  - intros H0. rewrite Hlow by lia. rewrite H0. reflexivity.
Qed.

(** The error code of [grab_calib_grid] is taken for a number of views.
    [grab_calib_grid] answers [!CV_OK], that is 1, when the source is
    exhausted at its entry or the gray image cannot be allocated.  Asked for
    one view, [get_camera_intrinsics] then calibrates from buffers nobody
    wrote to, writes the two files and returns [CV_OK]; asked for any other
    number it returns -1.  With no frame at all it does not return. *)
Theorem get_camera_intrinsics_error_taken_for_view img capture rows cols
    num_images gray_ok corners_buf :
  0 < rows -> 0 < cols -> 0 < num_images ->
  capture = [] \/ gray_ok = false ->
  let run :=
    get_camera_intrinsics prompt_default store_imgs_default cvCalibrateCamera2
      junk (img :: capture) rows cols num_images gray_ok corners_buf in
  (num_images = 1 ->
     exists A k,
       run = Some (CV_OK, [("Intrinsics.xml", A); ("Distortion.xml", k)],
                   tail capture) /\
       (A, k) =
         cvCalibrateCamera2 (fresh (1 * (rows * cols)) 3)
           (fresh (1 * (rows * cols)) 2) (mkMat 1 1 [junk 0%nat]) (image img)
           (cvZero (fresh 3 3)) (cvZero (fresh 4 1))) /\
  (num_images <> 1 -> run = Some (- 1, [], tail capture)) /\
  get_camera_intrinsics prompt_default store_imgs_default cvCalibrateCamera2
    junk [] rows cols num_images gray_ok corners_buf = None.
Proof.
  intros _ _ _ Hfail run.
  assert (Hgrab : forall b,
    grab_calib_grid capture (mkSize cols rows) b num_images prompt_default
      gray_ok corners_buf = Some (1, b, tail capture)).
  { intros b. unfold grab_calib_grid.
    destruct capture as [|f cam]; [reflexivity|].
    destruct Hfail as [?|Hg]; [discriminate|]. rewrite Hg. reflexivity. }
  split; [|split].
  - intros ->. subst run. unfold get_camera_intrinsics.
    rewrite Hgrab. cbn [mbind option_bind].
    rewrite decide_False by (intros Hne; apply Hne; reflexivity).
    cbn [op ip pc].
    change (junk <$> seq 0 (Z.to_nat 1)) with [junk 0%nat].
    destruct (cvCalibrateCamera2 _ _ _ _ _ _) as [A k]. eauto.
  - intros Hne. subst run. unfold get_camera_intrinsics.
    rewrite Hgrab. cbn [mbind option_bind].
    rewrite decide_True by (intros Heq; apply Hne; symmetry; exact Heq).
    reflexivity.
  - reflexivity.
Qed.
End IntrinsicsFacts.

(** ** The statements above on the worked inputs *)

Lemma blank_kalman_ok : kalman_ok blank_kalman.
Proof. repeat split. Qed.

Lemma prediction_keeps_shape_witness :
  kalman_ok kal_x0 /\
  exists k',
    prediction 2 heap_x0 kal_x0 (Vfloat 1) 48 = Some k' /\
    kalman_ok k' /\ MP k' = 2 /\ DP k' = 4 /\ CP k' = 1 /\
    data (transition_matrix k') = A_k (Vfloat 1) /\
    measurement_matrix k' = measurement_matrix kal_x0.
Proof.
  split; [exact kal_x0_ok|].
  destruct (prediction 2 heap_x0 kal_x0 (Vfloat 1) 48) as [k'|] eqn:E;
    [|vm_compute in E; discriminate E].
  assert (HD : 0 <= DP kal_x0) by discriminate.
  assert (HM : 0 <= MP kal_x0) by discriminate.
  destruct (prediction_keeps_shape 2 heap_x0 kal_x0 (Vfloat 1) 48 k'
              kal_x0_ok HD HM E)
    as (Hok & M & D & C & T & _ & Hm & _).
  exists k'. split; [reflexivity|]. split; [exact Hok|].
  split; [exact M|]. split; [exact D|]. split; [exact C|].
  split; [exact T|exact Hm].
Defined.

Lemma setup_filter_keeps_shape_witness :
  kalman_ok blank_kalman /\
  exists k',
    setup_filter heap_x0 16 0 0 blank_kalman = Some k' /\
    kalman_ok k' /\
    transition_matrix k' = fresh 4 4 /\
    data (measurement_matrix k') = floats [1; 0; 0; 0;  0; 1; 0; 0]%Q.
Proof.
  split; [exact blank_kalman_ok|].
  destruct (setup_filter heap_x0 16 0 0 blank_kalman) as [k'|] eqn:E;
    [|vm_compute in E; discriminate E].
  assert (HM : 0 <= MP blank_kalman) by discriminate.
  assert (HD : 0 <= DP blank_kalman) by discriminate.
  destruct (setup_filter_keeps_shape heap_x0 16 0 0 blank_kalman k'
              blank_kalman_ok HM HD E)
    as (Hok & _ & _ & _ & Hm & _ & _ & _ & _ & Ht & _).
  exists k'. split; [reflexivity|]. split; [exact Hok|].
  split; [exact Ht|]. rewrite Hm. reflexivity.
Defined.

Lemma setup_kalman_bank_witness :
  exists kal',
    setup_kalman empty_heap bank3 2 0 0 = Some kal' /\
    length kal' = 3%nat /\
    kal' !! 1%nat = Some None /\
    kal' !! 2%nat = Some (Some blank_kalman) /\
    exists k', setup_filter empty_heap 0 0 0 blank_kalman = Some k' /\
               kal' !! 0%nat = Some (Some k').
Proof.
  destruct (setup_kalman empty_heap bank3 2 0 0) as [kal'|] eqn:E;
    [|vm_compute in E; discriminate E].
  destruct (setup_kalman_bank empty_heap bank3 2 0 0 kal' E)
    as (L & _ & Hnull & Hset & Hrest).
  exists kal'. split; [reflexivity|]. split; [exact L|].
  split; [apply (Hnull 1); [lia|reflexivity]|].
  split; [apply (Hrest 2%nat); simpl; lia|].
  apply (Hset 0 blank_kalman); [lia|reflexivity].
Defined.

Lemma pixel2world_keeps_ready_witness :
  frame_ready world_frame0 cam_A cam_k cam_R cam_T /\
  exists xy g',
    pixel2world undistort_pinhole world_frame0 (mkPoint 612 412) (Vfloat 10)
      = Some (xy, g') /\
    frame_ready g' cam_A cam_k cam_R cam_T.
Proof.
  split; [exact world_frame0_ready|].
  destruct (pixel2world undistort_pinhole world_frame0 (mkPoint 612 412) (Vfloat 10))
    as [[xy g']|] eqn:E; [|vm_compute in E; discriminate E].
  exists xy, g'. split; [reflexivity|].
  exact (pixel2world_keeps_ready undistort_pinhole world_frame0
           cam_A cam_k cam_R cam_T (mkPoint 612 412) (Vfloat 10) xy g'
           world_frame0_ready E).
Defined.

Lemma disk_full_alloc_ok : alloc_ok disk_full.
Proof.
  intros n r c ch m E. injection E as <-. unfold fresh. simpl.
  rewrite length_replicate. split; [f_equal; lia|]. intros ->. lia.
Qed.

Lemma setup_then_pixel2world_witness :
  (setup_world_frame disk_full A_xml k_xml R_xml T_xml no_frame).1 = CV_OK /\
  exists g',
    pixel2world undistort_pinhole
      (setup_world_frame disk_full A_xml k_xml R_xml T_xml no_frame).2
      (mkPoint 612 412) (Vfloat 10) =
    Some (pixelToWorld_spec undistort_pinhole cam_A cam_k cam_R cam_T
            (ofZ 612) (ofZ 412) (Vfloat 10), g').
Proof.
  split; [reflexivity|].
  assert (HA : forall A, cvLoad disk_full A_xml = Some A -> has_shape A 3 3).
  { intros A E. injection E as <-. repeat split. }
  assert (Hk : forall k, cvLoad disk_full k_xml = Some k -> dist_ok k).
  { intros k E. injection E as <-. left. repeat split. }
  assert (HR : forall R, cvLoad disk_full R_xml = Some R -> has_shape R 3 3).
  { intros R E. injection E as <-. repeat split. }
  assert (HT : forall T, cvLoad disk_full T_xml = Some T -> has_shape T 3 1).
  { intros T E. injection E as <-. repeat split. }
  destruct (setup_then_pixel2world undistort_pinhole disk_full
              A_xml k_xml R_xml T_xml no_frame (mkPoint 612 412) (Vfloat 10)
              disk_full_alloc_ok HA Hk HR HT eq_refl)
    as (A & k & R & T & g' & EA & Ek & ER & ET & _ & _ & _ & _ & E).
  injection EA as <-. injection Ek as <-. injection ER as <-. injection ET as <-.
  exists g'. exact E.
Defined.

Lemma startup_ready_loaded_witness :
  startup disk_full devices_ok wins0 = Ready tracker0 /\
  (exists T, cvLoad disk_full T_xml = Some T /\ trans tracker0 = Some T /\
             raw_get T 2 0 = Some (depth tracker0)) /\
  distorted_buf tracker0 = cvCreateMat disk_full 2%nat 1 1 2 /\
  img_nr tracker0 = 1 /\ sent tracker0 = [].
Proof.
  split; [reflexivity|].
  destruct (startup_ready_loaded disk_full devices_ok wins0 tracker0 eq_refl)
    as (_ & _ & _ & HT & _ & _ & [_ Hd] & _ & _ & _ & _ & _ & _ & Hnr & Hs).
  split; [exact HT|]. split; [exact Hd|]. split; [exact Hnr|exact Hs].
Defined.

Lemma tracking_loop_camera_fixed_witness :
  exists t',
    tracking_loop still_threshold still still undistort_pinhole tracker0
      [grab_roi0; grab_roi1] = Continue t' /\
    intrinsic t' = Some cam_A /\ distortion t' = Some cam_k /\
    rot t' = Some cam_R /\ trans t' = Some cam_T /\ depth t' = Vfloat 10.
Proof.
  destruct (tracking_loop still_threshold still still undistort_pinhole tracker0
              [grab_roi0; grab_roi1]) as [t'|t'|] eqn:E;
    [|vm_compute in E; discriminate E..].
  exists t'. split; [reflexivity|].
  exact (tracking_loop_camera_fixed still_threshold still still undistort_pinhole
           tracker0 [grab_roi0; grab_roi1] t' (or_introl E)).
Defined.

Lemma tracker0_model_ok : model_ok tracker0.
Proof.
  unfold model_ok. simpl.
  split; [eexists; split; [reflexivity|repeat split]|].
  split; [eexists; split; [reflexivity|left; repeat split]|].
  split; [eexists; split; [reflexivity|repeat split]|].
  split; [eexists; split; [reflexivity|repeat split]|].
  split; [eexists; split; [reflexivity|repeat split]|].
  split; eexists; split; reflexivity.
Qed.

Lemma tracking_loop_projection_defined_witness :
  model_ok tracker0 /\
  Forall (fun g => Z.shiftr (u32 (tag g)) 16 < Z.of_nat (length (wins tracker0)))
    [grab_roi0; grab_roi1; grab_quit] /\
  exists t',
    tracking_loop still_threshold still still undistort_pinhole tracker0
      [grab_roi0; grab_roi1; grab_quit] = Break t' /\
    model_ok t' /\ length (wins t') = 2%nat.
Proof.
  assert (Hall : Forall (fun g => Z.shiftr (u32 (tag g)) 16
                                  < Z.of_nat (length (wins tracker0)))
                   [grab_roi0; grab_roi1; grab_quit]).
  { repeat constructor. }
  split; [exact tracker0_model_ok|]. split; [exact Hall|].
  pose proof (tracking_loop_projection_defined still_threshold still still
           undistort_pinhole tracker0 [grab_roi0; grab_roi1; grab_quit]
           tracker0_model_ok Hall) as Hw.
  destruct (tracking_loop still_threshold still still undistort_pinhole tracker0
              [grab_roi0; grab_roi1; grab_quit]) as [t'|t'|] eqn:E;
    [vm_compute in E; discriminate E| |destruct Hw].
  exists t'. split; [reflexivity|exact Hw].
Defined.

Lemma getChessboardViews_keeps_boards_witness :
  no_keys two_boards /\
  let '(r, c', _) := getChessboardViews calib0 two_boards 5 false in
  r = 2 /\ pixel (views c') = [six_corners 0; six_corners 5].
Proof.
  split; [exact two_boards_no_keys|].
  pose proof (getChessboardViews_keeps_boards calib0 two_boards 5 false
                two_boards_no_keys) as Hw.
  cbv zeta in Hw.
  destruct (getChessboardViews calib0 two_boards 5 false) as [[r c'] rest].
  destruct Hw as (Hr & Hp & _). split; [exact Hr|exact Hp].
Defined.

Lemma grab_calib_grid_image_points_witness :
  no_keys two_boards /\
  exists r b' rest,
    grab_calib_grid (no_board 0 :: two_boards) grid32 (grid_bufs 2 6) 2 false
      true (Some (corner_buf 6)) = Some (r, b', rest) /\
    r = 2 /\
    view_stored 6 b' 0 (board 1 0 (-1)) /\
    view_stored 6 b' 1 (board 3 5 (-1)).
Proof.
  split; [exact two_boards_no_keys|].
  destruct (grab_calib_grid (no_board 0 :: two_boards) grid32 (grid_bufs 2 6) 2
              false true (Some (corner_buf 6))) as [[[r b'] rest]|] eqn:E;
    [|vm_compute in E; discriminate E].
  assert (Hnp : 0 <= height grid32 * width grid32) by discriminate.
  destruct (grab_calib_grid_image_points (no_board 0) two_boards grid32
              (grid_bufs 2 6) 2 false (corner_buf 6) r b' rest
              two_boards_no_keys Hnp eq_refl E) as (Hr & Hv).
  exists r, b', rest. split; [reflexivity|]. split; [exact Hr|].
  split; [exact (Hv 0%nat _ eq_refl)|exact (Hv 1%nat _ eq_refl)].
Defined.

Lemma grid_bufs_fit : bufs_fit (grid_bufs 1 6) 1 6.
Proof. repeat split. Qed.

Lemma grab_calib_grid_in_bounds_witness :
  bufs_fit (grid_bufs 1 6) 1 6 /\
  exists r b' rest,
    grab_calib_grid (no_board 0 :: ignore_then_keep) grid32 (grid_bufs 1 6) 1
      true true (Some (corner_buf 6)) = Some (r, b', rest) /\
    bufs_fit b' 1 6 /\ 0 <= r <= 1.
Proof.
  split; [exact grid_bufs_fit|].
  assert (Hnp : 0 <= height grid32 * width grid32) by discriminate.
  destruct (grab_calib_grid_in_bounds (no_board 0 :: ignore_then_keep) grid32
              (grid_bufs 1 6) 1 true true (corner_buf 6) Hnp grid_bufs_fit eq_refl)
    as (r & b' & rest & E & Hb & _ & _ & Hr).
  exists r, b', rest. split; [exact E|]. split; [exact Hb|].
  apply Hr; [discriminate|reflexivity].
Defined.

Lemma get_camera_intrinsics_result_witness :
  no_keys two_boards /\ boards two_boards = 2 /\
  (exists A k rest,
     get_camera_intrinsics false None calibrate_none no_junk calib_source
       2 3 2 true (Some (corner_buf 6))
     = Some (CV_OK, [("Intrinsics.xml"%string, A); ("Distortion.xml"%string, k)],
             rest)) /\
  get_camera_intrinsics false None calibrate_none no_junk calib_source
    2 3 3 true (Some (corner_buf 6)) = Some (- 2, [], []).
Proof.
  split; [exact two_boards_no_keys|]. split; [reflexivity|].
  assert (H2 : 0 < 2) by reflexivity.
  assert (H3 : 0 < 3) by reflexivity.
  split.
  - apply (get_camera_intrinsics_result false None calibrate_none no_junk
             (no_board 10) (no_board 11) two_boards 2 3 2 (corner_buf 6)
             two_boards_no_keys H2 H3 H2 I eq_refl).
    discriminate.
  - apply (get_camera_intrinsics_result false None calibrate_none no_junk
             (no_board 10) (no_board 11) two_boards 2 3 3 (corner_buf 6)
             two_boards_no_keys H2 H3 H3 I eq_refl).
    reflexivity.
Defined.

Lemma get_camera_intrinsics_error_taken_for_view_witness :
  grab_calib_grid [] (mkSize 3 2) (grid_bufs 1 6) 1 false true
    (Some (corner_buf 6)) = Some (1, grid_bufs 1 6, []) /\
  get_camera_intrinsics false None calibrate_none no_junk [no_board 10]
    2 3 1 true (Some (corner_buf 6))
  = Some (CV_OK,
          [("Intrinsics.xml"%string, cvZero (fresh 3 3));
           ("Distortion.xml"%string, cvZero (fresh 4 1))], []).
Proof.
  split; [reflexivity|].
  assert (H2 : 0 < 2) by reflexivity.
  assert (H3 : 0 < 3) by reflexivity.
  assert (H1 : 0 < 1) by reflexivity.
  destruct (get_camera_intrinsics_error_taken_for_view false None calibrate_none
              no_junk (no_board 10) [] 2 3 1 true (Some (corner_buf 6))
              H2 H3 H1 (or_introl eq_refl)) as (Hone & _ & _).
  destruct (Hone eq_refl) as (A & k & E & HAk).
  injection HAk as -> ->. exact E.
Defined.

Lemma grab_calib_grid_views_from_source_witness :
  exists b',
    grab_calib_grid (no_board 0 :: ignore_then_keep) grid32 (grid_bufs 1 6) 1
      true true (Some (corner_buf 6)) = Some (1, b', []) /\
    exists f, f ∈ ignore_then_keep /\ found f = true /\
      key f <> KEY_i /\ view_stored 6 b' 0 f.
Proof.
  destruct (grab_calib_grid (no_board 0 :: ignore_then_keep) grid32
              (grid_bufs 1 6) 1 true true (Some (corner_buf 6)))
    as [[[r b'] rest]|] eqn:E; [|vm_compute in E; discriminate E].
  assert (Hr : r = 1) by (vm_compute in E; congruence).
  assert (Hrest : rest = []) by (vm_compute in E; congruence).
  subst r rest.
  assert (Hnp : 0 <= height grid32 * width grid32) by discriminate.
  assert (Hj : 0 <= 0 < 1) by lia.
  exists b'. split; [reflexivity|].
  destruct (grab_calib_grid_views_from_source (no_board 0) ignore_then_keep
              grid32 (grid_bufs 1 6) 1 true (corner_buf 6) 1 b' [] Hnp eq_refl
              E 0 Hj) as (f & Hin & Hf & Hk & Hv).
  exists f. split; [exact Hin|]. split; [exact Hf|].
  split; [exact (Hk eq_refl)|exact Hv].
Defined.
